(** * WebP converter: the conversion pipeline of [src/pages/index.tsx]

    A shallow embedding of the React component [WebPConverter]: its state
    ([useState] cells), the callbacks [handleFileSelect], [removeFile],
    [convertToWebP], [convertAllFiles], [downloadAllFiles] and the helper
    [formatFileSize], and the page as a machine driven by the events of
    the user and of the browser, followed by the properties of the batch
    pipeline, of its statistics and of the downloads.

    JavaScript numbers are IEEE 754 binary64 values: they are modelled by
    [spec_float] with the operations of [SpecFloat] at precision 53.  Byte
    counts ([File.size], [Blob.size]) and the sums the pipeline accumulates
    from them are integers; they are kept in [Z], which is what binary64
    addition and subtraction compute as long as the totals stay below
    2^53 ([accumulate_exact], [sub_of_Z]); the statements on the totals
    carry this bound. *)

From Stdlib Require Import ZArith String Ascii Bool Lia.
From Stdlib Require Import DecimalString SpecFloat.
From stdpp Require Import base list strings.

Local Open Scope Z_scope.

(** ** JavaScript numbers and their string forms

    [toString], [toFixed] and [parseFloat] follow the algorithms of the
    ECMAScript specification on the exact value of a number: the shortest
    decimal that reads back as the number, the nearest multiple of
    [10^-fd] (the larger one on a tie), and the number nearest to a
    decimal literal. *)

Module Number.

Definition number := spec_float.

Definition prec : Z := 53.
Definition emax : Z := 1024.

Definition add : number → number → number := SFadd prec emax.
Definition sub : number → number → number := SFsub prec emax.
Definition mul : number → number → number := SFmul prec emax.
Definition div : number → number → number := SFdiv prec emax.

(** [x <= y] and [x < y] *)
Definition leb : number → number → bool := SFleb.
Definition ltb : number → number → bool := SFltb.

(** The number nearest to an integer (exact below 2^53). *)
Definition of_Z (z : Z) : number := binary_normalize prec emax z 0 false.

Definition eqb (x y : number) : bool :=
  match x, y with
  | S754_zero a, S754_zero b => Bool.eqb a b
  | S754_infinity a, S754_infinity b => Bool.eqb a b
  | S754_nan, S754_nan => true
  | S754_finite a m e, S754_finite b m' e' =>
      Bool.eqb a b && Pos.eqb m m' && Z.eqb e e'
  | _, _ => false
  end.

(** The exact value [m * 2^e] of a finite number, as a fraction. *)
Definition frac (m : positive) (e : Z) : Z * Z :=
  if 0 <=? e then (Zpos m * 2 ^ e, 1) else (Zpos m, 2 ^ (- e)).

(** [n/d * 10^p] as a fraction. *)
Definition scale10 (nd : Z * Z) (p : Z) : Z * Z :=
  let (n, d) := nd in
  if 0 <=? p then (n * 10 ^ p, d) else (n, d * 10 ^ (- p)).

(** The number nearest to the fraction [n/d] (ties to even). *)
Definition of_frac (neg : bool) (nd : Z * Z) : number :=
  match nd with
  | (Zpos n, Zpos d) => div (S754_finite neg n 0) (S754_finite false d 0)
  | (Z0, Zpos _) => S754_zero neg
  | _ => S754_nan
  end.

Definition digits (z : Z) : string :=
  NilZero.string_of_uint (N.to_uint (Z.to_N z)).

Fixpoint zeros (k : nat) : string :=
  match k with
  | O => ""
  | S k => String "0" (zeros k)
  end.

Definition take (k : nat) (s : string) : string := substring 0 k s.
Definition drop (k : nat) (s : string) : string :=
  substring k (String.length s - k) s.

(** *** Number::toString, radix 10 *)

(** [n0] with [10^(n0-1) <= n/d < 10^n0], for a positive fraction. *)
Fixpoint below_one (fuel : nat) (j : Z) (n d : Z) : Z :=
  match fuel with
  | O => - j
  | S fuel => if d <=? n * 10 ^ (j + 1) then - j else below_one fuel (j + 1) n d
  end.

Definition order10 (nd : Z * Z) : Z :=
  let (n, d) := nd in
  if d <=? n then Z.of_nat (String.length (digits (n / d)))
  else below_one 400 0 n d.

(** The [k]-digit candidates around [v = n/d]: [None] when neither reads
    back as [x], otherwise the digits [s] and the exponent [n] of the
    specification (the nearer candidate when both read back). *)
Definition candidate (x : number) (v : Z * Z) (n0 : Z) (k : Z) : option (Z * Z) :=
  let (sn, sd) := scale10 v (k - n0) in
  let lo := sn / sd in
  let hi := lo + 1 in
  let back s := eqb (of_frac false (scale10 (s, 1) (n0 - k))) x in
  let up := if hi =? 10 ^ k then (10 ^ (k - 1), n0 + 1) else (hi, n0) in
  match back lo, back hi with
  | true, true =>
      let c := 2 * (sn - lo * sd) ?= sd in
      match c with
      | Lt => Some (lo, n0)
      | Gt => Some up
      | Eq => if Z.even lo then Some (lo, n0) else Some up
      end
  | true, false => Some (lo, n0)
  | false, true => Some up
  | false, false => None
  end.

Fixpoint shortest (fuel : nat) (x : number) (v : Z * Z) (n0 : Z) (k : Z)
  : Z * Z * Z :=
  match fuel with
  | O => (fst v / snd v, k, n0)
  | S fuel =>
      match candidate x v n0 k with
      | Some (s, n) => (s, k, n)
      | None => shortest fuel x v n0 (k + 1)
      end
  end.

Definition exponent (n : Z) : string :=
  "e" +:+ (if 0 <=? n - 1 then "+" else "-") +:+ digits (Z.abs (n - 1)).

Definition layout (ds : string) (k n : Z) : string :=
  if (k <=? n) && (n <=? 21) then ds +:+ zeros (Z.to_nat (n - k))
  else if (0 <? n) && (n <=? 21) then
    take (Z.to_nat n) ds +:+ "." +:+ drop (Z.to_nat n) ds
  else if (-6 <? n) && (n <=? 0) then "0." +:+ zeros (Z.to_nat (- n)) +:+ ds
  else if k =? 1 then ds +:+ exponent n
  else take 1 ds +:+ "." +:+ drop 1 ds +:+ exponent n.

Definition toString (x : number) : string :=
  match x with
  | S754_nan => "NaN"
  | S754_zero _ => "0"
  | S754_infinity s => if s then "-Infinity" else "Infinity"
  | S754_finite s m e =>
      let v := frac m e in
      let '(d, k, n) := shortest 17 (S754_finite false m e) v (order10 v) 1 in
      (if s then "-" else "") +:+ layout (digits d) k n
  end.

(** *** Number.prototype.toFixed *)

Definition fixed (fd : nat) (n : Z) : string :=
  let m := digits n in
  match fd with
  | O => m
  | _ =>
      let k := String.length m in
      let m := if (k <=? fd)%nat then zeros (fd + 1 - k) +:+ m else m in
      let k := String.length m in
      take (k - fd) m +:+ "." +:+ drop (k - fd) m
  end.

Definition toFixed (fd : nat) (x : number) : string :=
  match x with
  | S754_finite s m e =>
      let (n, d) := frac m e in
      (if s then "-" else "") +:+
      (if 10 ^ 21 * d <=? n then toString (S754_finite false m e)
       else fixed fd ((2 * n * 10 ^ Z.of_nat fd + d) / (2 * d)))
  | S754_zero _ => fixed fd 0
  | _ => toString x
  end.

(** *** parseFloat *)

Definition is_digit (c : ascii) : bool :=
  let n := nat_of_ascii c in (48 <=? n)%nat && (n <=? 57)%nat.

Definition is_space (c : ascii) : bool :=
  let n := nat_of_ascii c in ((9 <=? n)%nat && (n <=? 13)%nat) || (n =? 32)%nat.

Fixpoint trim_start (s : string) : string :=
  match s with
  | String c s' => if is_space c then trim_start s' else s
  | EmptyString => s
  end.

Fixpoint read_digits (s : string) (acc : Z) (cnt : nat) : Z * nat * string :=
  match s with
  | String c s' =>
      if is_digit c
      then read_digits s' (10 * acc + (Z.of_nat (nat_of_ascii c) - 48)) (S cnt)
      else (acc, cnt, s)
  | EmptyString => (acc, cnt, s)
  end.

Definition read_sign (s : string) : bool * string :=
  match s with
  | String c s' =>
      if Ascii.eqb c "-" then (true, s')
      else if Ascii.eqb c "+" then (false, s') else (false, s)
  | EmptyString => (false, s)
  end.

Definition read_exponent (s : string) : Z :=
  match s with
  | String c s' =>
      if Ascii.eqb c "e" || Ascii.eqb c "E" then
        let (neg, s'') := read_sign s' in
        let '(v, cnt, _) := read_digits s'' 0 0 in
        if (cnt =? 0)%nat then 0 else if neg then - v else v
      else 0
  | EmptyString => 0
  end.

Definition parseFloat (s : string) : number :=
  let (neg, s) := read_sign (trim_start s) in
  if String.prefix "Infinity" s then S754_infinity neg else
  let '(ip, ic, s) := read_digits s 0 0 in
  let '(fp, fc, s) :=
    match s with
    | String c s' => if Ascii.eqb c "." then read_digits s' ip 0 else (ip, 0%nat, s)
    | EmptyString => (ip, 0%nat, s)
    end in
  if (ic + fc =? 0)%nat then S754_nan
  else of_frac neg (scale10 (fp, 1) (read_exponent s - Z.of_nat fc)).

End Number.

(** ** Strings: the methods the component calls

    A string is the sequence of the bytes of its UTF-8 form; the tests
    below look for the ASCII characters of [image/], [.webp], [.] and [/],
    which that form keeps apart from every other character. *)

Module Str.

Definition lower (c : ascii) : ascii :=
  let n := nat_of_ascii c in
  if (65 <=? n)%nat && (n <=? 90)%nat then ascii_of_nat (n + 32) else c.

(** [s.toLowerCase()], on the letters A to Z. *)
Fixpoint toLowerCase (s : string) : string :=
  match s with
  | EmptyString => EmptyString
  | String c s' => String (lower c) (toLowerCase s')
  end.

(** [s.startsWith(p)] *)
Definition startsWith (s p : string) : bool := String.prefix p s.

(** [s.endsWith(p)] *)
Definition endsWith (s p : string) : bool :=
  let n := String.length s in
  let m := String.length p in
  (m <=? n)%nat && String.eqb (substring (n - m) m s) p.

(** The character class [[^/.]] *)
Definition ext_char (c : ascii) : bool :=
  negb (Ascii.eqb c "/") && negb (Ascii.eqb c ".").

Fixpoint all_ext_chars (s : string) : bool :=
  match s with
  | EmptyString => true
  | String c s' => ext_char c && all_ext_chars s'
  end.

(** A match of [\.[^/.]+$] that starts at the head of [s]. *)
Definition ext_here (s : string) : bool :=
  match s with
  | String c (String d t) => Ascii.eqb c "." && all_ext_chars (String d t)
  | _ => false
  end.

(** [s.replace(/\.[^/.]+$/, r)]: the leftmost match is replaced; without
    a match the string is returned as it is. *)
Fixpoint replace_ext (s r : string) : string :=
  match s with
  | EmptyString => EmptyString
  | String c s' => if ext_here s then r else String c (replace_ext s' r)
  end.

End Str.

(** ** The size formatter *)

Definition sizes : list string := ["Bytes"; "KB"; "MB"; "GB"].

Definition k : Z := 1024.

(** [Math.floor(Math.log(bytes) / Math.log(k))].  The logarithms are taken
    exactly: for a positive byte count the index is the integer part of
    its logarithm in base [k = 2^10]; the logarithm of a negative number
    is NaN, which is [None] here. *)
Definition unit_index (bytes : Z) : option nat :=
  if 0 <? bytes then Some (Z.to_nat (Z.log2 bytes / Z.log2 k)) else None.

(** [Math.pow(k, i)] *)
Definition Math_pow (i : option nat) : Number.number :=
  match i with
  | Some i => Number.of_Z (k ^ Z.of_nat i)
  | None => S754_nan
  end.

(** [sizes[i]], converted to a string by the concatenation. *)
Definition unit_name (i : option nat) : string :=
  match i with
  | Some i => default "undefined" (sizes !! i)
  | None => "undefined"
  end.

Definition formatFileSize (bytes : Z) : string :=
  if bytes =? 0 then "0 Bytes"
  else
    let i := unit_index bytes in
    Number.toString
      (Number.parseFloat
         (Number.toFixed 2 (Number.div (Number.of_Z bytes) (Math_pow i))))
    +:+ " " +:+ unit_name i.

(** ** Data model *)

Module File.
Record t := mk { name : string; type : string; size : Z }.
End File.

Module FileData.
Record t := mk { id : string; file : File.t; size : Z; preview : string }.
End FileData.

Module ConversionResult.
Record t := mk {
  original : File.t;
  converted : File.t;
  originalSize : Z;
  convertedSize : Z;
  compressionRatio : string
}.
End ConversionResult.

Module Stats.
Record t := mk {
  totalFiles : nat;
  totalOriginalSize : Z;
  totalConvertedSize : Z;
  totalSavings : Z;
  compressionRatio : string
}.
End Stats.

(** The [useState] cells of the component. *)
Record State := mkState {
  files : list FileData.t;
  converting : bool;
  convertedFiles : list ConversionResult.t;
  quality : Z;
  progress : Number.number;
  stats : option Stats.t
}.

Definition initial : State :=
  {| files := []; converting := false; convertedFiles := []; quality := 95;
     progress := Number.of_Z 0; stats := None |}.

Definition setFiles (v : list FileData.t) (st : State) : State :=
  {| files := v; converting := converting st;
     convertedFiles := convertedFiles st; quality := quality st;
     progress := progress st; stats := stats st |}.

Definition setConverting (v : bool) (st : State) : State :=
  {| files := files st; converting := v;
     convertedFiles := convertedFiles st; quality := quality st;
     progress := progress st; stats := stats st |}.

Definition setConvertedFiles (v : list ConversionResult.t) (st : State) : State :=
  {| files := files st; converting := converting st;
     convertedFiles := v; quality := quality st;
     progress := progress st; stats := stats st |}.

Definition setQuality (v : Z) (st : State) : State :=
  {| files := files st; converting := converting st;
     convertedFiles := convertedFiles st; quality := v;
     progress := progress st; stats := stats st |}.

Definition setProgress (v : Number.number) (st : State) : State :=
  {| files := files st; converting := converting st;
     convertedFiles := convertedFiles st; quality := quality st;
     progress := v; stats := stats st |}.

Definition setStats (v : option Stats.t) (st : State) : State :=
  {| files := files st; converting := converting st;
     convertedFiles := convertedFiles st; quality := quality st;
     progress := progress st; stats := v |}.

(** [((original - converted) / original * 100).toFixed(1)], the expression
    of both the per-file and the aggregate compression ratio. *)
Definition ratio (original converted : Z) : string :=
  Number.toFixed 1
    (Number.mul
       (Number.div
          (Number.sub (Number.of_Z original) (Number.of_Z converted))
          (Number.of_Z original))
       (Number.of_Z 100)).

(** [(i / n) * 100], the progress after [i] of [n] files. *)
Definition percent (i n : Z) : Number.number :=
  Number.mul (Number.div (Number.of_Z i) (Number.of_Z n)) (Number.of_Z 100).

(** ** Promises *)

(** How an awaited promise ends: it is resolved with a value, rejected, or
    it never settles, in which case the [await] never resumes. *)
Inductive Promise (A : Type) : Type :=
  | Resolved (a : A)
  | Rejected
  | Pending.
Arguments Resolved {A} a.
Arguments Rejected {A}.
Arguments Pending {A}.

(** What the browser does with one file inside [convertToWebP]: a call in
    the promise executor raises; or the callback of [canvas.toBlob] is
    never reached (the image cannot be decoded, so that [onload] does not
    fire, and no [onerror] is set; or the [onload] handler raises); or
    [canvas.toBlob] calls back with [null]; or it calls back with a blob of
    the given size. *)
Inductive Behaviour :=
  | Raises
  | NeverLoads
  | NullBlob
  | Blob (size : Z).

Section Component.

(** The image codec of the browser: its behaviour on a file at an encoder
    quality (a fraction). *)
Variable codec : File.t → Number.number → Behaviour.

(** ** convertToWebP *)

Definition convertToWebP (file : File.t) (quality : Z)
  : Promise ConversionResult.t :=
  match codec file (Number.div (Number.of_Z quality) (Number.of_Z 100)) with
  | Raises => Rejected
  | NeverLoads => Pending
  | NullBlob => Pending
  | Blob blob_size =>
      let convertedFile :=
        {| File.name := Str.replace_ext (File.name file) ".webp";
           File.type := "image/webp";
           File.size := blob_size |} in
      Resolved
        {| ConversionResult.original := file;
           ConversionResult.converted := convertedFile;
           ConversionResult.originalSize := File.size file;
           ConversionResult.convertedSize := blob_size;
           ConversionResult.compressionRatio := ratio (File.size file) blob_size |}
  end.

(** ** handleFileSelect and removeFile *)

(** The filter of [handleFileSelect]. *)
Definition is_image (file : File.t) : bool :=
  Str.startsWith (File.type file) "image/"
  && negb (Str.endsWith (Str.toLowerCase (File.name file)) ".webp").

(** [random_id n] stands for the value of
    [Math.random().toString(36).substr(2, 9)] and [createObjectURL n] for
    the value of [URL.createObjectURL(file)] at the [n]-th accepted file of
    one call. *)
Fixpoint fileData (random_id createObjectURL : nat → string) (n : nat)
    (imageFiles : list File.t) : list FileData.t :=
  match imageFiles with
  | [] => []
  | file :: rest =>
      {| FileData.id := random_id n; FileData.file := file;
         FileData.size := File.size file;
         FileData.preview := createObjectURL n |}
      :: fileData random_id createObjectURL (S n) rest
  end.

Definition handleFileSelect (random_id createObjectURL : nat → string)
    (selectedFiles : option (list File.t)) (st : State) : State :=
  match selectedFiles with
  | None => st
  | Some selected =>
      let imageFiles := filter (λ file, is_image file = true) selected in
      setFiles (files st ++ fileData random_id createObjectURL 0 imageFiles) st
  end.

Definition removeFile (fileId : string) (st : State) : State :=
  setFiles (filter (λ f, FileData.id f ≠ fileId) (files st)) st.

(** ** convertAllFiles *)

(** One call of [convertAllFiles], suspended at its [await]: the [files]
    and [quality] its closure captured, the loop index and the locals.
    The two totals are held as the integers that the binary64 sums of
    the code are below 2^53 ([accumulate], [accumulate_exact]). *)
Record Task := mkTask {
  t_files : list FileData.t;
  t_quality : Z;
  t_i : nat;
  t_results : list ConversionResult.t;
  t_totalOriginalSize : Z;
  t_totalConvertedSize : Z
}.

(** From the call to the first loop test: nothing happens on an empty
    working set. *)
Definition begin (st : State) : option (Task * State) :=
  match files st with
  | [] => None
  | _ :: _ =>
      Some ({| t_files := files st; t_quality := quality st; t_i := 0;
               t_results := []; t_totalOriginalSize := 0;
               t_totalConvertedSize := 0 |},
            setConvertedFiles []
              (setProgress (Number.of_Z 0) (setConverting true st)))
  end.

(** The rest of the [try] block once the awaited promise is resolved, and
    the increment of [i]. *)
Definition on_resolved (t : Task) (result : ConversionResult.t) (st : State)
  : Task * State :=
  ({| t_files := t_files t; t_quality := t_quality t; t_i := S (t_i t);
      t_results := t_results t ++ [result];
      t_totalOriginalSize :=
        t_totalOriginalSize t + ConversionResult.originalSize result;
      t_totalConvertedSize :=
        t_totalConvertedSize t + ConversionResult.convertedSize result |},
   setConvertedFiles (convertedFiles st ++ [result])
     (setProgress
        (percent (Z.of_nat (t_i t) + 1) (Z.of_nat (length (t_files t))))
        st)).

(** The [catch] block (it only logs), and the increment of [i]. *)
Definition on_rejected (t : Task) : Task :=
  {| t_files := t_files t; t_quality := t_quality t; t_i := S (t_i t);
     t_results := t_results t;
     t_totalOriginalSize := t_totalOriginalSize t;
     t_totalConvertedSize := t_totalConvertedSize t |}.

(** After the loop. *)
Definition finish (t : Task) (st : State) : State :=
  setConverting false
    (setStats
       (Some
          {| Stats.totalFiles := length (t_files t);
             Stats.totalOriginalSize := t_totalOriginalSize t;
             Stats.totalConvertedSize := t_totalConvertedSize t;
             Stats.totalSavings := t_totalOriginalSize t - t_totalConvertedSize t;
             Stats.compressionRatio :=
               ratio (t_totalOriginalSize t) (t_totalConvertedSize t) |})
       st).

(** How a call of [convertAllFiles] ends: it returns at once, it runs the
    batch to its end, or it stays suspended for ever at an [await], in the
    state it had reached. *)
Inductive Run :=
  | Returned (st : State)
  | Completed (st : State)
  | Hung (st : State).

(** The loop over [files[i]], [files[i+1]], ... *)
Fixpoint loop (rest : list FileData.t) (t : Task) (st : State) : Run :=
  match rest with
  | [] => Completed (finish t st)
  | fd :: rest =>
      match convertToWebP (FileData.file fd) (t_quality t) with
      | Resolved result =>
          let (t', st') := on_resolved t result st in loop rest t' st'
      | Rejected => loop rest (on_rejected t) st
      | Pending => Hung st
      end
  end.

Definition convertAllFiles (st : State) : Run :=
  match begin st with
  | None => Returned st
  | Some (t, st') => loop (t_files t) t st'
  end.

Definition state_of (r : Run) : State :=
  match r with Returned st | Completed st | Hung st => st end.

End Component.

(** ** The page: state, calls in flight, events *)

(** The state of the component together with the calls of
    [convertAllFiles] that are suspended at an [await]. *)
Record World := mkWorld { ui : State; tasks : list Task }.

Inductive Event :=
  | Select (random_id createObjectURL : nat → string)
           (selectedFiles : option (list File.t))
  | Remove (fileId : string)
  | Quality (v : Z)
  | Click
  | Settle (n : nat).

Section Page.

Variable codec : File.t → Number.number → Behaviour.

(** [convertAllFiles()] up to its first [await]. *)
Definition call (w : World) : World :=
  match begin (ui w) with
  | None => w
  | Some (t, st) => {| ui := st; tasks := tasks w ++ [t] |}
  end.

(** The convert button: [onClick={convertAllFiles}], [disabled={converting}]. *)
Definition click (w : World) : World :=
  if converting (ui w) then w else call w.

(** The continuation of a suspended call, when its promise settles. *)
Definition resume (t : Task) (st : State) : option (Task * State) :=
  match t_files t !! t_i t with
  | None => None
  | Some fd =>
      match convertToWebP codec (FileData.file fd) (t_quality t) with
      | Resolved result => Some (on_resolved t result st)
      | Rejected => Some (on_rejected t, st)
      | Pending => None
      end
  end.

(** The [n]-th call in flight goes on to its next [await], or leaves the
    loop and ends. *)
Definition settle (n : nat) (w : World) : World :=
  match tasks w !! n with
  | None => w
  | Some t =>
      match resume t (ui w) with
      | None => w
      | Some (t', st') =>
          if (t_i t' <? length (t_files t'))%nat
          then {| ui := st'; tasks := <[n := t']> (tasks w) |}
          else {| ui := finish t' st'; tasks := delete n (tasks w) |}
      end
  end.

Definition handle (w : World) (e : Event) : World :=
  match e with
  | Select random_id createObjectURL selectedFiles =>
      {| ui := handleFileSelect random_id createObjectURL selectedFiles (ui w);
         tasks := tasks w |}
  | Remove fileId => {| ui := removeFile fileId (ui w); tasks := tasks w |}
  | Quality v => {| ui := setQuality v (ui w); tasks := tasks w |}
  | Click => click w
  | Settle n => settle n w
  end.

Definition start : World := {| ui := initial; tasks := [] |}.

Inductive reachable : World → Prop :=
  | reachable_start : reachable start
  | reachable_handle w e : reachable w → reachable (handle w e).

(** A batch is running when a call of [convertAllFiles] is in flight. *)
Definition running (w : World) : Prop := tasks w ≠ [].

End Page.

(** ** Predicates and sample inputs of the statements *)

(** A file name carries the extension [ext] after [base]: the text after
    its final dot, which is not empty and holds neither a dot nor a
    slash. *)
Definition has_extension (name base ext : string) : Prop :=
  name = base +:+ "." +:+ ext ∧ ext ≠ "" ∧ Str.all_ext_chars ext = true.

(** The media type begins with the image category. *)
Definition image_type (file : File.t) : Prop :=
  ∃ rest, File.type file = "image/" +:+ rest.

(** The name ends with [.webp] in some mix of upper and lower case: with
    a dot followed by [w] or [W], [e] or [E], [b] or [B], [p] or [P]. *)
Definition webp_name (file : File.t) : Prop :=
  ∃ base w e b p,
    File.name file
    = base +:+ String "." (String w (String e (String b (String p "")))) ∧
    (w = "w" ∨ w = "W")%char ∧ (e = "e" ∨ e = "E")%char ∧
    (b = "b" ∨ b = "B")%char ∧ (p = "p" ∨ p = "P")%char.

(** Sample inputs. *)
Definition photo : File.t :=
  {| File.name := "photo"; File.type := "image/png"; File.size := 1000 |}.

Definition picture : File.t :=
  {| File.name := "holiday.2024.JPG"; File.type := "image/jpeg";
     File.size := 1000 |}.

(** A codec that encodes every file to 400 bytes. *)
Definition codec_400 (_ : File.t) (_ : Number.number) : Behaviour := Blob 400.

(** The results of the files of [l] whose conversion is resolved, in the
    order of [l]. *)
Definition resolved_results (codec : File.t → Number.number → Behaviour)
    (quality : Z) (l : list FileData.t) : list ConversionResult.t :=
  omap (λ fd, match convertToWebP codec (FileData.file fd) quality with
              | Resolved result => Some result
              | _ => None
              end) l.

(** The sum of a size over a collection of results. *)
Definition total (size : ConversionResult.t → Z)
    (l : list ConversionResult.t) : Z :=
  foldr (λ result acc, size result + acc) 0 l.

(** [let total = 0] and, for each result, [total += result.size], in
    binary64: the number that the loop of [convertAllFiles] holds in
    [totalOriginalSize] or in [totalConvertedSize] after the results of
    [l]. *)
Definition accumulate (size : ConversionResult.t → Z)
    (l : list ConversionResult.t) : Number.number :=
  foldl (λ acc result, Number.add acc (Number.of_Z (size result)))
        (Number.of_Z 0) l.

(** The sizes of the results are byte counts, and so are their sums:
    integers from 0 to below 2^53, which binary64 numbers hold exactly. *)
Definition exact_sizes (l : list ConversionResult.t) : Prop :=
  Forall (λ r, 0 ≤ ConversionResult.originalSize r ∧
               0 ≤ ConversionResult.convertedSize r) l ∧
  total ConversionResult.originalSize l < 2 ^ 53 ∧
  total ConversionResult.convertedSize l < 2 ^ 53.

(** The text [s] shows the percentage [num / den * 100] with one decimal:
    it is a number [t] of tenths written with a point before its last
    digit, after a minus sign when [num] is negative, and [t / 10] is
    within [0.05 + 2^-51 * p] of [p = |num| / den * 100] (half a tenth
    for the decimal, the rest for the two roundings of the quotient and
    of the product in binary64). *)
Definition shows_percent (s : string) (num den : Z) : Prop :=
  ∃ t, 0 ≤ t ∧
    s = (if num <? 0 then "-" else "") +:+ Number.fixed 1 t ∧
    2 ^ 52 * Z.abs (t * den - 1000 * Z.abs num)
    ≤ 2 ^ 51 * den + 2000 * Z.abs num.

(** A working-set entry for a file. *)
Definition entry (id : string) (file : File.t) : FileData.t :=
  {| FileData.id := id; FileData.file := file;
     FileData.size := File.size file; FileData.preview := "blob:" +:+ id |}.

Definition with_files (l : list FileData.t) : State := setFiles l initial.

(** Three images of 1,000,000, 500,000 and 250,000 bytes, and a codec that
    encodes each to two fifths of its size. *)
Definition image (name : string) (size : Z) : File.t :=
  {| File.name := name; File.type := "image/png"; File.size := size |}.

(** Files named with [.webp] in upper and in mixed case, and a selection
    that offers them among images and a text file. *)
Definition upper_webp : File.t :=
  {| File.name := "b.WEBP"; File.type := "image/webp"; File.size := 20 |}.

Definition mixed_webp : File.t :=
  {| File.name := "c.WebP"; File.type := "image/webp"; File.size := 30 |}.

Definition offered : list File.t :=
  [image "a.png" 10; upper_webp; mixed_webp;
   {| File.name := "notes.txt"; File.type := "text/plain"; File.size := 5 |};
   picture].

Definition three_images : State :=
  with_files [entry "a" (image "a.png" 1000000);
              entry "b" (image "b.png" 500000);
              entry "c" (image "c.png" 250000)].

Definition codec_two_fifths (file : File.t) (_ : Number.number) : Behaviour :=
  Blob (File.size file * 2 / 5).

(** A codec that cannot decode the files named [broken.png], whose encoder
    gives no output for [empty.png], which raises on [locked.png], and
    which encodes any other file to 400 bytes. *)
Definition codec_partial (file : File.t) (_ : Number.number) : Behaviour :=
  if String.eqb (File.name file) "broken.png" then NeverLoads
  else if String.eqb (File.name file) "empty.png" then NullBlob
  else if String.eqb (File.name file) "locked.png" then Raises
  else Blob 400.

(** Two states that agree on everything but the statistics. *)
Definition agree (a b : State) : Prop :=
  files a = files b ∧ converting a = converting b ∧
  convertedFiles a = convertedFiles b ∧ quality a = quality b ∧
  progress a = progress b.

(** Two calls of [convertAllFiles] end alike: completed in the same state,
    or suspended in states that differ at most in the statistics shown
    (which a suspended call has not written). *)
Definition same_outcome (r1 r2 : Run) : Prop :=
  match r1, r2 with
  | Returned _, Returned _ => True
  | Completed a, Completed b => a = b
  | Hung a, Hung b => agree a b
  | _, _ => False
  end.

(** The state [st] with other results, progress, statistics and flag. *)
Definition with_leftovers (earlier : list ConversionResult.t)
    (p : Number.number) (s : option Stats.t) (c : bool) (st : State) : State :=
  {| files := files st; converting := c; convertedFiles := earlier;
     quality := quality st; progress := p; stats := s |}.

(** At most one call of [convertAllFiles] is in flight; [converting] is
    set exactly while there is one; the collection shown is the one the
    call has built so far, out of conversions of the files it captured,
    and its totals are the sums over that collection; the progress shown
    is 0 or the one set at an earlier index of the loop. *)
Definition consistent (codec : File.t → Number.number → Behaviour)
    (w : World) : Prop :=
  match tasks w with
  | [] => converting (ui w) = false
  | [t] =>
      converting (ui w) = true ∧ (t_i t < length (t_files t))%nat ∧
      convertedFiles (ui w) = t_results t ∧
      t_totalOriginalSize t = total ConversionResult.originalSize (t_results t) ∧
      t_totalConvertedSize t
        = total ConversionResult.convertedSize (t_results t) ∧
      (∀ r, r ∈ t_results t →
            ∃ fd, fd ∈ t_files t ∧
                  convertToWebP codec (FileData.file fd) (t_quality t)
                  = Resolved r) ∧
      (progress (ui w) = Number.of_Z 0 ∨
       ∃ j, 0 < j ≤ Z.of_nat (t_i t) ∧
            progress (ui w) = percent j (Z.of_nat (length (t_files t))))
  | _ => False
  end.

(** A page on which one file was selected and the convert button clicked. *)
Definition busy_page : World :=
  handle codec_400
    (handle codec_400 start (Select (λ _, "id") (λ _, "blob:1") (Some [picture])))
    Click.

Definition broken_batch : State :=
  with_files [entry "a" (image "a.png" 1000);
              entry "b" (image "broken.png" 1000);
              entry "c" (image "c.png" 1000)].

(** Two files on which the codec raises. *)
Definition locked_pair : State :=
  with_files [entry "a" (image "locked.png" 1000);
              entry "b" (image "locked.png" 2000)].

(** [n] settlements of the promise awaited by the call in flight. *)
Fixpoint settles (codec : File.t → Number.number → Behaviour) (n : nat)
    (w : World) : World :=
  match n with
  | O => w
  | S n => settles codec n (settle codec 0 w)
  end.

(** ** Rounding to nearest, by keys

    A value located at a binary exponent is a mantissa [m] together with
    the place of the value between [m] and [m + 1] (on [m], below the
    middle, on it, above it).  Its key [4 * m + c] orders the located
    values of one exponent; the functions below are what [SpecFloat] does
    to a located value, written on keys. *)

Module Round.

(** The place of a value between two mantissas, as a number. *)
Definition code (l : location) : Z :=
  match l with
  | loc_Exact => 0
  | loc_Inexact Lt => 1
  | loc_Inexact Eq => 2
  | loc_Inexact Gt => 3
  end.

Definition key (m : Z) (l : location) : Z := 4 * m + code l.

(** The key of a shift record: mantissa, round bit, sticky bit. *)
Definition rkey (r : shr_record) : Z :=
  4 * shr_m r + (if shr_r r then 2 else 0) + (if shr_s r then 1 else 0).

(** The key after one shift to the right ([shr_1]). *)
Definition halve (K : Z) : Z := 2 * (K / 4) + (if K mod 4 =? 0 then 0 else 1).

(** The nearest mantissa, the even one on a tie ([round_nearest_even]). *)
Definition rne (K : Z) : Z :=
  let m := K / 4 in
  let c := K mod 4 in
  if c <=? 1 then m
  else if c =? 2 then (if Z.even m then m else m + 1)
  else m + 1.

(** The mantissa and exponent that rounding gives to a located value with
    key [K] at exponent [e]. *)
Definition rounded (K e : Z) : Z * Z :=
  let sc := Z.log2 (K / 4) - 52 in
  let M0 := rne (Nat.iter (Z.to_nat sc) halve K) in
  if M0 =? 2 ^ 53 then (2 ^ 52, e + sc + 1) else (M0, e + sc).

(** The positive number of a mantissa and an exponent. *)
Definition finite (ME : Z * Z) : spec_float :=
  S754_finite false (Z.to_pos (fst ME)) (snd ME).

(** The order of the positive numbers with mantissas of 53 bits: by
    exponent, then by mantissa. *)
Definition lexle (a b : Z * Z) : Prop :=
  snd a < snd b ∨ (snd a = snd b ∧ fst a ≤ fst b).

(** The key of the quotient [N / D]. *)
Definition kdiv (N D : Z) : Z :=
  4 * (N / D)
  + (if N mod D =? 0 then 0
     else match 2 * (N mod D) ?= D with Lt => 1 | Eq => 2 | Gt => 3 end).

End Round.

(** ** downloadAllFiles

    The calls of a download that act on the browser (on its object URLs,
    on the body of the document, and the click that starts the download)
    are kept in a log, in the order in which they are made; the anchor
    that [document.createElement] returns and the values assigned to it
    are the anchor of these calls.  [URL.createObjectURL] returns a URL of
    the browser's choosing: [mint n] stands for the URL that its [n]-th
    call returns.  Console output is not part of the log. *)

Module Dom.

(** The anchor element of a download: [a.href], [a.download] and
    [a.style.display], which is empty unless it is set. *)
Record Anchor := mkAnchor {
  href : string;
  download : string;
  display : string
}.

Inductive Call :=
  | createObjectURL (file : File.t) (url : string)
  | appendChild (a : Anchor)
  | click (a : Anchor)
  | removeChild (a : Anchor)
  | revokeObjectURL (url : string).

(** The number of URLs handed out so far, and the log. *)
Record t := mk { minted : nat; calls : list Call }.

Definition start : t := {| minted := 0; calls := [] |}.

End Dom.

#[global] Instance anchor_eq_dec : EqDecision Dom.Anchor.
Proof. solve_decision. Defined.

(** A timer set by [setTimeout(callback, delay)]. *)
Module Timer.
Record t := mk { delay : Z; callback : Dom.t → Dom.t }.
End Timer.

Section Download.

Variable mint : nat → string.

(** The callback of the timer of one result. *)
Definition download_one (result : ConversionResult.t) (dom : Dom.t) : Dom.t :=
  let url := mint (Dom.minted dom) in
  let a := {| Dom.href := url;
              Dom.download := File.name (ConversionResult.converted result);
              Dom.display := "" |} in
  {| Dom.minted := S (Dom.minted dom);
     Dom.calls :=
       Dom.calls dom ++
       [Dom.createObjectURL (ConversionResult.converted result) url;
        Dom.appendChild a; Dom.click a; Dom.removeChild a;
        Dom.revokeObjectURL url] |}.

(** The timers that a call of [downloadAllFiles] sets, in the order in
    which it sets them. *)
Definition downloadAllFiles (st : State) : list Timer.t :=
  match convertedFiles st with
  | [] => []
  | _ :: _ =>
      imap (λ index result,
              {| Timer.delay := Z.of_nat index * 100;
                 Timer.callback := download_one result |})
           (convertedFiles st)
  end.

End Download.

(** ** downloadAllFiles of [src/unnamed/part_000]

    The other version of the page downloads the files one after the
    other, in one asynchronous call that waits 500 ms between two
    downloads.  None of the calls of its [try] block raises, so that the
    [catch] block is not entered. *)

Module Part000.

Section Download.

Variable mint : nat → string.

(** The [try] block of one iteration, up to the wait. *)
Definition download_one (result : ConversionResult.t) (dom : Dom.t) : Dom.t :=
  let url := mint (Dom.minted dom) in
  let a := {| Dom.href := url;
              Dom.download := File.name (ConversionResult.converted result);
              Dom.display := "none" |} in
  {| Dom.minted := S (Dom.minted dom);
     Dom.calls :=
       Dom.calls dom ++
       [Dom.createObjectURL (ConversionResult.converted result) url;
        Dom.appendChild a; Dom.click a; Dom.removeChild a;
        Dom.revokeObjectURL url] |}.

(** The loop over [convertedFiles[i]], [convertedFiles[i+1]], ...; the
    second component is the time spent in the waits, in ms. *)
Fixpoint loop (rest : list ConversionResult.t) (dom : Dom.t) (waited : Z)
  : Dom.t * Z :=
  match rest with
  | [] => (dom, waited)
  | result :: rest' =>
      loop rest' (download_one result dom)
           (match rest' with [] => waited | _ :: _ => waited + 500 end)
  end.

Definition downloadAllFiles (st : State) (dom : Dom.t) : Dom.t * Z :=
  match convertedFiles st with
  | [] => (dom, 0)
  | _ :: _ => loop (convertedFiles st) dom 0
  end.

End Download.

End Part000.

(** The timer queue of the browser: a timer fires after the timers of a
    smaller or equal delay that were set before it. *)
Fixpoint enqueue (timer : Timer.t) (queue : list Timer.t) : list Timer.t :=
  match queue with
  | [] => [timer]
  | first :: rest =>
      if Timer.delay first <=? Timer.delay timer
      then first :: enqueue timer rest
      else timer :: first :: rest
  end.

Definition queue_of (timers : list Timer.t) : list Timer.t :=
  foldl (λ queue timer, enqueue timer queue) [] timers.

(** The timers of a queue fire one after the other. *)
Definition fire (queue : list Timer.t) (dom : Dom.t) : Dom.t :=
  foldl (λ dom timer, Timer.callback timer dom) dom queue.

(** The anchors clicked in a log, in order. *)
Definition clicked (calls : list Dom.Call) : list Dom.Anchor :=
  omap (λ c, match c with Dom.click a => Some a | _ => None end) calls.

(** The object URLs that a log leaves alive: created and not revoked. *)
Definition live_urls (calls : list Dom.Call) : list string :=
  foldl (λ live c,
           match c with
           | Dom.createObjectURL _ url => live ++ [url]
           | Dom.revokeObjectURL url => filter (λ u, u ≠ url) live
           | _ => live
           end) [] calls.

(** The anchors that a log leaves in [document.body]. *)
Definition attached (calls : list Dom.Call) : list Dom.Anchor :=
  foldl (λ body c,
           match c with
           | Dom.appendChild a => body ++ [a]
           | Dom.removeChild a => filter (λ b, b ≠ a) body
           | _ => body
           end) [] calls.

(** The five calls of the download of one result from the URL [url],
    through an anchor of the given [style.display]. *)
Definition download_calls (display url : string) (result : ConversionResult.t)
  : list Dom.Call :=
  let a := {| Dom.href := url;
              Dom.download := File.name (ConversionResult.converted result);
              Dom.display := display |} in
  [Dom.createObjectURL (ConversionResult.converted result) url;
   Dom.appendChild a; Dom.click a; Dom.removeChild a;
   Dom.revokeObjectURL url].

(** ** The progress label

    [Math.round(x)]: the integer nearest to [x], the larger one on a
    tie. *)
Definition Math_round (x : Number.number) : Number.number :=
  match x with
  | S754_finite s m e =>
      let (n, d) := Number.frac m e in
      let r := if s then (d - 2 * n) / (2 * d) else (2 * n + d) / (2 * d) in
      if (r =? 0) && s then S754_zero true else Number.of_Z r
  | _ => x
  end.

(** ** More predicates of the statements *)

(** An entry of the working set as [handleFileSelect] builds it: an
    accepted image, with the size of its file. *)
Definition accepted (fd : FileData.t) : Prop :=
  is_image (FileData.file fd) = true ∧
  FileData.size fd = File.size (FileData.file fd).

(** The statistics agree with a collection of results. *)
Definition stats_of (results : list ConversionResult.t) (s : Stats.t) : Prop :=
  Stats.totalOriginalSize s = total ConversionResult.originalSize results ∧
  Stats.totalConvertedSize s = total ConversionResult.convertedSize results ∧
  Stats.totalSavings s
    = Stats.totalOriginalSize s - Stats.totalConvertedSize s ∧
  Stats.compressionRatio s
    = ratio (Stats.totalOriginalSize s) (Stats.totalConvertedSize s).

(** A result as [convertToWebP] builds it for its original. *)
Definition well_formed (r : ConversionResult.t) : Prop :=
  ConversionResult.originalSize r = File.size (ConversionResult.original r) ∧
  ConversionResult.convertedSize r = File.size (ConversionResult.converted r) ∧
  File.type (ConversionResult.converted r) = "image/webp" ∧
  File.name (ConversionResult.converted r)
    = Str.replace_ext (File.name (ConversionResult.original r)) ".webp" ∧
  ConversionResult.compressionRatio r
    = ratio (ConversionResult.originalSize r) (ConversionResult.convertedSize r).

(** The page after a sequence of events. *)
Definition run (codec : File.t → Number.number → Behaviour)
    (w : World) (events : list Event) : World :=
  foldl (handle codec) w events.

(** An event of the user, as opposed to the settlement of a promise. *)
Definition user_event (e : Event) : Prop :=
  match e with Settle _ => False | _ => True end.

(** The page of [busy_page] once the conversion of its file is settled. *)
Definition finished_page : World := handle codec_400 busy_page (Settle 0).

(** A page on which a file that cannot be decoded was selected and the
    convert button clicked. *)
Definition blocked_page : World :=
  handle codec_partial
    (handle codec_partial start
       (Select (λ _, "id") (λ _, "blob:1") (Some [image "broken.png" 1000])))
    Click.

(** A page on which a file on which the codec raises was selected and the
    convert button clicked. *)
Definition locked_page : World :=
  handle codec_partial
    (handle codec_partial start
       (Select (λ _, "id") (λ _, "blob:1") (Some [image "locked.png" 1000])))
    Click.

(** The quality slider is an input of type [range] with [min="1"] and
    [max="100"]: the values it gives are the integers from 1 to 100. *)
Definition slider_event (e : Event) : Prop :=
  match e with Quality v => 1 ≤ v ≤ 100 | _ => True end.

(** The quality that [convertToWebP] hands to [canvas.toBlob] is a
    fraction above 0 and of at most 1. *)
Definition encoder_quality (quality : Z) : Prop :=
  let q := Number.div (Number.of_Z quality) (Number.of_Z 100) in
  Number.ltb (Number.of_Z 0) q = true ∧ Number.leb q (Number.of_Z 1) = true.

(** * Properties *)

Section StringFacts.

Lemma app_nil_l (s : string) : "" +:+ s = s.
Proof. reflexivity. Qed.

Lemma app_cons (c : ascii) (a b : string) :
  String c a +:+ b = String c (a +:+ b).
Proof. reflexivity. Qed.

Lemma append_assoc (a b c : string) : (a +:+ b) +:+ c = a +:+ (b +:+ c).
Proof.
  induction a as [|x a IH]; [reflexivity|]. rewrite !app_cons. by rewrite IH.
Qed.

Lemma toLowerCase_app (a b : string) :
  Str.toLowerCase (a +:+ b) = Str.toLowerCase a +:+ Str.toLowerCase b.
Proof.
  induction a as [|x a IH]; [reflexivity|].
  rewrite app_cons. simpl. rewrite app_cons. by rewrite IH.
Qed.

Lemma append_length (a b : string) :
  String.length (a +:+ b) = (String.length a + String.length b)%nat.
Proof.
  induction a as [|x a IH]; [reflexivity|]. rewrite app_cons. simpl. by rewrite IH.
Qed.

Lemma toLowerCase_length (a : string) :
  String.length (Str.toLowerCase a) = String.length a.
Proof. induction a as [|x a IH]; simpl; congruence. Qed.

Lemma substring_length_le (n m : nat) (s : string) :
  (n + m ≤ String.length s)%nat → String.length (substring n m s) = m.
Proof.
  revert m s. induction n as [|n IH]; intros m s H.
  - revert s H. induction m as [|m IHm]; intros s H; destruct s; simpl in *;
      try reflexivity; try lia.
    f_equal. apply IHm. lia.
  - destruct s; simpl in *; [lia|]. apply IH. lia.
Qed.

(** Two splits of one string with suffixes of equal length agree. *)
Lemma app_inj_length_r (a b c d : string) :
  String.length b = String.length d → a +:+ b = c +:+ d → b = d.
Proof.
  revert c. induction a as [|x a IH]; intros c Hlen H.
  - destruct c as [|y c]; [exact H|].
    apply (f_equal String.length) in H.
    rewrite app_nil_l, append_length in H. simpl in H. lia.
  - destruct c as [|y c].
    + apply (f_equal String.length) in H.
      rewrite app_nil_l, append_length in H. simpl in H. lia.
    + rewrite !app_cons in H. injection H as _ H. by apply (IH c).
Qed.

Lemma startsWith_iff (s p : string) :
  Str.startsWith s p = true ↔ ∃ rest, s = p +:+ rest.
Proof.
  unfold Str.startsWith. revert s.
  induction p as [|c p IH]; intros s.
  - destruct s; simpl; split; eauto.
  - destruct s as [|d s]; simpl.
    + split; [discriminate | intros [rest H]; discriminate].
    + destruct (ascii_dec c d) as [->|Hne].
      * rewrite IH. split; intros [rest H]; exists rest.
        -- rewrite app_cons. congruence.
        -- rewrite app_cons in H. congruence.
      * split; [discriminate | intros [rest H]; rewrite app_cons in H; congruence].
Qed.

Lemma substring_all (s : string) : substring 0 (String.length s) s = s.
Proof. induction s as [|y s IH]; simpl; congruence. Qed.

Lemma substring_app_r (a b : string) :
  substring (String.length a) (String.length b) (a +:+ b) = b.
Proof.
  induction a as [|x a IH]; [apply substring_all|].
  rewrite app_cons. simpl. exact IH.
Qed.

Lemma substring_split (n : nat) (s : string) :
  (n ≤ String.length s)%nat →
  s = substring 0 n s +:+ substring n (String.length s - n) s.
Proof.
  revert s. induction n as [|n IH]; intros s Hn.
  - rewrite Nat.sub_0_r, substring_all. by destruct s.
  - destruct s as [|x s]; simpl in *; [lia|].
    rewrite app_cons. f_equal. apply IH. lia.
Qed.

Lemma endsWith_iff (s p : string) :
  Str.endsWith s p = true ↔ ∃ base, s = base +:+ p.
Proof.
  unfold Str.endsWith. split.
  - intros [Hle Heq]%andb_true_iff.
    apply Nat.leb_le in Hle. apply String.eqb_eq in Heq.
    exists (substring 0 (String.length s - String.length p) s).
    pose proof (substring_split (String.length s - String.length p) s) as H.
    replace (String.length s - (String.length s - String.length p))%nat
      with (String.length p) in H by lia.
    rewrite Heq in H. apply H. lia.
  - intros [base ->]. rewrite append_length.
    apply andb_true_iff. split; [apply Nat.leb_le; lia|].
    apply String.eqb_eq.
    replace (String.length base + String.length p - String.length p)%nat
      with (String.length base) by lia.
    apply substring_app_r.
Qed.

End StringFacts.

(** ** Selecting and removing files *)

Section Selection.

Lemma lower_dot (c : ascii) : Str.lower c = "."%char → c = "."%char.
Proof.
  destruct c as [[] [] [] [] [] [] [] []]; vm_compute; intros H;
    try discriminate; reflexivity.
Qed.

Lemma lower_w (c : ascii) :
  Str.lower c = "w"%char → (c = "w" ∨ c = "W")%char.
Proof.
  destruct c as [[] [] [] [] [] [] [] []]; vm_compute; intros H;
    try discriminate; auto.
Qed.

Lemma lower_e (c : ascii) :
  Str.lower c = "e"%char → (c = "e" ∨ c = "E")%char.
Proof.
  destruct c as [[] [] [] [] [] [] [] []]; vm_compute; intros H;
    try discriminate; auto.
Qed.

Lemma lower_b (c : ascii) :
  Str.lower c = "b"%char → (c = "b" ∨ c = "B")%char.
Proof.
  destruct c as [[] [] [] [] [] [] [] []]; vm_compute; intros H;
    try discriminate; auto.
Qed.

Lemma lower_p (c : ascii) :
  Str.lower c = "p"%char → (c = "p" ∨ c = "P")%char.
Proof.
  destruct c as [[] [] [] [] [] [] [] []]; vm_compute; intros H;
    try discriminate; auto.
Qed.

(** The strings that [toLowerCase] takes to [.webp]. *)
Lemma toLowerCase_webp (ext : string) :
  Str.toLowerCase ext = ".webp" ↔
  ∃ w e b p,
    ext = String "." (String w (String e (String b (String p "")))) ∧
    (w = "w" ∨ w = "W")%char ∧ (e = "e" ∨ e = "E")%char ∧
    (b = "b" ∨ b = "B")%char ∧ (p = "p" ∨ p = "P")%char.
Proof.
  split.
  - destruct ext as [|c0 [|c1 [|c2 [|c3 [|c4 [|c5 rest]]]]]];
      cbn [Str.toLowerCase]; intros H; try discriminate.
    injection H as H0 H1 H2 H3 H4.
    apply lower_dot in H0 as ->.
    exists c1, c2, c3, c4. split; [reflexivity|].
    split; [by apply lower_w|]. split; [by apply lower_e|].
    split; [by apply lower_b | by apply lower_p].
  - intros (w & e & b & p & -> & [-> | ->] & [-> | ->] & [-> | ->] & [-> | ->]);
      reflexivity.
Qed.

Lemma webp_name_lower (file : File.t) :
  webp_name file ↔
  ∃ base ext, File.name file = base +:+ ext ∧ Str.toLowerCase ext = ".webp".
Proof.
  unfold webp_name. split.
  - intros (base & w & e & b & p & Hname & Hcase).
    exists base, (String "." (String w (String e (String b (String p ""))))).
    split; [exact Hname|]. apply toLowerCase_webp. by exists w, e, b, p.
  - intros (base & ext & Hname & (w & e & b & p & -> & Hcase)%toLowerCase_webp).
    by exists base, w, e, b, p.
Qed.

Lemma is_image_iff (file : File.t) :
  is_image file = true ↔ image_type file ∧ ¬ webp_name file.
Proof.
  rewrite webp_name_lower. unfold is_image, image_type.
  rewrite andb_true_iff, negb_true_iff, startsWith_iff.
  apply and_iff_compat_l. rewrite <- not_true_iff_false, endsWith_iff.
  split; intros Hn H; apply Hn.
  - destruct H as (base & ext & Hname & Hext).
    exists (Str.toLowerCase base). by rewrite Hname, toLowerCase_app, Hext.
  - destruct H as [low Hlow].
    pose proof (f_equal String.length Hlow) as Hlen.
    rewrite toLowerCase_length, append_length in Hlen. simpl in Hlen.
    pose proof (substring_split (String.length (File.name file) - 5)
                  (File.name file)) as Hsplit.
    eexists _, _. split; [apply Hsplit; lia|].
    rewrite Hsplit in Hlow by lia. rewrite toLowerCase_app in Hlow.
    eapply (app_inj_length_r _ _ low); [|exact Hlow].
    rewrite toLowerCase_length, substring_length_le; simpl; lia.
Qed.

Lemma fileData_file (random_id createObjectURL : nat → string) (n : nat)
    (imageFiles : list File.t) :
  FileData.file <$> fileData random_id createObjectURL n imageFiles = imageFiles.
Proof.
  revert n. induction imageFiles as [|file rest IH]; intros n; simpl;
    [reflexivity | by rewrite IH].
Qed.

(** C7. Input acceptance appends to the working set exactly the offered
    files, in their order, whose media type begins with [image/] and whose
    name does not end with [.webp] in any mix of case; every other offered
    file is dropped, and nothing else of the state changes. *)
Theorem handleFileSelect_keeps_images
    (random_id createObjectURL : nat → string)
    (selected : list File.t) (st : State) :
  let st' := handleFileSelect random_id createObjectURL (Some selected) st in
  ∃ added : list FileData.t,
    files st' = files st ++ added ∧
    FileData.file <$> added = filter (λ f, is_image f = true) selected ∧
    (∀ f, f ∈ FileData.file <$> added ↔
          f ∈ selected ∧ image_type f ∧ ¬ webp_name f) ∧
    (FileData.file <$> added) `sublist_of` selected ∧
    converting st' = converting st ∧
    convertedFiles st' = convertedFiles st ∧
    quality st' = quality st ∧
    progress st' = progress st ∧
    stats st' = stats st.
Proof.
  simpl.
  exists (fileData random_id createObjectURL 0
            (filter (λ f, is_image f = true) selected)).
  rewrite fileData_file.
  split; [reflexivity|]. split; [reflexivity|]. split; [|split].
  - intros f. rewrite list_elem_of_filter, is_image_iff. tauto.
  - apply sublist_filter.
  - by repeat split.
Qed.

Lemma filter_complement_length {A} (P : A → Prop) `{∀ x, Decision (P x)}
    (l : list A) :
  length l = (length (filter (λ x, ¬ P x) l) + length (filter P l))%nat.
Proof.
  induction l as [|x l IH]; [reflexivity|].
  rewrite !filter_cons. destruct (decide (P x)), (decide (¬ P x)); simpl; try lia.
  - contradiction.
  - tauto.
Qed.

(** C10. Removing a file by id takes out of the working set the entries
    with that id and no other, keeps the remaining entries in their order,
    and leaves the results, the statistics, the progress and the quality
    as they were. *)
Theorem removeFile_frame (fileId : string) (st : State) :
  let st' := removeFile fileId st in
  Forall (λ f, FileData.id f ≠ fileId) (files st') ∧
  files st' `sublist_of` files st ∧
  (∀ f, f ∈ files st → FileData.id f ≠ fileId → f ∈ files st') ∧
  length (files st) =
    (length (files st')
     + length (filter (λ f, FileData.id f = fileId) (files st)))%nat ∧
  convertedFiles st' = convertedFiles st ∧
  stats st' = stats st ∧
  progress st' = progress st ∧
  quality st' = quality st ∧
  converting st' = converting st.
Proof.
  simpl. split; [|split; [|split; [|split]]].
  - apply Forall_forall. by intros f [? ?]%list_elem_of_filter.
  - apply sublist_filter.
  - intros f Hin Hid. by apply list_elem_of_filter.
  - apply (filter_complement_length (λ f, FileData.id f = fileId)).
  - by repeat split.
Qed.

End Selection.

(** Of an image, a file named [b.WEBP], one named [c.WebP], a text file
    and a second image, the two images are kept. *)
Lemma handleFileSelect_keeps_images_witness :
  ∃ added,
    files (handleFileSelect (λ _, "id") (λ _, "blob:1") (Some offered) initial)
    = added ∧
    FileData.file <$> added = [image "a.png" 10; picture] ∧
    upper_webp ∈ offered ∧ webp_name upper_webp ∧
    (upper_webp ∉ FileData.file <$> added) ∧
    mixed_webp ∈ offered ∧ webp_name mixed_webp ∧
    (mixed_webp ∉ FileData.file <$> added).
Proof.
  destruct (handleFileSelect_keeps_images (λ _, "id") (λ _, "blob:1")
              offered initial) as (added & Hfiles & Hfilter & Hiff & _).
  assert (Hupper : webp_name upper_webp).
  { exists "b", "W"%char, "E"%char, "B"%char, "P"%char.
    split; [reflexivity|]. repeat split; by right. }
  assert (Hmixed : webp_name mixed_webp).
  { exists "c", "W"%char, "e"%char, "b"%char, "P"%char.
    split; [reflexivity|].
    split; [by right|]. split; [by left|]. split; [by left | by right]. }
  exists added. split; [exact Hfiles|]. split; [rewrite Hfilter; reflexivity|].
  split; [apply list_elem_of_In; simpl; tauto|]. split; [exact Hupper|].
  split; [intros Hin; apply Hiff in Hin as (_ & _ & Hnot); by apply Hnot|].
  split; [apply list_elem_of_In; simpl; tauto|]. split; [exact Hmixed|].
  intros Hin. apply Hiff in Hin as (_ & _ & Hnot). by apply Hnot.
Defined.

(** ** The output name of a conversion *)

Section OutputName.

Lemma all_ext_chars_dot (a b : string) :
  Str.all_ext_chars (a +:+ "." +:+ b) = false.
Proof.
  induction a as [|c a IH]; [reflexivity|].
  rewrite app_cons. simpl. rewrite IH. apply andb_false_r.
Qed.

Lemma ext_here_inv (c : ascii) (t : string) :
  Str.ext_here (String c t) = true →
  c = "."%char ∧ t ≠ "" ∧ Str.all_ext_chars t = true.
Proof.
  destruct t as [|d t]; [discriminate|].
  intros [Hc Hall]%andb_true_iff. apply Ascii.eqb_eq in Hc. by repeat split.
Qed.

Lemma replace_ext_cons (c : ascii) (s r : string) :
  Str.replace_ext (String c s) r =
  if Str.ext_here (String c s) then r else String c (Str.replace_ext s r).
Proof. reflexivity. Qed.

Lemma replace_ext_extension (name base ext r : string) :
  has_extension name base ext → Str.replace_ext name r = base +:+ r.
Proof.
  intros (-> & Hne & Hall). induction base as [|c base IH].
  - destruct ext as [|d t]; [done|].
    change ("" +:+ "." +:+ String d t) with (String "." (String d t)).
    rewrite replace_ext_cons. unfold Str.ext_here. by rewrite Hall.
  - rewrite !(app_cons c base), replace_ext_cons.
    destruct (Str.ext_here (String c (base +:+ "." +:+ ext))) eqn:Hhere.
    + apply ext_here_inv in Hhere as (_ & _ & Hbad).
      by rewrite all_ext_chars_dot in Hbad.
    + by rewrite IH.
Qed.

Lemma replace_ext_plain (name r : string) :
  (∀ base ext, ¬ has_extension name base ext) → Str.replace_ext name r = name.
Proof.
  induction name as [|c name IH]; intros Hno; [reflexivity|].
  rewrite replace_ext_cons.
  destruct (Str.ext_here (String c name)) eqn:Hhere.
  - apply ext_here_inv in Hhere as (-> & Hne & Hall).
    destruct (Hno "" name). by repeat split.
  - f_equal. apply IH. intros base ext (Heq & Hne & Hall).
    apply (Hno (String c base) ext). repeat split; try done.
    by rewrite app_cons, <- Heq.
Qed.

(** C5, as the code has it. When the name of the source file carries an
    extension (a final dot followed by one or more characters other than a
    dot and a slash), a successful conversion names its output by
    replacing that extension with [webp], whatever the quality: the output
    name carries the extension [webp].  A name without such an extension
    is kept as it is. *)
Theorem convertToWebP_output_name
    (codec : File.t → Number.number → Behaviour)
    (file : File.t) (quality : Z) (result : ConversionResult.t) :
  convertToWebP codec file quality = Resolved result →
  let out := File.name (ConversionResult.converted result) in
  (∀ base ext, has_extension (File.name file) base ext →
     out = base +:+ ".webp" ∧ has_extension out base "webp") ∧
  ((∀ base ext, ¬ has_extension (File.name file) base ext) →
     out = File.name file).
Proof.
  unfold convertToWebP. destruct (codec _ _); try discriminate.
  intros [= <-]. simpl. split.
  - intros base ext Hext.
    rewrite (replace_ext_extension _ base ext) by done. by repeat split.
  - apply replace_ext_plain.
Qed.

Lemma convertToWebP_output_name_witness :
  ∃ result,
    convertToWebP codec_400 picture 80 = Resolved result ∧
    File.name (ConversionResult.converted result) = "holiday.2024.webp".
Proof.
  eexists. split; [reflexivity|].
  apply (proj1 (convertToWebP_output_name codec_400 picture 80 _ eq_refl)
           "holiday.2024" "JPG").
  by repeat split.
Defined.

(** C5 as stated fails: a file named [photo] converts successfully, and the
    output is named [photo], which does not end with [.webp]. *)
Lemma extensionless_name_is_kept :
  ∃ result,
    convertToWebP codec_400 photo 95 = Resolved result ∧
    File.name (ConversionResult.converted result) = "photo" ∧
    Str.endsWith (File.name (ConversionResult.converted result)) ".webp" = false.
Proof. eexists. by repeat split. Qed.

End OutputName.

(** ** The unit table of the size formatter *)

Section SizeFormatter.

Lemma log2_k : Z.log2 k = 10.
Proof. reflexivity. Qed.

(** C8. The unit table serves the byte counts from 0 up to, and not
    including, 1024^4: these are shown with one of its four units.  From
    1024^4 on the computed index lies beyond the last entry of the table
    and the text ends with [undefined] in place of a unit. *)
Theorem formatFileSize_unit_range (bytes : Z) :
  0 ≤ bytes →
  if bytes <? 1024 ^ 4
  then ∃ num unit, unit ∈ sizes ∧ formatFileSize bytes = num +:+ " " +:+ unit
  else ∃ i num,
      unit_index bytes = Some i ∧ (length sizes ≤ i)%nat ∧
      sizes !! i = None ∧ formatFileSize bytes = num +:+ " undefined".
Proof.
  intros Hpos. destruct (bytes <? 1024 ^ 4) eqn:Hlt.
  - apply Z.ltb_lt in Hlt. unfold formatFileSize.
    destruct (bytes =? 0) eqn:H0.
    { exists "0", "Bytes". split; [apply list_elem_of_here | reflexivity]. }
    apply Z.eqb_neq in H0.
    assert (Hlog : Z.log2 bytes < 40) by (apply Z.log2_lt_pow2; lia).
    pose proof (Z.log2_nonneg bytes) as Hnn.
    unfold unit_index. replace (0 <? bytes) with true by (symmetry; apply Z.ltb_lt; lia).
    rewrite log2_k.
    assert (Hq : 0 ≤ Z.log2 bytes / 10 < 4)
      by (split; [apply Z.div_pos | apply Z.div_lt_upper_bound]; lia).
    assert (Hi : (Z.to_nat (Z.log2 bytes / 10) < 4)%nat) by lia.
    destruct (Z.to_nat (Z.log2 bytes / 10)) as [|[|[|[|i]]]] eqn:Hidx; try lia;
      eexists _, _; (split; [|reflexivity]); apply list_elem_of_In; simpl; tauto.
  - apply Z.ltb_ge in Hlt.
    assert (Hlog : 40 ≤ Z.log2 bytes).
    { change 40 with (Z.log2 (1024 ^ 4)). by apply Z.log2_le_mono. }
    unfold formatFileSize, unit_index.
    replace (bytes =? 0) with false by (symmetry; apply Z.eqb_neq; lia).
    replace (0 <? bytes) with true by (symmetry; apply Z.ltb_lt; lia).
    rewrite log2_k.
    assert (Hq : 4 ≤ Z.log2 bytes / 10)
      by (apply Z.div_le_lower_bound; lia).
    assert (Hi : (length sizes ≤ Z.to_nat (Z.log2 bytes / 10))%nat)
      by (simpl; lia).
    pose proof (lookup_ge_None_2 sizes _ Hi) as Hnone.
    eexists _, _. split; [reflexivity|]. split; [exact Hi|].
    split; [exact Hnone|]. unfold unit_name. rewrite Hnone. reflexivity.
Qed.

Lemma formatFileSize_unit_range_witness :
  ∃ i num,
    unit_index (1024 ^ 4) = Some i ∧ (length sizes ≤ i)%nat ∧
    sizes !! i = None ∧ formatFileSize (1024 ^ 4) = num +:+ " undefined".
Proof. apply (formatFileSize_unit_range (1024 ^ 4)). lia. Defined.

Example formatFileSize_0 : formatFileSize 0 = "0 Bytes".
Proof. reflexivity. Qed.

Example formatFileSize_1536 : formatFileSize 1536 = "1.5 KB".
Proof. reflexivity. Qed.

Example formatFileSize_below_1024_4 : formatFileSize (1024 ^ 4 - 1) = "1024 GB".
Proof. reflexivity. Qed.

Example formatFileSize_1024_4 : formatFileSize (1024 ^ 4) = "1 undefined".
Proof. reflexivity. Qed.

End SizeFormatter.

(** ** Binary64 facts behind the progress value *)

Section Floats.

Example toString_sum :
  Number.toString
    (Number.add (Number.div (Number.of_Z 1) (Number.of_Z 10))
                (Number.div (Number.of_Z 2) (Number.of_Z 10)))
  = "0.30000000000000004".
Proof. reflexivity. Qed.

Example toFixed_tie : Number.toFixed 2 (Number.parseFloat "1.005") = "1.00".
Proof. reflexivity. Qed.

Example ratio_negative : ratio 1000 1004 = "-0.4".
Proof. reflexivity. Qed.

Lemma digits2_size (p : positive) : digits2_pos p = Pos.size p.
Proof. induction p; simpl; congruence. Qed.

Lemma digits2_bound (p : positive) :
  Z.pos p < 2 ^ 53 → Z.pos (digits2_pos p) ≤ 53.
Proof.
  intros Hp. rewrite digits2_size.
  pose proof (Pos.size_le p) as Hle.
  apply Pos2Z.pos_le_pos in Hle. rewrite Pos2Z.inj_pow in Hle.
  assert (H : 2 ^ Z.pos (Pos.size p) < 2 ^ 54) by lia.
  apply Z.pow_lt_mono_r_iff in H; lia.
Qed.

Lemma digits2_iter (p k : positive) :
  digits2_pos (Pos.iter xO p k) = (digits2_pos p + k)%positive.
Proof.
  induction k as [|k IH] using Pos.peano_ind.
  - simpl. lia.
  - rewrite Pos.iter_succ. simpl. rewrite IH. lia.
Qed.

(** A mantissa of 53 bits with an exponent in range is kept as it is. *)
Lemma binary_round_aux_exact (s : bool) (m : positive) (e : Z) :
  Z.pos (digits2_pos m) = 53 → -1074 ≤ e ≤ 971 →
  binary_round_aux Number.prec Number.emax s (Z.pos m) e loc_Exact
  = S754_finite s m e.
Proof.
  intros Hd He.
  assert (Hf : fexp Number.prec Number.emax (Z.pos (digits2_pos m) + e) - e = 0).
  { rewrite Hd. unfold fexp, emin, Number.prec, Number.emax. lia. }
  unfold binary_round_aux, shr_fexp. simpl Zdigits2. rewrite Hf. simpl.
  rewrite Hf. simpl.
  destruct (e <=? Number.emax - Number.prec) eqn:Hle; [reflexivity|].
  apply Z.leb_gt in Hle. unfold Number.emax, Number.prec in Hle. lia.
Qed.

(** The positive integers below 2^53 are finite numbers. *)
Lemma of_Z_finite (n : Z) :
  0 < n < 2 ^ 53 → ∃ m e, Number.of_Z n = S754_finite false m e.
Proof.
  intros [Hpos Hlt]. destruct n as [|p|p]; try lia.
  pose proof (digits2_bound p Hlt) as Hd.
  unfold Number.of_Z, binary_normalize, binary_round, shl_align.
  destruct (fexp Number.prec Number.emax (Z.pos (digits2_pos p) + 0) - 0)
    as [|k|k] eqn:Hk;
    unfold fexp, emin, Number.prec, Number.emax in Hk.
  - eexists _, _. apply binary_round_aux_exact; lia.
  - lia.
  - replace (fexp Number.prec Number.emax (Z.pos (digits2_pos p) + 0))
      with (Z.neg k) by (unfold fexp, emin, Number.prec, Number.emax; lia).
    eexists _, _. apply binary_round_aux_exact; [rewrite digits2_iter|]; lia.
Qed.

(** A finite number divided by itself is exactly 1. *)
Lemma div_self (s : bool) (m : positive) (e : Z) :
  Number.div (S754_finite s m e) (S754_finite s m e) = Number.of_Z 1.
Proof.
  unfold Number.div, SFdiv, SFdiv_core_binary.
  rewrite !Z.sub_diag.
  change (Z.min (fexp Number.prec Number.emax 0) 0) with (-53).
  change (0 - -53) with 53.
  rewrite Z.shiftl_mul_pow2 by lia.
  destruct (Z.div_eucl (Z.pos m * 2 ^ 53) (Z.pos m)) as [q r] eqn:Hqr.
  assert (Hq : q = Z.pos m * 2 ^ 53 / Z.pos m)
    by (unfold Z.div; by rewrite Hqr).
  assert (Hr : r = (Z.pos m * 2 ^ 53) mod Z.pos m)
    by (unfold Z.modulo; by rewrite Hqr).
  rewrite (Z.mul_comm (Z.pos m)), Z.div_mul in Hq by lia.
  rewrite (Z.mul_comm (Z.pos m)), Z.mod_mul in Hr by lia.
  subst q r. rewrite xorb_nilpotent.
  unfold new_location. destruct (Z.even (Z.pos m)); reflexivity.
Qed.

(** [(n / n) * 100] is exactly 100. *)
Lemma percent_full (n : Z) :
  0 < n < 2 ^ 53 →
  Number.mul (Number.div (Number.of_Z n) (Number.of_Z n)) (Number.of_Z 100)
  = Number.of_Z 100.
Proof.
  intros Hn. destruct (of_Z_finite n Hn) as (m & e & ->).
  rewrite div_self. reflexivity.
Qed.

End Floats.

(** ** Rounding is monotone *)

Section Rounding.

Import Round.

Lemma rkey_shr_1 (r : shr_record) :
  0 ≤ shr_m r → rkey (shr_1 r) = halve (rkey r) ∧ 0 ≤ shr_m (shr_1 r).
Proof.
  destruct r as [m b s]. unfold rkey, halve. simpl. intros Hm.
  destruct m as [|p|p]; [| |lia].
  - destruct b, s; simpl; split; reflexivity || lia.
  - destruct p as [p|p|]; destruct b, s; cbn [shr_m shr_r shr_s orb];
      split; try lia;
      match goal with
      | |- context [(?a mod 4 =? 0)] => destruct (Z.eqb_spec (a mod 4) 0)
      end; Z.to_euclidean_division_equations; lia.
Qed.

Lemma halve_mono (a b : Z) : a ≤ b → halve a ≤ halve b.
Proof.
  intros H. unfold halve.
  destruct (Z.eqb_spec (a mod 4) 0), (Z.eqb_spec (b mod 4) 0);
    Z.to_euclidean_division_equations; lia.
Qed.

Lemma rne_mono (a b : Z) : a ≤ b → rne a ≤ rne b.
Proof.
  intros H. unfold rne.
  destruct (Z.leb_spec (a mod 4) 1), (Z.leb_spec (b mod 4) 1),
    (Z.eqb_spec (a mod 4) 2), (Z.eqb_spec (b mod 4) 2),
    (Z.even (a / 4)) eqn:Ea, (Z.even (b / 4)) eqn:Eb;
    try (Z.to_euclidean_division_equations; lia).
  all: assert (Hq : a / 4 = b / 4 ∨ a / 4 < b / 4)
         by (Z.to_euclidean_division_equations; lia).
  all: destruct Hq as [Heq | Hlt]; [rewrite Heq in Ea; congruence|lia].
Qed.

Lemma iter_pos_nat {A} (f : A → A) (p : positive) (x : A) :
  SpecFloat.iter_pos f p x = Nat.iter (Pos.to_nat p) f x.
Proof.
  revert x. induction p as [p IH|p IH|]; intros x; simpl SpecFloat.iter_pos.
  - rewrite !IH, Pos2Nat.inj_xI, <- Nat.iter_add.
    replace (Pos.to_nat p + Pos.to_nat p)%nat with (2 * Pos.to_nat p)%nat by lia.
    by rewrite <- Nat.iter_succ_r.
  - rewrite !IH, Pos2Nat.inj_xO, <- Nat.iter_add. f_equal. lia.
  - reflexivity.
Qed.

Lemma shr_nat (r : shr_record) (e n : Z) :
  0 ≤ n → shr r e n = (Nat.iter (Z.to_nat n) shr_1 r, e + n).
Proof.
  intros Hn. destruct n as [|p|p]; [| |lia].
  - simpl. by rewrite Z.add_0_r.
  - simpl shr. by rewrite iter_pos_nat.
Qed.

Lemma rkey_of_loc (m : Z) (l : location) :
  rkey (shr_record_of_loc m l) = key m l.
Proof. destruct l as [|[]]; unfold rkey, key; simpl; lia. Qed.

Lemma rkey_iter (j : nat) (r : shr_record) :
  0 ≤ shr_m r →
  rkey (Nat.iter j shr_1 r) = Nat.iter j halve (rkey r) ∧
  0 ≤ shr_m (Nat.iter j shr_1 r).
Proof.
  intros Hr. induction j as [|j [IH1 IH2]]; [done|]. simpl.
  destruct (rkey_shr_1 _ IH2) as [-> ?]. by rewrite IH1.
Qed.

Lemma rne_round (r : shr_record) :
  0 ≤ shr_m r →
  round_nearest_even (shr_m r) (loc_of_shr_record r) = rne (rkey r).
Proof.
  destruct r as [m b s]. unfold rkey, rne. simpl. intros Hm.
  assert (Hq : ∀ c, 0 ≤ c < 4 → (4 * m + c) / 4 = m ∧ (4 * m + c) mod 4 = c)
    by (intros c Hc; Z.to_euclidean_division_equations; lia).
  destruct b, s; simpl.
  - destruct (Hq 3 ltac:(lia)) as [H1 H2].
    replace (4 * m + 2 + 1) with (4 * m + 3) by lia. by rewrite H1, H2.
  - destruct (Hq 2 ltac:(lia)) as [H1 H2].
    replace (4 * m + 2 + 0) with (4 * m + 2) by lia. by rewrite H1, H2.
  - destruct (Hq 1 ltac:(lia)) as [H1 H2].
    replace (4 * m + 0 + 1) with (4 * m + 1) by lia. by rewrite H1, H2.
  - destruct (Hq 0 ltac:(lia)) as [H1 H2].
    replace (4 * m + 0 + 0) with (4 * m + 0) by lia. by rewrite H1, H2.
Qed.

Lemma halve_div4 (K : Z) : halve K / 4 = K / 4 / 2.
Proof.
  unfold halve. destruct (Z.eqb_spec (K mod 4) 0);
    Z.to_euclidean_division_equations; lia.
Qed.

Lemma iter_halve_div4 (j : nat) (K : Z) :
  Nat.iter j halve K / 4 = K / 4 / 2 ^ Z.of_nat j.
Proof.
  induction j as [|j IH].
  - simpl. by rewrite Z.div_1_r.
  - rewrite Nat2Z.inj_succ, Z.pow_succ_r by lia. simpl.
    rewrite halve_div4, IH, Z.div_div by lia. f_equal. lia.
Qed.

Lemma iter_halve_mono (j : nat) (a b : Z) :
  a ≤ b → Nat.iter j halve a ≤ Nat.iter j halve b.
Proof. intros H. induction j; simpl; [done | by apply halve_mono]. Qed.

Lemma rne_bounds (K : Z) : K / 4 ≤ rne K ≤ K / 4 + 1.
Proof.
  unfold rne. destruct (K mod 4 <=? 1), (K mod 4 =? 2), (Z.even (K / 4)); lia.
Qed.

Lemma digits2_log2 (p : positive) :
  Z.pos (digits2_pos p) = Z.log2 (Z.pos p) + 1.
Proof.
  induction p as [p IH|p IH|]; simpl digits2_pos; [| |reflexivity].
  - rewrite Pos2Z.inj_succ, IH. 
    change (Z.pos p~1) with (2 * Z.pos p + 1). rewrite Z.log2_succ_double; lia.
  - rewrite Pos2Z.inj_succ, IH.
    change (Z.pos p~0) with (2 * Z.pos p). rewrite Z.log2_double; lia.
Qed.

Lemma key_div4 (m : Z) (l : location) : key m l / 4 = m.
Proof.
  unfold key. destruct l as [|[]]; simpl; Z.to_euclidean_division_equations; lia.
Qed.

Lemma fexp_normal (x : Z) :
  -1074 ≤ x - 53 → fexp Number.prec Number.emax x = x - 53.
Proof. unfold fexp, emin, Number.prec, Number.emax. lia. Qed.

Lemma rounded_mantissa (K : Z) :
  52 ≤ Z.log2 (K / 4) →
  let M0 := rne (Nat.iter (Z.to_nat (Z.log2 (K / 4) - 52)) halve K) in
  2 ^ 52 ≤ M0 ≤ 2 ^ 53.
Proof.
  intros Hlog M0. subst M0.
  set (sc := Z.log2 (K / 4) - 52).
  pose proof (rne_bounds (Nat.iter (Z.to_nat sc) halve K)) as Hb.
  rewrite iter_halve_div4, Z2Nat.id in Hb by lia.
  assert (Hpos : 0 < K / 4).
  { destruct (Z.le_gt_cases (K / 4) 0) as [Hle|]; [|lia].
    rewrite (Z.log2_nonpos _ Hle) in Hlog. lia. }
  pose proof (Z.log2_spec (K / 4) Hpos) as [Hlo Hhi].
  assert (H1 : 2 ^ 52 ≤ K / 4 / 2 ^ sc).
  { apply Z.div_le_lower_bound; [lia|].
    rewrite <- Z.pow_add_r by lia. replace (sc + 52) with (Z.log2 (K / 4)) by lia.
    exact Hlo. }
  assert (H2 : K / 4 / 2 ^ sc < 2 ^ 53).
  { apply Z.div_lt_upper_bound; [lia|].
    rewrite <- Z.pow_add_r by lia.
    replace (sc + 53) with (Z.succ (Z.log2 (K / 4))) by lia. exact Hhi. }
  lia.
Qed.

Lemma binary_round_aux_rounded (m : positive) (e : Z) (l : location) :
  52 ≤ Z.log2 (Z.pos m) → -1074 ≤ e → e + (Z.log2 (Z.pos m) - 52) + 1 ≤ 971 →
  binary_round_aux Number.prec Number.emax false (Z.pos m) e l
  = finite (rounded (key (Z.pos m) l) e).
Proof.
  intros Hlog He Hmax.
  pose proof (rounded_mantissa (key (Z.pos m) l)) as HM.
  unfold rounded. rewrite key_div4 in *. specialize (HM Hlog). cbv zeta in HM.
  set (sc := Z.log2 (Z.pos m) - 52) in *.
  set (K1 := Nat.iter (Z.to_nat sc) halve (key (Z.pos m) l)) in *.
  unfold binary_round_aux.
  (* first shift *)
  assert (H1 : shr_fexp Number.prec Number.emax (Z.pos m) e l
               = (Nat.iter (Z.to_nat sc) shr_1
                    (shr_record_of_loc (Z.pos m) l), e + sc)).
  { unfold shr_fexp. simpl Zdigits2. rewrite digits2_log2.
    rewrite fexp_normal by lia.
    replace (Z.log2 (Z.pos m) + 1 + e - 53 - e) with sc by lia.
    apply shr_nat. lia. }
  rewrite H1.
  assert (Hm0 : 0 ≤ shr_m (shr_record_of_loc (Z.pos m) l))
    by (destruct l as [|[]]; simpl; lia).
  destruct (rkey_iter (Z.to_nat sc) _ Hm0) as [Hk Hnn].
  rewrite rkey_of_loc in Hk. fold K1 in Hk.
  rewrite (rne_round _ Hnn), Hk.
  (* second shift *)
  destruct (Z.eqb_spec (rne K1) (2 ^ 53)) as [Heq | Hne].
  - rewrite Heq. unfold shr_fexp. 
    change (Zdigits2 (2 ^ 53)) with 54. rewrite fexp_normal by lia.
    replace (54 + (e + sc) - 53 - (e + sc)) with 1 by lia.
    unfold finite. simpl.
    destruct (e + sc + 1 <=? Number.emax - Number.prec) eqn:Hle; [reflexivity|].
    apply Z.leb_gt in Hle. unfold Number.emax, Number.prec in Hle. lia.
  - destruct (rne K1) as [|q|q] eqn:Hq; [lia| |lia].
    assert (Hlq : Z.log2 (Z.pos q) = 52).
    { apply Z.log2_unique; lia. }
    unfold shr_fexp. simpl Zdigits2. rewrite digits2_log2, Hlq.
    rewrite fexp_normal by lia.
    replace (52 + 1 + (e + sc) - 53 - (e + sc)) with 0 by lia.
    unfold finite. simpl.
    destruct (e + sc <=? Number.emax - Number.prec) eqn:Hle; [reflexivity|].
    apply Z.leb_gt in Hle. unfold Number.emax, Number.prec in Hle. lia.
Qed.

Lemma iter_halve_log2 (j : nat) (K K' : Z) :
  52 ≤ Z.log2 (K / 4) → 52 ≤ Z.log2 (K' / 4) →
  Nat.iter j halve K ≤ K' →
  Z.log2 (K / 4) - Z.of_nat j ≤ Z.log2 (K' / 4).
Proof.
  intros HK HK' Hle.
  assert (H4 : Nat.iter j halve K / 4 ≤ K' / 4) by (apply Z.div_le_mono; lia).
  rewrite iter_halve_div4 in H4.
  destruct (Z.le_gt_cases (Z.log2 (K / 4)) (Z.of_nat j)) as [Hsmall | Hbig];
    [lia|].
  assert (Hpos : 0 < K / 4).
  { destruct (Z.le_gt_cases (K / 4) 0) as [Hle0|]; [|lia].
    rewrite (Z.log2_nonpos _ Hle0) in HK. lia. }
  pose proof (Z.log2_spec (K / 4) Hpos) as [Hlo _].
  assert (H1 : 2 ^ (Z.log2 (K / 4) - Z.of_nat j) ≤ K / 4 / 2 ^ Z.of_nat j).
  { apply Z.div_le_lower_bound; [lia|].
    rewrite <- Z.pow_add_r by lia.
    replace (Z.of_nat j + (Z.log2 (K / 4) - Z.of_nat j))
      with (Z.log2 (K / 4)) by lia. exact Hlo. }
  apply Z.log2_le_pow2; lia.
Qed.

Lemma rounded_mono (K K' e e' : Z) :
  52 ≤ Z.log2 (K / 4) → 52 ≤ Z.log2 (K' / 4) → e ≤ e' →
  Nat.iter (Z.to_nat (e' - e)) halve K ≤ K' →
  lexle (rounded K e) (rounded K' e').
Proof.
  intros HK HK' He Hle.
  pose proof (iter_halve_log2 _ _ _ HK HK' Hle) as Hlog.
  rewrite Z2Nat.id in Hlog by lia.
  pose proof (rounded_mantissa K HK) as HM. cbv zeta in HM.
  pose proof (rounded_mantissa K' HK') as HM'. cbv zeta in HM'.
  unfold rounded, lexle.
  set (sc := Z.log2 (K / 4) - 52) in *.
  set (sc' := Z.log2 (K' / 4) - 52) in *.
  set (M0 := rne (Nat.iter (Z.to_nat sc) halve K)) in *.
  set (M0' := rne (Nat.iter (Z.to_nat sc') halve K')) in *.
  destruct (Z.lt_total (e + sc) (e' + sc')) as [Hlt | [Heq | Hgt]]; [| |lia].
  - destruct (Z.eqb_spec M0 (2 ^ 53)), (Z.eqb_spec M0' (2 ^ 53)); simpl; lia.
  - assert (Hmono : M0 ≤ M0').
    { subst M0 M0'. apply rne_mono.
      replace (Z.to_nat sc) with (Z.to_nat sc' + Z.to_nat (e' - e))%nat by lia.
      rewrite Nat.iter_add. by apply iter_halve_mono. }
    destruct (Z.eqb_spec M0 (2 ^ 53)), (Z.eqb_spec M0' (2 ^ 53)); simpl; lia.
Qed.

Lemma finite_leb (a b : Z * Z) :
  0 < fst a → 0 < fst b → lexle a b → SFleb (finite a) (finite b) = true.
Proof.
  destruct a as [M E], b as [M' E']. unfold lexle, finite, SFleb, SFcompare.
  simpl. intros HM HM' [Hlt | [-> Hle]].
  - apply Z.compare_lt_iff in Hlt. by rewrite Hlt.
  - rewrite Z.compare_refl, Pos.compare_cont_spec. simpl.
    destruct (Pos.compare_spec (Z.to_pos M) (Z.to_pos M')) as [| |Hgt];
      try reflexivity.
    apply Pos2Z.pos_lt_pos in Hgt. rewrite !Z2Pos.id in Hgt by lia. lia.
Qed.

Lemma kdiv_mono (N N' D : Z) : 0 < D → N ≤ N' → kdiv N D ≤ kdiv N' D.
Proof.
  intros HD HN. unfold kdiv.
  destruct (Z.eqb_spec (N mod D) 0), (Z.eqb_spec (N' mod D) 0),
    (Z.compare_spec (2 * (N mod D)) D), (Z.compare_spec (2 * (N' mod D)) D);
    Z.to_euclidean_division_equations; nia.
Qed.

Lemma kdiv_double (N D : Z) : 0 < D → halve (kdiv N D) = kdiv N (2 * D).
Proof.
  intros HD. unfold kdiv, halve.
  set (c := if N mod D =? 0 then 0
            else match 2 * (N mod D) ?= D with Lt => 1 | Eq => 2 | Gt => 3 end).
  assert (Hc : 0 ≤ c < 4 ∧ (c = 0 ↔ N mod D = 0)).
  { subst c. destruct (Z.eqb_spec (N mod D) 0);
      [lia | destruct (2 * (N mod D) ?= D); lia]. }
  destruct Hc as [Hc Hc0].
  assert (H1 : (4 * (N / D) + c) / 4 = N / D)
    by (Z.to_euclidean_division_equations; lia).
  assert (H2 : (4 * (N / D) + c) mod 4 = c)
    by (Z.to_euclidean_division_equations; lia).
  rewrite H1, H2.
  assert (Hq : N / (2 * D) = N / D / 2)
    by (rewrite (Z.mul_comm 2), Z.div_div by lia; reflexivity).
  assert (Hr : N mod (2 * D) = D * (N / D mod 2) + N mod D).
  { rewrite (Z.mul_comm 2), Z.rem_mul_r by lia. lia. }
  rewrite Hq, Hr.
  assert (Hmod : 0 ≤ N mod D < D) by (apply Z.mod_pos_bound; lia).
  assert (Hbit : N / D mod 2 = 0 ∨ N / D mod 2 = 1)
    by (Z.to_euclidean_division_equations; lia).
  destruct (Z.eqb_spec c 0) as [Hz | Hnz].
  - assert (N mod D = 0) by tauto.
    destruct Hbit as [Hb | Hb]; rewrite Hb.
    + replace (D * 0 + N mod D) with 0 by lia. simpl.
      Z.to_euclidean_division_equations; lia.
    + replace (D * 1 + N mod D) with D by lia.
      destruct (Z.eqb_spec D 0); [lia|].
      replace (2 * D ?= 2 * D) with Eq by (symmetry; apply Z.compare_refl).
      Z.to_euclidean_division_equations; lia.
  - assert (N mod D ≠ 0) by tauto.
    destruct Hbit as [Hb | Hb]; rewrite Hb.
    + replace (D * 0 + N mod D) with (N mod D) by lia.
      destruct (Z.eqb_spec (N mod D) 0); [lia|].
      replace (2 * (N mod D) ?= 2 * D) with Lt
        by (symmetry; apply Z.compare_lt_iff; lia).
      Z.to_euclidean_division_equations; lia.
    + destruct (Z.eqb_spec (D * 1 + N mod D) 0); [lia|].
      replace (2 * (D * 1 + N mod D) ?= 2 * D) with Gt
        by (symmetry; apply Z.compare_gt_iff; lia).
      Z.to_euclidean_division_equations; lia.
Qed.

Lemma kdiv_shift (j : nat) (N D : Z) :
  0 < D → Nat.iter j halve (kdiv N D) = kdiv N (D * 2 ^ Z.of_nat j).
Proof.
  intros HD. induction j as [|j IH].
  - simpl. by rewrite Z.mul_1_r.
  - rewrite Nat2Z.inj_succ, Z.pow_succ_r by lia. simpl. rewrite IH.
    rewrite kdiv_double by lia. f_equal. lia.
Qed.

Lemma kdiv_scale (c N D : Z) : 0 < c → 0 < D → kdiv (c * N) (c * D) = kdiv N D.
Proof.
  intros Hc HD. unfold kdiv.
  rewrite Z.div_mul_cancel_l, Z.mul_mod_distr_l by lia.
  destruct (Z.eqb_spec (c * (N mod D)) 0), (Z.eqb_spec (N mod D) 0); try nia.
  f_equal.
  destruct (Z.compare_spec (2 * (c * (N mod D))) (c * D)),
    (Z.compare_spec (2 * (N mod D)) D); try reflexivity; nia.
Qed.

Lemma iter_xO (p k : positive) :
  Z.pos (Pos.iter xO p k) = Z.pos p * 2 ^ Z.pos k.
Proof.
  induction k as [|k IH] using Pos.peano_ind.
  - simpl. lia.
  - rewrite Pos.iter_succ, Pos2Z.inj_xO, IH, Pos2Z.inj_succ, Z.pow_succ_r; lia.
Qed.

Lemma log2_52 (m : Z) : Z.log2 m = 52 → 2 ^ 52 ≤ m < 2 ^ 53.
Proof.
  intros H. assert (Hpos : 0 < m).
  { destruct (Z.le_gt_cases m 0) as [Hle|]; [|lia].
    rewrite (Z.log2_nonpos _ Hle) in H. lia. }
  pose proof (Z.log2_spec m Hpos) as Hs. rewrite H in Hs. exact Hs.
Qed.

(** The integers from 1 to 2^53 - 1 as numbers. *)
Lemma of_Z_canonical (a : Z) :
  0 < a < 2 ^ 53 →
  ∃ m, Number.of_Z a = S754_finite false m (Z.log2 a - 52) ∧
       Z.pos m = a * 2 ^ (52 - Z.log2 a) ∧ Z.log2 (Z.pos m) = 52.
Proof.
  intros [Hpos Hlt]. destruct a as [|p|p]; try lia.
  pose proof (digits2_bound p Hlt) as Hd.
  pose proof (digits2_log2 p) as Hl.
  pose proof (Z.log2_spec (Z.pos p) Hpos) as [Hlo Hhi].
  unfold Number.of_Z, binary_normalize, binary_round, shl_align.
  destruct (fexp Number.prec Number.emax (Z.pos (digits2_pos p) + 0) - 0)
    as [|k|k] eqn:Hk;
    unfold fexp, emin, Number.prec, Number.emax in Hk.
  - exists p. replace (Z.log2 (Z.pos p) - 52) with 0 by lia.
    split; [apply binary_round_aux_exact; lia|].
    replace (52 - Z.log2 (Z.pos p)) with 0 by lia. split; lia.
  - lia.
  - replace (fexp Number.prec Number.emax (Z.pos (digits2_pos p) + 0))
      with (Z.neg k) by (unfold fexp, emin, Number.prec, Number.emax; lia).
    exists (Pos.iter xO p k).
    replace (Z.log2 (Z.pos p) - 52) with (Z.neg k) by lia.
    split; [apply binary_round_aux_exact; [rewrite digits2_iter|]; lia|].
    rewrite iter_xO. replace (52 - Z.log2 (Z.pos p)) with (Z.pos k) by lia.
    split; [reflexivity|].
    replace (Z.pos k) with (52 - Z.log2 (Z.pos p)) by lia.
    set (la := Z.log2 (Z.pos p)) in *.
    assert (Hp1 : 2 ^ la * 2 ^ (52 - la) = 2 ^ 52)
      by (rewrite <- Z.pow_add_r by lia; f_equal; lia).
    assert (Hp2 : 2 ^ Z.succ la * 2 ^ (52 - la) = 2 ^ 53)
      by (rewrite <- Z.pow_add_r by lia; f_equal; lia).
    assert (Hpw : 0 < 2 ^ (52 - la)) by (apply Z.pow_pos_nonneg; lia).
    apply Z.log2_unique; [lia|]. change (2 ^ (52 + 1)) with (2 ^ 53).
    split; nia.
Qed.

Lemma new_location_code (D r : Z) :
  0 < D → 0 ≤ r < D →
  code (new_location D r)
  = if r =? 0 then 0
    else match 2 * r ?= D with Lt => 1 | Eq => 2 | Gt => 3 end.
Proof.
  intros HD Hr. unfold new_location, new_location_even, new_location_odd.
  destruct (Z.even D) eqn:Hev; destruct (Z.eqb_spec r 0); try reflexivity.
  assert (Hodd : Z.odd D = true) by (rewrite <- Z.negb_even, Hev; done).
  apply Z.odd_spec in Hodd as [h Hh].
  destruct (Z.compare_spec (2 * r + 1) D), (Z.compare_spec (2 * r) D);
    simpl; try reflexivity; lia.
Qed.

Lemma div_rounded (m1 m2 : positive) (e1 e2 : Z) :
  Z.log2 (Z.pos m1) = 52 → Z.log2 (Z.pos m2) = 52 →
  -400 ≤ e1 ≤ 400 → -400 ≤ e2 ≤ 400 →
  Number.div (S754_finite false m1 e1) (S754_finite false m2 e2)
  = finite (rounded (kdiv (Z.pos m1 * 2 ^ 53) (Z.pos m2)) (e1 - e2 - 53)).
Proof.
  intros H1 H2 He1 He2.
  pose proof (log2_52 _ H1) as B1. pose proof (log2_52 _ H2) as B2.
  unfold Number.div, SFdiv, SFdiv_core_binary. simpl Zdigits2.
  rewrite !digits2_log2, H1, H2. cbv zeta.
  rewrite fexp_normal by lia.
  replace (Z.min (52 + 1 + e1 - (52 + 1 + e2) - 53) (e1 - e2))
    with (e1 - e2 - 53) by lia.
  replace (e1 - e2 - (e1 - e2 - 53)) with 53 by lia. cbn iota.
  rewrite Z.shiftl_mul_pow2 by lia.
  destruct (Z.div_eucl (Z.pos m1 * 2 ^ 53) (Z.pos m2)) as [q r] eqn:Hqr.
  assert (Hq : q = Z.pos m1 * 2 ^ 53 / Z.pos m2)
    by (unfold Z.div; by rewrite Hqr).
  assert (Hr : r = (Z.pos m1 * 2 ^ 53) mod Z.pos m2)
    by (unfold Z.modulo; by rewrite Hqr).
  assert (Hlo : 2 ^ 52 ≤ q) by (subst q; apply Z.div_le_lower_bound; nia).
  assert (Hhi : q < 2 ^ 54) by (subst q; apply Z.div_lt_upper_bound; nia).
  assert (Hrb : 0 ≤ r < Z.pos m2) by (subst r; apply Z.mod_pos_bound; lia).
  destruct q as [|q|q]; [lia| |lia].
  assert (Hlq : 52 ≤ Z.log2 (Z.pos q) < 54).
  { split; [apply Z.log2_le_pow2; lia | apply Z.log2_lt_pow2; lia]. }
  simpl xorb. rewrite binary_round_aux_rounded by lia.
  f_equal. f_equal. unfold key, kdiv.
  rewrite new_location_code by lia. by rewrite <- Hq, <- Hr.
Qed.

Lemma mul_rounded (m1 m2 : positive) (e1 e2 : Z) :
  Z.log2 (Z.pos m1) = 52 → Z.log2 (Z.pos m2) = 52 →
  -400 ≤ e1 ≤ 400 → -400 ≤ e2 ≤ 400 →
  Number.mul (S754_finite false m1 e1) (S754_finite false m2 e2)
  = finite (rounded (4 * (Z.pos m1 * Z.pos m2)) (e1 + e2)).
Proof.
  intros H1 H2 He1 He2.
  pose proof (log2_52 _ H1) as B1. pose proof (log2_52 _ H2) as B2.
  unfold Number.mul, SFmul. simpl xorb.
  assert (Hl : 104 ≤ Z.log2 (Z.pos (m1 * m2)) < 106).
  { rewrite Pos2Z.inj_mul.
    split; [apply Z.log2_le_pow2; nia | apply Z.log2_lt_pow2; nia]. }
  rewrite binary_round_aux_rounded by lia. reflexivity.
Qed.

Lemma rounded_shape (K e : Z) :
  52 ≤ Z.log2 (K / 4) →
  Z.log2 (fst (rounded K e)) = 52 ∧
  e + (Z.log2 (K / 4) - 52) ≤ snd (rounded K e)
    ≤ e + (Z.log2 (K / 4) - 52) + 1.
Proof.
  intros HK. pose proof (rounded_mantissa K HK) as HM. cbv zeta in HM.
  unfold rounded.
  destruct (Z.eqb_spec (rne (Nat.iter (Z.to_nat (Z.log2 (K / 4) - 52)) halve K))
              (2 ^ 53)); simpl; (split; [|lia]).
  - reflexivity.
  - apply Z.log2_unique; lia.
Qed.

Lemma kdiv_one (P : Z) : kdiv P 1 = 4 * P.
Proof. unfold kdiv. rewrite Z.div_1_r, Z.mod_1_r. simpl. lia. Qed.

(** The quotient of two integers below 2^53, as a rounded key. *)
Lemma div_of_Z (a n : Z) :
  0 < a < 2 ^ 53 → 0 < n < 2 ^ 53 →
  ∃ ma mn, Z.pos ma = a * 2 ^ (52 - Z.log2 a) ∧ Z.log2 (Z.pos ma) = 52 ∧
           Z.pos mn = n * 2 ^ (52 - Z.log2 n) ∧ Z.log2 (Z.pos mn) = 52 ∧
    Number.div (Number.of_Z a) (Number.of_Z n)
    = finite (rounded (kdiv (Z.pos ma * 2 ^ 53) (Z.pos mn))
                (Z.log2 a - Z.log2 n - 53)).
Proof.
  intros Ha Hn.
  destruct (of_Z_canonical a Ha) as (ma & -> & Hma & Hla).
  destruct (of_Z_canonical n Hn) as (mn & -> & Hmn & Hln).
  exists ma, mn. repeat (split; [done|]).
  assert (0 ≤ Z.log2 a < 53) by (split; [apply Z.log2_nonneg | apply Z.log2_lt_pow2; lia]).
  assert (0 ≤ Z.log2 n < 53) by (split; [apply Z.log2_nonneg | apply Z.log2_lt_pow2; lia]).
  rewrite div_rounded by lia. do 2 f_equal. lia.
Qed.

Lemma log2_quotient_key (ma mn : Z) :
  Z.log2 ma = 52 → Z.log2 mn = 52 →
  52 ≤ Z.log2 (kdiv (ma * 2 ^ 53) mn / 4) ≤ 53.
Proof.
  intros H1%log2_52 H2%log2_52.
  assert (Hq : kdiv (ma * 2 ^ 53) mn / 4 = ma * 2 ^ 53 / mn).
  { unfold kdiv. destruct (_ =? 0); [|destruct (_ ?= _)];
      Z.to_euclidean_division_equations; lia. }
  rewrite Hq.
  assert (2 ^ 52 ≤ ma * 2 ^ 53 / mn) by (apply Z.div_le_lower_bound; nia).
  assert (ma * 2 ^ 53 / mn < 2 ^ 54) by (apply Z.div_lt_upper_bound; nia).
  split; [apply Z.log2_le_pow2; lia|].
  assert (Z.log2 (ma * 2 ^ 53 / mn) < 54) by (apply Z.log2_lt_pow2; lia). lia.
Qed.

Lemma div_of_Z_mono (a b n : Z) :
  0 < a → a ≤ b → b < 2 ^ 53 → 0 < n < 2 ^ 53 →
  ∃ A B, Number.div (Number.of_Z a) (Number.of_Z n) = finite A ∧
         Number.div (Number.of_Z b) (Number.of_Z n) = finite B ∧
         lexle A B ∧ Z.log2 (fst A) = 52 ∧ Z.log2 (fst B) = 52 ∧
         -200 ≤ snd A ≤ 200 ∧ -200 ≤ snd B ≤ 200.
Proof.
  intros Ha Hab Hb Hn.
  destruct (div_of_Z a n) as (ma & mn & Hma & Hla & Hmn & Hln & ->); [lia..|].
  destruct (div_of_Z b n) as (mb & mn' & Hmb & Hlb & Hmn' & _ & ->); [lia..|].
  assert (mn' = mn) by lia. subst mn'.
  assert (Hlog : 0 ≤ Z.log2 a ≤ Z.log2 b ∧ Z.log2 b < 53 ∧ 0 ≤ Z.log2 n < 53).
  { repeat split; try apply Z.log2_nonneg;
      [apply Z.log2_le_mono | apply Z.log2_lt_pow2 | apply Z.log2_lt_pow2]; lia. }
  pose proof (log2_quotient_key _ _ Hla Hln) as HKa.
  pose proof (log2_quotient_key _ _ Hlb Hln) as HKb.
  eexists _, _. split; [reflexivity|]. split; [reflexivity|].
  destruct (rounded_shape (kdiv (Z.pos ma * 2 ^ 53) (Z.pos mn))
              (Z.log2 a - Z.log2 n - 53)) as [Hs1 Hs2]; [lia|].
  destruct (rounded_shape (kdiv (Z.pos mb * 2 ^ 53) (Z.pos mn))
              (Z.log2 b - Z.log2 n - 53)) as [Hs3 Hs4]; [lia|].
  split; [|repeat split; lia].
  apply rounded_mono; [lia..|].
  replace (Z.log2 b - Z.log2 n - 53 - (Z.log2 a - Z.log2 n - 53))
    with (Z.log2 b - Z.log2 a) by lia.
  rewrite kdiv_shift, Z2Nat.id by lia.
  set (j := Z.log2 b - Z.log2 a).
  assert (Hj : 0 < 2 ^ j) by (apply Z.pow_pos_nonneg; lia).
  rewrite <- (kdiv_scale (2 ^ j) (Z.pos mb * 2 ^ 53) (Z.pos mn)) by lia.
  rewrite (Z.mul_comm (2 ^ j) (Z.pos mn)).
  apply kdiv_mono; [lia|].
  assert (Hm : Z.pos ma ≤ 2 ^ j * Z.pos mb).
  { rewrite Hma, Hmb.
    replace (2 ^ j * (b * 2 ^ (52 - Z.log2 b)))
      with (b * (2 ^ j * 2 ^ (52 - Z.log2 b))) by lia.
    rewrite <- Z.pow_add_r by lia.
    replace (j + (52 - Z.log2 b)) with (52 - Z.log2 a) by lia.
    apply Z.mul_le_mono_nonneg_r; [apply Z.pow_nonneg|]; lia. }
  nia.
Qed.

Lemma times_100 (A : Z * Z) :
  Z.log2 (fst A) = 52 → -200 ≤ snd A ≤ 200 →
  Number.mul (finite A) (Number.of_Z 100)
  = finite (rounded (4 * (fst A * 7036874417766400)) (snd A - 46)).
Proof.
  destruct A as [M E]. cbn [fst snd]. intros HM HE.
  pose proof (log2_52 _ HM) as BM.
  change (Number.of_Z 100) with (S754_finite false 7036874417766400 (-46)).
  unfold finite at 1. cbn [fst snd].
  rewrite mul_rounded; try lia; [|by rewrite Z2Pos.id by lia|reflexivity].
  rewrite Z2Pos.id by lia. reflexivity.
Qed.

Lemma times_100_mono (A B : Z * Z) :
  Z.log2 (fst A) = 52 → Z.log2 (fst B) = 52 → lexle A B →
  lexle (rounded (4 * (fst A * 7036874417766400)) (snd A - 46))
        (rounded (4 * (fst B * 7036874417766400)) (snd B - 46)).
Proof.
  destruct A as [Ma Ea], B as [Mb Eb]. cbn [fst snd]. intros Hla Hlb Hle.
  pose proof (log2_52 _ Hla) as Ba. pose proof (log2_52 _ Hlb) as Bb.
  assert (Hq : ∀ M, 4 * (M * 7036874417766400) / 4 = M * 7036874417766400)
    by (intros; Z.to_euclidean_division_equations; lia).
  assert (Hl : ∀ M, 2 ^ 52 ≤ M < 2 ^ 53 →
                    52 ≤ Z.log2 (4 * (M * 7036874417766400) / 4)).
  { intros M HM. rewrite Hq. apply Z.log2_le_pow2; lia. }
  assert (HEle : Ea ≤ Eb) by (destruct Hle as [|[]]; cbn [fst snd] in *; lia).
  apply rounded_mono; [by apply Hl | by apply Hl | lia |].
  replace (Eb - 46 - (Ea - 46)) with (Eb - Ea) by lia.
  rewrite <- !kdiv_one, kdiv_shift, Z2Nat.id, Z.mul_1_l by lia.
  set (j := Eb - Ea).
  assert (Hj : 0 < 2 ^ j) by (apply Z.pow_pos_nonneg; lia).
  rewrite <- (kdiv_scale (2 ^ j) (Mb * 7036874417766400) 1) by lia.
  rewrite Z.mul_1_r. apply kdiv_mono; [lia|].
  destruct Hle as [Hlt | [Heq Hm]]; cbn [fst snd] in *.
  - assert (2 ≤ 2 ^ j).
    { change 2 with (2 ^ 1) at 1. apply Z.pow_le_mono_r; lia. }
    nia.
  - replace j with 0 by lia. simpl. nia.
Qed.

(** [(i / n) * 100] grows with [i]. *)
Lemma percent_mono (a b n : Z) :
  0 < a → a ≤ b → b < 2 ^ 53 → 0 < n < 2 ^ 53 →
  Number.leb (percent a n) (percent b n) = true.
Proof.
  intros Ha Hab Hb Hn. unfold percent, Number.leb.
  destruct (div_of_Z_mono a b n Ha Hab Hb Hn)
    as (A & B & -> & -> & Hle & Hla & Hlb & HEa & HEb).
  rewrite !times_100 by done.
  assert (Hl : ∀ M, Z.log2 M = 52 →
                    52 ≤ Z.log2 (4 * (M * 7036874417766400) / 4)).
  { intros M HM%log2_52.
    replace (4 * (M * 7036874417766400) / 4) with (M * 7036874417766400)
      by (Z.to_euclidean_division_equations; lia).
    apply Z.log2_le_pow2; lia. }
  destruct (rounded_shape _ (snd A - 46) (Hl _ Hla)) as [Ha'%log2_52 _].
  destruct (rounded_shape _ (snd B - 46) (Hl _ Hlb)) as [Hb'%log2_52 _].
  apply finite_leb; [lia | lia | by apply times_100_mono].
Qed.

Lemma percent_nonneg (a n : Z) :
  0 < a < 2 ^ 53 → 0 < n < 2 ^ 53 →
  Number.leb (Number.of_Z 0) (percent a n) = true.
Proof.
  intros Ha Hn. unfold percent.
  destruct (div_of_Z_mono a a n) as (A & _ & -> & _ & _ & Hla & _ & HEa & _);
    [lia..|].
  by rewrite times_100.
Qed.

(** A proper fraction of integers below 2^53 is rounded below 1. *)
Lemma div_of_Z_below_1 (a n : Z) :
  0 < a → a < n → n < 2 ^ 53 →
  ∃ A, Number.div (Number.of_Z a) (Number.of_Z n) = finite A ∧
       Z.log2 (fst A) = 52 ∧ -200 ≤ snd A ≤ 200 ∧
       lexle A (2 ^ 53 - 1, -53).
Proof.
  intros Ha Han Hn.
  destruct (div_of_Z a n) as (ma & mn & Hma & Hla & Hmn & Hln & ->); [lia..|].
  assert (Hlog : 0 ≤ Z.log2 a ≤ Z.log2 n ∧ Z.log2 n < 53).
  { repeat split; try apply Z.log2_nonneg;
      [apply Z.log2_le_mono | apply Z.log2_lt_pow2]; lia. }
  pose proof (log2_quotient_key _ _ Hla Hln) as HK.
  destruct (rounded_shape (kdiv (Z.pos ma * 2 ^ 53) (Z.pos mn))
              (Z.log2 a - Z.log2 n - 53)) as [Hs1 Hs2]; [lia|].
  eexists. split; [reflexivity|]. split; [exact Hs1|]. split; [lia|].
  change (2 ^ 53 - 1, -53) with (rounded (4 * (2 ^ 53 - 1)) (-53)).
  apply rounded_mono; [lia | by vm_compute | lia |].
  replace (-53 - (Z.log2 a - Z.log2 n - 53)) with (Z.log2 n - Z.log2 a) by lia.
  rewrite kdiv_shift, Z2Nat.id by lia.
  set (j := Z.log2 n - Z.log2 a).
  assert (Hj : 0 < 2 ^ j) by (apply Z.pow_pos_nonneg; lia).
  rewrite <- kdiv_one.
  rewrite <- (kdiv_scale (Z.pos mn * 2 ^ j) (2 ^ 53 - 1) 1) by lia.
  rewrite Z.mul_1_r. apply kdiv_mono; [lia|].
  assert (Hmn' : Z.pos mn * 2 ^ j = n * 2 ^ (52 - Z.log2 a)).
  { rewrite Hmn, <- Z.mul_assoc, <- Z.pow_add_r by lia. do 2 f_equal. lia. }
  rewrite Hmn', Hma.
  assert (Hp : 0 < 2 ^ (52 - Z.log2 a)) by (apply Z.pow_pos_nonneg; lia).
  nia.
Qed.

Lemma finite_below_100 (P : Z * Z) :
  0 < fst P → lexle P (7036874417766399, -46) →
  Number.ltb (finite P) (Number.of_Z 100) = true.
Proof.
  destruct P as [M E]. unfold lexle. cbn [fst snd]. intros HM Hle.
  change (Number.of_Z 100) with (S754_finite false 7036874417766400 (-46)).
  unfold Number.ltb, finite, SFltb, SFcompare. cbn [fst snd].
  destruct Hle as [Hlt | [-> Hle]].
  - apply Z.compare_lt_iff in Hlt. by rewrite Hlt.
  - rewrite Z.compare_refl, Pos.compare_cont_spec. simpl.
    destruct (Pos.compare_spec (Z.to_pos M) 7036874417766400) as [Heq| |Hgt];
      try reflexivity.
    + apply (f_equal Z.pos) in Heq. rewrite Z2Pos.id in Heq by lia. lia.
    + apply Pos2Z.pos_lt_pos in Hgt. rewrite Z2Pos.id in Hgt by lia. lia.
Qed.

Lemma lexle_trans (a b c : Z * Z) : lexle a b → lexle b c → lexle a c.
Proof. unfold lexle. lia. Qed.

(** [(i / n) * 100] stays below 100 as long as [i < n]. *)
Lemma percent_below_100 (a n : Z) :
  0 < a → a < n → n < 2 ^ 53 →
  Number.ltb (percent a n) (Number.of_Z 100) = true.
Proof.
  intros Ha Han Hn. unfold percent.
  destruct (div_of_Z_below_1 a n Ha Han Hn) as (A & -> & Hl & HE & Hle).
  rewrite times_100 by done.
  pose proof (times_100_mono A (2 ^ 53 - 1, -53) Hl eq_refl Hle) as Hm.
  assert (HK : 52 ≤ Z.log2 (4 * (fst A * 7036874417766400) / 4)).
  { apply log2_52 in Hl.
    replace (4 * (fst A * 7036874417766400) / 4)
      with (fst A * 7036874417766400)
      by (Z.to_euclidean_division_equations; lia).
    apply Z.log2_le_pow2; lia. }
  destruct (rounded_shape _ (snd A - 46) HK) as [Hs _].
  apply log2_52 in Hs.
  apply finite_below_100; [lia|].
  eapply lexle_trans; [exact Hm|]. vm_compute.
  right. split; [reflexivity | discriminate].
Qed.

End Rounding.

(** ** The batch pipeline *)

Section Pipeline.

Variable codec : File.t → Number.number → Behaviour.

Local Arguments resolved_results : simpl never.
Local Arguments ratio : simpl never.
Local Arguments Number.of_Z : simpl never.
Local Arguments Number.div : simpl never.
Local Arguments Number.mul : simpl never.
Local Arguments percent : simpl never.

Lemma total_app (size : ConversionResult.t → Z) (l : list ConversionResult.t)
    (result : ConversionResult.t) :
  total size (l ++ [result]) = total size l + size result.
Proof. induction l as [|x l IH]; simpl; [lia | rewrite IH; lia]. Qed.

Lemma resolved_results_cons (quality : Z) (fd : FileData.t)
    (rest : list FileData.t) :
  resolved_results codec quality (fd :: rest) =
  match convertToWebP codec (FileData.file fd) quality with
  | Resolved result => result :: resolved_results codec quality rest
  | _ => resolved_results codec quality rest
  end.
Proof.
  unfold resolved_results. simpl.
  by destruct (convertToWebP codec (FileData.file fd) quality).
Qed.

(** What the loop leaves behind when it comes to its end: the results of
    the remaining files are appended, in order, to the collection and
    added to the running totals. *)
Lemma loop_completed (rest : list FileData.t) (t : Task) (st st' : State) :
  loop codec rest t st = Completed st' →
  let rs := resolved_results codec (t_quality t) rest in
  files st' = files st ∧ quality st' = quality st ∧
  converting st' = false ∧
  convertedFiles st' = convertedFiles st ++ rs ∧
  stats st' =
    Some {| Stats.totalFiles := length (t_files t);
            Stats.totalOriginalSize :=
              t_totalOriginalSize t + total ConversionResult.originalSize rs;
            Stats.totalConvertedSize :=
              t_totalConvertedSize t + total ConversionResult.convertedSize rs;
            Stats.totalSavings :=
              (t_totalOriginalSize t + total ConversionResult.originalSize rs)
              - (t_totalConvertedSize t
                 + total ConversionResult.convertedSize rs);
            Stats.compressionRatio :=
              ratio
                (t_totalOriginalSize t + total ConversionResult.originalSize rs)
                (t_totalConvertedSize t
                 + total ConversionResult.convertedSize rs) |}.
Proof.
  revert t st. induction rest as [|fd rest IH]; intros t st H; cbv zeta.
  - injection H as <-. unfold resolved_results. simpl.
    rewrite app_nil_r, !Z.add_0_r. by repeat split.
  - rewrite resolved_results_cons. simpl in H.
    destruct (convertToWebP codec (FileData.file fd) (t_quality t))
      as [result| |]; [| |discriminate].
    + apply IH in H. cbv zeta in H. simpl in H.
      destruct H as (Hf & Hq & Hc & Hcf & Hs).
      rewrite Hs, Hcf, <- app_assoc. simpl.
      rewrite !Z.add_assoc. by repeat split.
    + apply IH in H. exact H.
Qed.

(** The state a completed batch ends in. *)
Lemma convertAllFiles_completed (st st' : State) :
  convertAllFiles codec st = Completed st' →
  let rs := resolved_results codec (quality st) (files st) in
  convertedFiles st' = rs ∧
  stats st' =
    Some {| Stats.totalFiles := length (files st);
            Stats.totalOriginalSize := total ConversionResult.originalSize rs;
            Stats.totalConvertedSize := total ConversionResult.convertedSize rs;
            Stats.totalSavings :=
              total ConversionResult.originalSize rs
              - total ConversionResult.convertedSize rs;
            Stats.compressionRatio :=
              ratio (total ConversionResult.originalSize rs)
                    (total ConversionResult.convertedSize rs) |}.
Proof.
  unfold convertAllFiles, begin.
  destruct (files st) as [|fd rest] eqn:Hfiles; [discriminate|].
  intros H. apply loop_completed in H. cbv zeta in H. simpl in H.
  destruct H as (_ & _ & _ & Hcf & Hs). by rewrite Hcf, Hs.
Qed.

(** C3, as the code has it. When a batch completes without a single
    successful conversion, both totals are 0 and the compression ratio of
    the statistics is the text [NaN]: the quotient 0/0 is formatted as it
    is. *)
Theorem no_success_ratio_is_NaN (st st' : State) :
  convertAllFiles codec st = Completed st' →
  convertedFiles st' = [] →
  ∃ s, stats st' = Some s ∧
    Stats.totalOriginalSize s = 0 ∧
    Stats.totalConvertedSize s = 0 ∧
    Stats.compressionRatio s = "NaN".
Proof.
  intros Hrun Hnone. apply convertAllFiles_completed in Hrun. cbv zeta in Hrun.
  destruct Hrun as [Hcf Hs]. rewrite Hcf in Hnone. rewrite Hs, Hnone.
  eexists. split; [reflexivity|]. by repeat split.
Qed.

(** A promise that never settles stops the loop where it is: the files
    after it are not converted, [converting] stays as it was and no
    statistics are written. *)
Lemma loop_hung (before after : list FileData.t) (fd : FileData.t)
    (t : Task) (st : State) :
  (∀ b, b ∈ before →
        convertToWebP codec (FileData.file b) (t_quality t) ≠ Pending) →
  convertToWebP codec (FileData.file fd) (t_quality t) = Pending →
  ∃ st', loop codec (before ++ fd :: after) t st = Hung st' ∧
    convertedFiles st' =
      convertedFiles st ++ resolved_results codec (t_quality t) before ∧
    converting st' = converting st ∧ stats st' = stats st ∧
    files st' = files st ∧ quality st' = quality st.
Proof.
  revert t st. induction before as [|b before IH]; intros t st Hbefore Hfd.
  - simpl. rewrite Hfd. exists st. rewrite app_nil_r. by repeat split.
  - simpl. rewrite resolved_results_cons.
    assert (Hb := Hbefore b (list_elem_of_here _ _)).
    assert (Hrest : ∀ b', b' ∈ before →
              convertToWebP codec (FileData.file b') (t_quality t) ≠ Pending)
      by (intros b' Hin; apply Hbefore; by apply list_elem_of_further).
    destruct (convertToWebP codec (FileData.file b) (t_quality t))
      as [result| |]; [| |done].
    + destruct (IH (fst (on_resolved t result st))
                  (snd (on_resolved t result st)) Hrest Hfd)
        as (st' & Hrun & Hcf & Hc & Hs & Hf & Hq).
      exists st'. simpl in *. rewrite Hrun, Hcf, <- app_assoc. by repeat split.
    + destruct (IH (on_rejected t) st Hrest Hfd)
        as (st' & Hrun & Hcf & Hc & Hs & Hf & Hq).
      exists st'. by repeat split.
Qed.

(** C2, where the code departs from it. A file that cannot be decoded, or
    for which the encoder gives no output, leaves the promise of
    [convertToWebP] unsettled: no failure is raised for the item.  The
    batch that reaches such a file (every file before it having settled)
    never gets past it: the call stays suspended with [converting] set,
    the results are those of the files before, and no statistics are
    written. *)
Theorem undecodable_file_hangs_batch (st : State)
    (before after : list FileData.t) (fd : FileData.t) :
  files st = before ++ fd :: after →
  (∀ b, b ∈ before →
        convertToWebP codec (FileData.file b) (quality st) ≠ Pending) →
  (let b := codec (FileData.file fd)
              (Number.div (Number.of_Z (quality st)) (Number.of_Z 100)) in
   b = NeverLoads ∨ b = NullBlob) →
  convertToWebP codec (FileData.file fd) (quality st) = Pending ∧
  ∃ st', convertAllFiles codec st = Hung st' ∧
    converting st' = true ∧
    convertedFiles st' = resolved_results codec (quality st) before ∧
    stats st' = stats st.
Proof.
  intros Hfiles Hbefore Hfd.
  assert (Hpending :
            convertToWebP codec (FileData.file fd) (quality st) = Pending).
  { unfold convertToWebP. cbv zeta in Hfd. by destruct Hfd as [-> | ->]. }
  split; [exact Hpending|].
  unfold convertAllFiles, begin. rewrite Hfiles.
  destruct (before ++ fd :: after) as [|x l] eqn:Hl;
    [by destruct before|]. rewrite <- Hl. cbn [t_files].
  destruct (loop_hung before after fd
              {| t_files := before ++ fd :: after; t_quality := quality st;
                 t_i := 0; t_results := []; t_totalOriginalSize := 0;
                 t_totalConvertedSize := 0 |}
              (setConvertedFiles []
                 (setProgress (Number.of_Z 0) (setConverting true st)))
              Hbefore Hpending)
    as (st' & Hrun & Hcf & Hc & Hs & _).
  exists st'. by rewrite Hrun, Hcf, Hc, Hs.
Qed.

(** The results in the collection after a call are results of files of
    the remaining working set, or were there before. *)
Lemma loop_results (rest : list FileData.t) (t : Task) (st : State)
    (r : ConversionResult.t) :
  r ∈ convertedFiles (state_of (loop codec rest t st)) →
  r ∈ convertedFiles st ∨
  ∃ fd, fd ∈ rest ∧
        convertToWebP codec (FileData.file fd) (t_quality t) = Resolved r.
Proof.
  revert t st. induction rest as [|fd rest IH]; intros t st; simpl.
  - by left.
  - destruct (convertToWebP codec (FileData.file fd) (t_quality t))
      as [result| |] eqn:Hfd; simpl.
    + intros [Hin | (fd' & Hin & Hr)]%IH; simpl in *.
      * apply elem_of_app in Hin as [Hin | Hin%list_elem_of_singleton];
          [by left|].
        right. exists fd. subst. split; [apply list_elem_of_here | done].
      * right. exists fd'. split; [by apply list_elem_of_further | done].
    + intros [Hin | (fd' & Hin & Hr)]%IH; [by left|].
      right. exists fd'. split; [by apply list_elem_of_further | done].
    + by left.
Qed.

(** The loop does not read the statistics, and reads the collection and
    the progress only to update them. *)
Lemma loop_agree (rest : list FileData.t) (t : Task) (a b : State) :
  agree a b → same_outcome (loop codec rest t a) (loop codec rest t b).
Proof.
  revert t a b. induction rest as [|fd rest IH];
    intros t [fa ca cfa qa pa sa] [fb cb cfb qb pb sb]
           (Hf & Hc & Hcf & Hq & Hp); simpl in *; subst.
  - reflexivity.
  - destruct (convertToWebP codec (FileData.file fd) (t_quality t));
      [apply IH | apply IH | ]; by repeat split.
Qed.

Lemma convertAllFiles_agree (a b : State) :
  files a = files b → quality a = quality b →
  same_outcome (convertAllFiles codec a) (convertAllFiles codec b).
Proof.
  intros Hf Hq. unfold convertAllFiles, begin. rewrite Hf, Hq.
  destruct (files b) eqn:Hb; [exact I|].
  apply loop_agree. repeat split; simpl; congruence.
Qed.

(** C9. A call of [convertAllFiles] on a non-empty working set first
    empties the collection, sets the progress to 0 and starts from empty
    local results and zero totals.  Whatever an earlier batch left in the
    collection, the progress and the statistics, the call ends the same
    way (in the same state when it completes), and every result in the
    collection afterwards is the result of converting a file of the
    present working set. *)
Theorem convertAllFiles_starts_afresh (st : State) :
  files st ≠ [] →
  (∃ t st0, begin st = Some (t, st0) ∧
     convertedFiles st0 = [] ∧ progress st0 = Number.of_Z 0 ∧
     t_i t = 0%nat ∧ t_results t = [] ∧
     t_totalOriginalSize t = 0 ∧ t_totalConvertedSize t = 0) ∧
  (∀ earlier p s c,
     same_outcome (convertAllFiles codec st)
                  (convertAllFiles codec (with_leftovers earlier p s c st))) ∧
  (∀ r, r ∈ convertedFiles (state_of (convertAllFiles codec st)) →
        ∃ fd, fd ∈ files st ∧
              convertToWebP codec (FileData.file fd) (quality st) = Resolved r).
Proof.
  intros Hne. split; [|split].
  - unfold begin. destruct (files st) as [|fd rest]; [done|].
    eexists _, _. by repeat split.
  - intros earlier p s c. by apply convertAllFiles_agree.
  - intros r Hin. unfold convertAllFiles, begin in Hin.
    destruct (files st) as [|fd rest] eqn:Hfiles; [done|].
    cbn [t_files] in Hin.
    apply loop_results in Hin as [Hin | Hin]; [|exact Hin].
    simpl in Hin. by apply elem_of_nil in Hin.
Qed.

(** When every file settles and the last one is resolved, the loop ends
    with the progress [((i + 1) / files.length) * 100] of the last index. *)
Lemma loop_last_resolved (before : list FileData.t) (fd : FileData.t)
    (result : ConversionResult.t) (t : Task) (st : State) :
  (∀ b, b ∈ before →
        convertToWebP codec (FileData.file b) (t_quality t) ≠ Pending) →
  convertToWebP codec (FileData.file fd) (t_quality t) = Resolved result →
  ∃ st', loop codec (before ++ [fd]) t st = Completed st' ∧
    progress st' =
      percent (Z.of_nat (t_i t + length before) + 1)
              (Z.of_nat (length (t_files t))).
Proof.
  revert t st. induction before as [|b before IH]; intros t st Hbefore Hfd.
  - simpl. rewrite Hfd. simpl. eexists. split; [reflexivity|].
    simpl. by rewrite Nat.add_0_r.
  - assert (Hb := Hbefore b (list_elem_of_here _ _)).
    assert (Hrest : ∀ b', b' ∈ before →
              convertToWebP codec (FileData.file b') (t_quality t) ≠ Pending)
      by (intros b' Hin; apply Hbefore; by apply list_elem_of_further).
    simpl.
    destruct (convertToWebP codec (FileData.file b) (t_quality t))
      as [r| |]; [| |done].
    + destruct (IH (fst (on_resolved t r st)) (snd (on_resolved t r st))
                  Hrest Hfd) as (st' & Hrun & Hp).
      exists st'. split; [exact Hrun|]. rewrite Hp. simpl.
      by rewrite Nat.add_succ_r.
    + destruct (IH (on_rejected t) st Hrest Hfd) as (st' & Hrun & Hp).
      exists st'. split; [exact Hrun|]. rewrite Hp. simpl.
      by rewrite Nat.add_succ_r.
Qed.

(** The part of C1 that the code keeps: when every file settles and the
    last one converts successfully, the batch completes with a progress of
    exactly 100 (a JavaScript array has fewer than 2^32 entries). *)
Lemma progress_full_when_last_resolves (st : State)
    (before : list FileData.t) (fd : FileData.t)
    (result : ConversionResult.t) :
  files st = before ++ [fd] →
  Z.of_nat (length (files st)) < 2 ^ 32 →
  (∀ b, b ∈ before →
        convertToWebP codec (FileData.file b) (quality st) ≠ Pending) →
  convertToWebP codec (FileData.file fd) (quality st) = Resolved result →
  ∃ st', convertAllFiles codec st = Completed st' ∧
         progress st' = Number.of_Z 100.
Proof.
  intros Hfiles Hlen Hbefore Hfd.
  unfold convertAllFiles, begin. rewrite Hfiles in Hlen |- *.
  destruct (before ++ [fd]) as [|x l] eqn:Hl; [by destruct before|].
  rewrite <- Hl in Hlen |- *. cbn [t_files].
  destruct (loop_last_resolved before fd result
              {| t_files := before ++ [fd]; t_quality := quality st;
                 t_i := 0; t_results := []; t_totalOriginalSize := 0;
                 t_totalConvertedSize := 0 |}
              (setConvertedFiles []
                 (setProgress (Number.of_Z 0) (setConverting true st)))
              Hbefore Hfd) as (st' & Hrun & Hp).
  exists st'. split; [exact Hrun|]. rewrite Hp. cbn [t_i t_files].
  rewrite length_app in Hlen |- *. cbn [length] in Hlen |- *.
  replace (Z.of_nat (0 + length before) + 1)
    with (Z.of_nat (length before + 1)) by lia.
  apply percent_full. lia.
Qed.

(** The progress a call ends with is the one it started from, or the
    one set for a file that was converted successfully. *)
Lemma loop_progress (rest : list FileData.t) (t : Task) (st : State) :
  progress (state_of (loop codec rest t st)) = progress st ∨
  ∃ j fd result,
    rest !! j = Some fd ∧
    convertToWebP codec (FileData.file fd) (t_quality t) = Resolved result ∧
    progress (state_of (loop codec rest t st))
    = percent (Z.of_nat (t_i t + j) + 1) (Z.of_nat (length (t_files t))).
Proof.
  revert t st. induction rest as [|fd rest IH]; intros t st; simpl.
  - by left.
  - destruct (convertToWebP codec (FileData.file fd) (t_quality t))
      as [result| |] eqn:Hfd; simpl.
    + right.
      destruct (IH (fst (on_resolved t result st))
                  (snd (on_resolved t result st)))
        as [Hp | (j & fd' & r & Hj & Hr & Hp)]; simpl in *.
      * exists 0%nat, fd, result. rewrite Nat.add_0_r. by repeat split.
      * exists (S j), fd', r. rewrite Nat.add_succ_r. by repeat split.
    + destruct (IH (on_rejected t) st)
        as [Hp | (j & fd' & r & Hj & Hr & Hp)]; simpl in *; [by left|].
      right. exists (S j), fd', r. rewrite Nat.add_succ_r. by repeat split.
    + by left.
Qed.

(** When the conversion of the last file of the working set is rejected
    or never settles, the call of [convertAllFiles] ends (completed, or
    suspended for ever) with a progress strictly below 100: [setProgress]
    is called on the success path only (a JavaScript array has fewer than
    2^32 entries). *)
Lemma progress_short_of_100_when_last_item_fails (st : State)
    (before : list FileData.t) (fd : FileData.t) :
  files st = before ++ [fd] →
  Z.of_nat (length (files st)) < 2 ^ 32 →
  (∀ result,
     convertToWebP codec (FileData.file fd) (quality st) ≠ Resolved result) →
  Number.ltb (progress (state_of (convertAllFiles codec st)))
             (Number.of_Z 100) = true.
Proof.
  intros Hfiles Hlen Hfd.
  unfold convertAllFiles, begin. rewrite Hfiles in Hlen |- *.
  destruct (before ++ [fd]) as [|x l] eqn:Hl; [by destruct before|].
  rewrite <- Hl in Hlen |- *. cbn [t_files].
  destruct (loop_progress (before ++ [fd])
              {| t_files := before ++ [fd]; t_quality := quality st;
                 t_i := 0; t_results := []; t_totalOriginalSize := 0;
                 t_totalConvertedSize := 0 |}
              (setConvertedFiles []
                 (setProgress (Number.of_Z 0) (setConverting true st))))
    as [-> | (j & fd' & r & Hj & Hr & ->)]; [reflexivity|].
  cbn [t_i t_files t_quality] in *.
  rewrite length_app in Hlen |- *. cbn [length] in Hlen |- *.
  assert (Hjb : (j < length before)%nat).
  { destruct (Nat.lt_ge_cases j (length before)) as [|Hge]; [done|].
    apply lookup_lt_Some in Hj as Hjl. rewrite length_app in Hjl.
    cbn [length] in Hjl. assert (j = length before) by lia. subst j.
    rewrite lookup_app_r, Nat.sub_diag in Hj by lia.
    injection Hj as <-. by destruct (Hfd r). }
  apply percent_below_100; lia.
Qed.

End Pipeline.

Lemma undecodable_file_hangs_batch_witness :
  convertToWebP codec_partial (image "broken.png" 1000) 95 = Pending ∧
  ∃ st', convertAllFiles codec_partial broken_batch = Hung st' ∧
    converting st' = true ∧
    convertedFiles st' =
      resolved_results codec_partial 95 [entry "a" (image "a.png" 1000)] ∧
    stats st' = None.
Proof.
  apply (undecodable_file_hangs_batch codec_partial broken_batch
           [entry "a" (image "a.png" 1000)]
           [entry "c" (image "c.png" 1000)]
           (entry "b" (image "broken.png" 1000)) eq_refl).
  - intros b Hin. apply list_elem_of_singleton in Hin. subst b. discriminate.
  - left. reflexivity.
Defined.

Lemma convertAllFiles_starts_afresh_witness :
  ∃ t st0, begin three_images = Some (t, st0) ∧
    convertedFiles st0 = [] ∧ progress st0 = Number.of_Z 0 ∧
    t_i t = 0%nat ∧ t_results t = [] ∧
    t_totalOriginalSize t = 0 ∧ t_totalConvertedSize t = 0.
Proof.
  apply (convertAllFiles_starts_afresh codec_two_fifths three_images).
  discriminate.
Defined.

(** C1 as stated fails: a batch whose last conversion is rejected
    completes with the progress of the last success (50 for the first of
    two files); a batch whose last file cannot be decoded stays suspended
    with that progress; a batch of one such file stays at 0.  None of
    these is 100. *)
Lemma progress_after_failed_last_item :
  (∃ st',
     convertAllFiles codec_partial
       (with_files [entry "a" (image "a.png" 1000);
                    entry "b" (image "locked.png" 1000)]) = Completed st' ∧
     progress st' = Number.of_Z 50) ∧
  (∃ st',
     convertAllFiles codec_partial
       (with_files [entry "a" (image "a.png" 1000);
                    entry "b" (image "broken.png" 1000)]) = Hung st' ∧
     progress st' = Number.of_Z 50 ∧ converting st' = true) ∧
  (∃ st',
     convertAllFiles codec_partial
       (with_files [entry "b" (image "broken.png" 1000)]) = Hung st' ∧
     progress st' = Number.of_Z 0 ∧ converting st' = true) ∧
  Number.of_Z 50 ≠ Number.of_Z 100 ∧ Number.of_Z 0 ≠ Number.of_Z 100.
Proof.
  split; [|split; [|split]].
  - eexists. split; reflexivity.
  - eexists. repeat split; reflexivity.
  - eexists. repeat split; reflexivity.
  - split; discriminate.
Qed.

Lemma no_success_ratio_is_NaN_witness :
  ∃ s, stats (state_of (convertAllFiles codec_partial
                          (with_files [entry "a" (image "locked.png" 1000)])))
       = Some s ∧
    Stats.totalOriginalSize s = 0 ∧
    Stats.totalConvertedSize s = 0 ∧
    Stats.compressionRatio s = "NaN".
Proof.
  apply (no_success_ratio_is_NaN codec_partial
           (with_files [entry "a" (image "locked.png" 1000)]) _ eq_refl).
  reflexivity.
Defined.

(** C3 as stated fails: a batch of one file whose conversion is rejected
    completes with an empty collection, a total original size of 0, and
    the compression ratio [NaN] in its statistics. *)
Lemma rejected_batch_reports_NaN :
  ∃ st' s,
    convertAllFiles codec_partial
      (with_files [entry "a" (image "locked.png" 1000)]) = Completed st' ∧
    convertedFiles st' = [] ∧
    stats st' = Some s ∧
    Stats.totalOriginalSize s = 0 ∧
    Stats.compressionRatio s = "NaN" ∧
    Stats.compressionRatio s ≠ "0.0".
Proof. eexists _, _. by repeat split. Qed.

(** The scenario of two files of which the second fails: the collection
    holds one result, and the statistics count two files and the sizes of
    the first. *)
Example second_of_two_rejected :
  convertAllFiles codec_partial
    (with_files [entry "a" (image "a.png" 1000);
                 entry "b" (image "locked.png" 1000)])
  = Completed
      {| files := [entry "a" (image "a.png" 1000);
                   entry "b" (image "locked.png" 1000)];
         converting := false;
         convertedFiles :=
           [{| ConversionResult.original := image "a.png" 1000;
               ConversionResult.converted :=
                 {| File.name := "a.webp"; File.type := "image/webp";
                    File.size := 400 |};
               ConversionResult.originalSize := 1000;
               ConversionResult.convertedSize := 400;
               ConversionResult.compressionRatio := "60.0" |}];
         quality := 95;
         progress := Number.of_Z 50;
         stats :=
           Some {| Stats.totalFiles := 2;
                   Stats.totalOriginalSize := 1000;
                   Stats.totalConvertedSize := 400;
                   Stats.totalSavings := 600;
                   Stats.compressionRatio := "60.0" |} |}.
Proof. reflexivity. Qed.

(** ** One batch at a time *)

Section Reentrancy.

Variable codec : File.t → Number.number → Behaviour.

Lemma call_empty (w : World) : files (ui w) = [] → call w = w.
Proof. intros H. unfold call, begin. by rewrite H. Qed.

Lemma consistent_handle (w : World) (e : Event) :
  consistent codec w → consistent codec (handle codec w e).
Proof.
  destruct w as [st ts]. unfold consistent. destruct e; simpl.
  - destruct selectedFiles; [|done]. destruct ts as [|t [|]]; done.
  - destruct ts as [|t [|]]; done.
  - destruct ts as [|t [|]]; done.
  - unfold click, call, begin. simpl.
    destruct ts as [|t [|]]; [| |done].
    + intros Hc. rewrite Hc.
      destruct (files st) eqn:Hfiles; simpl; [done|].
      repeat split; [lia| |by left]. by intros r Hr%elem_of_nil.
    + intros (Hc & Hi & Hcf). rewrite Hc. simpl. by rewrite Hc.
  - unfold settle, resume. simpl.
    destruct ts as [|t [|]]; [by destruct n| |done].
    destruct n as [|n]; simpl; [|done].
    intros (Hc & Hi & Hcf & Ho & Hs & Hin & Hp).
    destruct (t_files t !! t_i t) as [fd|] eqn:Hfd; [|by repeat split].
    destruct (convertToWebP codec (FileData.file fd) (t_quality t))
      as [result| |] eqn:Hconv; simpl; [| |by repeat split].
    + destruct (S (t_i t) <? length (t_files t))%nat eqn:Hlt; simpl; [|done].
      apply Nat.ltb_lt in Hlt. rewrite !total_app, Hcf, Ho, Hs.
      split; [done|]. split; [done|]. split; [done|]. split; [done|].
      split; [done|]. split.
      * intros r [Hr | Hr%list_elem_of_singleton]%elem_of_app;
          [by apply Hin|].
        subst r. exists fd. split; [by eapply list_elem_of_lookup_2 | done].
      * right. exists (Z.of_nat (t_i t) + 1). split; [lia | done].
    + destruct (S (t_i t) <? length (t_files t))%nat eqn:Hlt; simpl; [|done].
      apply Nat.ltb_lt in Hlt.
      split; [done|]. split; [done|]. split; [done|]. split; [done|].
      split; [done|]. split; [done|].
      destruct Hp as [Hp | (j & Hj & Hp)]; [by left|].
      right. exists j. split; [lia | done].
Qed.

(** The loop of [convertAllFiles] is the sequence of settlements of the
    call in flight: a completed loop is what as many settlements as there
    are files left lead to, and a suspended loop is a page on which the
    call in flight is never resumed. *)
Lemma loop_settles (rest : list FileData.t) (t : Task) (st : State) :
  drop (t_i t) (t_files t) = rest → rest ≠ [] →
  match loop codec rest t st with
  | Completed st' =>
      settles codec (length rest) {| ui := st; tasks := [t] |}
      = {| ui := st'; tasks := [] |}
  | Hung st' =>
      ∃ n t', (n < length rest)%nat ∧
        settles codec n {| ui := st; tasks := [t] |}
        = {| ui := st'; tasks := [t'] |} ∧
        settle codec 0 {| ui := st'; tasks := [t'] |}
        = {| ui := st'; tasks := [t'] |}
  | Returned _ => False
  end.
Proof.
  revert t st. induction rest as [|fd rest IH]; intros t st Hdrop Hne; [done|].
  clear Hne.
  assert (Hfd : t_files t !! t_i t = Some fd).
  { rewrite <- (Nat.add_0_r (t_i t)), <- lookup_drop. by rewrite Hdrop. }
  assert (Hrest : drop (S (t_i t)) (t_files t) = rest).
  { rewrite (drop_S _ _ _ Hfd) in Hdrop. by injection Hdrop. }
  assert (Hlen : (S (t_i t) <? length (t_files t))%nat
                 = negb (bool_decide (rest = []))).
  { rewrite <- Hrest. destruct (Nat.ltb_spec (S (t_i t)) (length (t_files t)));
      case_bool_decide as Hd; try done.
    - apply drop_nil_inv in Hd. lia.
    - destruct Hd. apply drop_ge. lia. }
  cbn [loop length settles]. unfold settle at 1, resume. cbn [tasks ui].
  change ([t] !! 0%nat) with (Some t). cbn iota beta. rewrite Hfd.
  destruct (convertToWebP codec (FileData.file fd) (t_quality t))
    as [result| |] eqn:Hconv.
  - destruct (on_resolved t result st) as [t' st'] eqn:Hon.
    assert (Ht' : t_i t' = S (t_i t) ∧ t_files t' = t_files t)
      by (injection Hon as <- <-; done).
    destruct Ht' as [Hi Hf]. rewrite Hi, Hf, Hlen.
    destruct rest as [|fd' rest'].
    + rewrite bool_decide_eq_true_2 by done. reflexivity.
    + rewrite bool_decide_eq_false_2 by done. cbn [negb].
      change (<[0%nat:=t']> [t]) with [t'].
      specialize (IH t' st'). rewrite Hi, Hf in IH.
      specialize (IH Hrest ltac:(done)).
      destruct (loop codec (fd' :: rest') t' st') as [|st''|st'']; [done|done|].
      destruct IH as (n & t'' & Hn & Hs & Hstuck).
      exists (S n), t''. split; [simpl in *; lia|]. split; [|exact Hstuck].
      cbn [settles]. unfold settle at 1, resume. cbn [tasks ui].
      change ([t] !! 0%nat) with (Some t). cbn iota beta.
      rewrite Hfd, Hconv, Hon, Hi, Hf, Hlen.
      rewrite bool_decide_eq_false_2 by done. exact Hs.
  - assert (Hi : t_i (on_rejected t) = S (t_i t)) by done.
    assert (Hf : t_files (on_rejected t) = t_files t) by done.
    rewrite Hi, Hf, Hlen.
    destruct rest as [|fd' rest'].
    + rewrite bool_decide_eq_true_2 by done. reflexivity.
    + rewrite bool_decide_eq_false_2 by done. cbn [negb].
      change (<[0%nat:=on_rejected t]> [t]) with [on_rejected t].
      specialize (IH (on_rejected t) st Hrest ltac:(done)).
      destruct (loop codec (fd' :: rest') (on_rejected t) st)
        as [|st''|st'']; [done|done|].
      destruct IH as (n & t'' & Hn & Hs & Hstuck).
      exists (S n), t''. split; [simpl in *; lia|]. split; [|exact Hstuck].
      cbn [settles]. unfold settle at 1, resume. cbn [tasks ui].
      change ([t] !! 0%nat) with (Some t). cbn iota beta.
      rewrite Hfd, Hconv, Hi, Hf, Hlen.
      rewrite bool_decide_eq_false_2 by done. exact Hs.
  - exists 0%nat, t. split; [simpl; lia|]. split; [reflexivity|].
    unfold settle, resume. cbn [tasks ui].
    change ([t] !! 0%nat) with (Some t). cbn iota beta.
    by rewrite Hfd, Hconv.
Qed.

(** A click on an idle page, followed by the settlements of the call it
    starts, is a call of [convertAllFiles]. *)
Lemma click_runs_convertAllFiles (st : State) :
  converting st = false →
  match convertAllFiles codec st with
  | Returned st' => click {| ui := st; tasks := [] |} = {| ui := st'; tasks := [] |}
  | Completed st' =>
      settles codec (length (files st)) (click {| ui := st; tasks := [] |})
      = {| ui := st'; tasks := [] |}
  | Hung st' =>
      ∃ n t', (n < length (files st))%nat ∧
        settles codec n (click {| ui := st; tasks := [] |})
        = {| ui := st'; tasks := [t'] |} ∧
        settle codec 0 {| ui := st'; tasks := [t'] |}
        = {| ui := st'; tasks := [t'] |}
  end.
Proof.
  intros Hidle. unfold click, call, convertAllFiles, begin. cbn [ui tasks].
  rewrite Hidle. destruct (files st) as [|fd rest] eqn:Hfiles; [done|].
  cbn [t_files app].
  pose proof (loop_settles (fd :: rest)
                {| t_files := fd :: rest; t_quality := quality st; t_i := 0;
                   t_results := []; t_totalOriginalSize := 0;
                   t_totalConvertedSize := 0 |}
                (setConvertedFiles []
                   (setProgress (Number.of_Z 0) (setConverting true st)))
                eq_refl ltac:(done)) as H.
  by destruct (loop codec (fd :: rest) _ _).
Qed.

(** The guard against a second batch is the disabled button:
    [convertAllFiles] itself starts a call whenever the working set is not
    empty. *)
Lemma call_is_not_guarded (w : World) :
  files (ui w) ≠ [] → length (tasks (call w)) = S (length (tasks w)).
Proof.
  intros Hne. unfold call, begin. destruct (files (ui w)); [done|].
  cbn [tasks]. rewrite length_app. simpl. lia.
Qed.

Lemma reachable_consistent (w : World) :
  reachable codec w → consistent codec w.
Proof.
  induction 1 as [|w e _ IH]; [reflexivity | by apply consistent_handle].
Qed.

(** While a batch runs, at every moment, the collection shown holds only
    results of conversions of the files that batch was started on. *)
Lemma shown_results_are_of_the_running_batch (w : World) (t : Task)
    (r : ConversionResult.t) :
  reachable codec w → t ∈ tasks w → r ∈ convertedFiles (ui w) →
  ∃ fd, fd ∈ t_files t ∧
        convertToWebP codec (FileData.file fd) (t_quality t) = Resolved r.
Proof.
  intros Hw%reachable_consistent Ht Hr. unfold consistent in Hw.
  destruct (tasks w) as [|t' [|]]; [by apply elem_of_nil in Ht| |done].
  apply list_elem_of_singleton in Ht. subst t'.
  destruct Hw as (_ & _ & Hcf & _ & _ & Hin & _). apply Hin.
  by rewrite <- Hcf.
Qed.

Lemma leb_refl_progress (w : World) (t : Task) :
  consistent codec w → tasks w = [t] →
  Z.of_nat (length (t_files t)) < 2 ^ 32 →
  Number.leb (progress (ui w)) (progress (ui w)) = true.
Proof.
  unfold consistent. intros Hw Ht Hlen. rewrite Ht in Hw.
  destruct Hw as (_ & Hi & _ & _ & _ & _ & [-> | (j & Hj & ->)]);
    [reflexivity|].
  apply percent_mono; lia.
Qed.

(** While a batch is running, no event makes the progress shown smaller
    (a JavaScript array has fewer than 2^32 entries). *)
Lemma progress_grows_while_running (w : World) (t : Task) (e : Event) :
  reachable codec w → tasks w = [t] →
  Z.of_nat (length (t_files t)) < 2 ^ 32 →
  Number.leb (progress (ui w)) (progress (ui (handle codec w e))) = true.
Proof.
  intros Hw%reachable_consistent Ht Hlen.
  pose proof (leb_refl_progress w t Hw Ht Hlen) as Hrefl.
  unfold consistent in Hw. rewrite Ht in Hw.
  destruct Hw as (Hc & Hi & _ & _ & _ & _ & Hp).
  destruct w as [st ts]. simpl in *. subst ts. destruct e; simpl.
  - by destruct selectedFiles.
  - done.
  - done.
  - unfold click. simpl. by rewrite Hc.
  - unfold settle, resume. simpl. destruct n as [|n]; simpl; [|done].
    destruct (t_files t !! t_i t) as [fd|]; [|done].
    destruct (convertToWebP codec (FileData.file fd) (t_quality t))
      as [result| |]; simpl; [| |done].
    + assert (Hnew : Number.leb (progress st)
                       (percent (Z.of_nat (t_i t) + 1)
                                (Z.of_nat (length (t_files t)))) = true).
      { destruct Hp as [-> | (j & Hj & ->)];
          [apply percent_nonneg | apply percent_mono]; lia. }
      by destruct (S (t_i t) <? length (t_files t))%nat.
    + by destruct (S (t_i t) <? length (t_files t))%nat.
Qed.

(** The settlement that resolves the promise of the last file ends the
    batch with a progress of exactly 100. *)
Lemma last_settlement_ends_at_100 (w : World) (t : Task) (fd : FileData.t)
    (result : ConversionResult.t) :
  tasks w = [t] → Z.of_nat (length (t_files t)) < 2 ^ 32 →
  S (t_i t) = length (t_files t) →
  t_files t !! t_i t = Some fd →
  convertToWebP codec (FileData.file fd) (t_quality t) = Resolved result →
  tasks (handle codec w (Settle 0)) = [] ∧
  converting (ui (handle codec w (Settle 0))) = false ∧
  progress (ui (handle codec w (Settle 0))) = Number.of_Z 100.
Proof.
  intros Ht Hlen Hlast Hfd Hconv. destruct w as [st ts]. simpl in *. subst ts.
  unfold settle, resume. simpl. rewrite Hfd, Hconv. simpl.
  rewrite Hlast, Nat.ltb_irrefl. simpl. repeat split.
  replace (Z.of_nat (t_i t) + 1) with (Z.of_nat (length (t_files t))) by lia.
  apply percent_full. lia.
Qed.

(** C1, as the code has it. While a batch runs over a working set (of
    fewer than 2^32 files, as every JavaScript array), no event makes the
    progress smaller, and the settlement that resolves the conversion of
    the last file ends the batch with a progress of exactly 100.  Nothing
    is said of a last file whose conversion fails. *)
Theorem progress_grows_to_100_on_success (w : World) (t : Task) (e : Event) :
  reachable codec w → tasks w = [t] →
  Z.of_nat (length (t_files t)) < 2 ^ 32 →
  Number.leb (progress (ui w)) (progress (ui (handle codec w e))) = true ∧
  (∀ fd result,
     e = Settle 0 → S (t_i t) = length (t_files t) →
     t_files t !! t_i t = Some fd →
     convertToWebP codec (FileData.file fd) (t_quality t) = Resolved result →
     tasks (handle codec w e) = [] ∧
     converting (ui (handle codec w e)) = false ∧
     progress (ui (handle codec w e)) = Number.of_Z 100).
Proof.
  intros Hw Ht Hlen. split; [by eapply progress_grows_while_running|].
  intros fd result -> Hlast Hfd Hconv.
  by eapply last_settlement_ends_at_100.
Qed.

(** C6. On every page the events can lead to, at most one batch is in
    flight and [converting] is set exactly while it is.  A click on the
    convert button takes an idle page to a running batch if and only if
    the working set is not empty, and on a page with a running batch it
    changes nothing: no second call is started. *)
Theorem click_starts_one_batch (w : World) :
  reachable codec w →
  (length (tasks w) ≤ 1)%nat ∧
  (running w ↔ converting (ui w) = true) ∧
  (¬ running w → (running (handle codec w Click) ↔ files (ui w) ≠ [])) ∧
  (running w → handle codec w Click = w).
Proof.
  intros Hw%reachable_consistent. destruct w as [st ts].
  unfold consistent, running, handle, click, call, begin in *. simpl in *.
  destruct ts as [|t [|]]; [| |done].
  - rewrite Hw. split; [simpl; lia|]. split; [done|]. split; [|done].
    intros _. destruct (files st); simpl; [done|]. split; done.
  - destruct Hw as (-> & _). split; [simpl; lia|]. by repeat split.
Qed.

End Reentrancy.

Lemma progress_grows_to_100_on_success_witness :
  Number.leb (progress (ui busy_page))
             (progress (ui (handle codec_400 busy_page (Settle 0)))) = true ∧
  progress (ui (handle codec_400 busy_page (Settle 0))) = Number.of_Z 100.
Proof.
  assert (Hreach : reachable codec_400 busy_page)
    by apply reachable_handle, reachable_handle, reachable_start.
  assert (Hlen : Z.of_nat 1 < 2 ^ 32) by (simpl; lia).
  destruct (progress_grows_to_100_on_success codec_400 busy_page _ (Settle 0)
              Hreach eq_refl Hlen) as [Hle Hend].
  split; [exact Hle|].
  by destruct (Hend _ _ eq_refl eq_refl eq_refl eq_refl) as (_ & _ & Hp).
Defined.

Lemma click_starts_one_batch_witness :
  running busy_page ∧ handle codec_400 busy_page Click = busy_page.
Proof.
  assert (Hrun : running busy_page) by discriminate.
  split; [exact Hrun|].
  apply (click_starts_one_batch codec_400 busy_page); [|exact Hrun].
  apply reachable_handle, reachable_handle, reachable_start.
Defined.

(** * Further properties of the component *)

(** ** The size formatter at its edges *)

Section SizeFormatterEdges.

Lemma div_NaN (x : Number.number) : Number.div x S754_nan = S754_nan.
Proof. by destruct x. Qed.

(** X1. A negative byte count, which is what the savings of a batch are
    when the converted files are larger than the originals, is formatted
    as [NaN undefined]: its logarithm is NaN, and so are the unit index,
    the scaled value and the entry of [sizes]. *)
Theorem formatFileSize_negative (bytes : Z) :
  bytes < 0 → formatFileSize bytes = "NaN undefined".
Proof.
  intros Hneg. unfold formatFileSize, unit_index.
  destruct (Z.eqb_spec bytes 0) as [|_]; [lia|].
  destruct (Z.ltb_spec 0 bytes) as [|_]; [lia|].
  cbn [Math_pow unit_name]. by rewrite div_NaN.
Qed.

End SizeFormatterEdges.

Lemma formatFileSize_negative_witness :
  -4 < 0 ∧ formatFileSize (-4) = "NaN undefined".
Proof. split; [lia | apply (formatFileSize_negative (-4)); lia]. Defined.

(** ** Whole multiples of a unit *)

Section WholeUnits.

(** X2. A whole number of units below 1024 (of bytes, KB, MB or GB) is
    shown as that number, without decimals, followed by the unit: [512]
    bytes as [512 Bytes], [3 * 1024^2] bytes as [3 MB]. *)
Theorem formatFileSize_whole_units (n : Z) (u : nat) (unit : string) :
  1 ≤ n < 1024 → sizes !! u = Some unit →
  formatFileSize (n * 1024 ^ Z.of_nat u) = Number.digits n +:+ " " +:+ unit.
Proof.
  intros Hn Hu.
  assert (Hall :
    forallb (λ u, forallb (λ n,
        String.eqb (formatFileSize (n * 1024 ^ Z.of_nat u))
                   (Number.digits n +:+ " " +:+ default "" (sizes !! u)))
      (seqZ 1 1023)) (seq 0 4) = true) by (vm_compute; reflexivity).
  assert (Hu4 : (u < 4)%nat) by (apply lookup_lt_Some in Hu; exact Hu).
  rewrite forallb_forall in Hall.
  specialize (Hall u ltac:(apply in_seq; lia)).
  rewrite forallb_forall in Hall.
  specialize (Hall n ltac:(apply list_elem_of_In, elem_of_seqZ; lia)).
  apply String.eqb_eq in Hall. by rewrite Hall, Hu.
Qed.

End WholeUnits.

Lemma formatFileSize_whole_units_witness :
  formatFileSize (3 * 1024 ^ 2) = "3 MB".
Proof.
  apply (formatFileSize_whole_units 3 2 "MB"); [lia | reflexivity].
Defined.

(** ** Selecting and removing files *)

Section SelectionAlgebra.

Lemma setFiles_files (st : State) : setFiles (files st) st = st.
Proof. by destruct st. Qed.

Lemma setFiles_setFiles (a b : list FileData.t) (st : State) :
  setFiles a (setFiles b st) = setFiles a st.
Proof. reflexivity. Qed.

Lemma filter_id_iff {A} (P : A → Prop) `{∀ x, Decision (P x)} (l : list A) :
  filter P l = l ↔ Forall P l.
Proof.
  split.
  - intros Heq. rewrite <- Heq. apply Forall_forall.
    by intros x [? _]%list_elem_of_filter.
  - induction 1 as [|x l Hx _ IH]; [reflexivity|].
    by rewrite filter_cons_True, IH.
Qed.

Lemma filter_comm {A} (P Q : A → Prop)
    `{∀ x, Decision (P x)} `{∀ x, Decision (Q x)} (l : list A) :
  filter P (filter Q l) = filter Q (filter P l).
Proof.
  induction l as [|x l IH]; [reflexivity|].
  rewrite !(filter_cons _ x).
  destruct (decide (P x)), (decide (Q x));
    rewrite ?filter_cons_True, ?filter_cons_False by done; by rewrite IH.
Qed.

Lemma filter_none {A} (P : A → Prop) `{∀ x, Decision (P x)} (l : list A) :
  (∀ x, x ∈ l → ¬ P x) → filter P l = [].
Proof.
  induction l as [|x l IH]; intros Hnone; [reflexivity|].
  rewrite filter_cons_False by (apply Hnone, list_elem_of_here).
  apply IH. intros y Hy. by apply Hnone, list_elem_of_further.
Qed.

Lemma filter_idemp {A} (P : A → Prop) `{∀ x, Decision (P x)} (l : list A) :
  filter P (filter P l) = filter P l.
Proof.
  apply filter_id_iff, Forall_forall. by intros x [? _]%list_elem_of_filter.
Qed.

(** X3. Removing a file twice is removing it once; two removals can be
    made in either order; and removing an id that no entry of the working
    set carries changes nothing, while removing one that an entry carries
    does change the working set. *)
Theorem removeFile_algebra (a b : string) (st : State) :
  removeFile a (removeFile a st) = removeFile a st ∧
  removeFile a (removeFile b st) = removeFile b (removeFile a st) ∧
  (removeFile a st = st ↔ ∀ f, f ∈ files st → FileData.id f ≠ a).
Proof.
  unfold removeFile. split; [|split].
  - cbn [files setFiles]. rewrite setFiles_setFiles. f_equal. apply filter_idemp.
  - cbn [files setFiles]. rewrite !setFiles_setFiles. f_equal. apply filter_comm.
  - rewrite <- Forall_forall, <- filter_id_iff. split.
    + intros Heq. apply (f_equal files) in Heq. exact Heq.
    + intros ->. apply setFiles_files.
Qed.

Lemma fileData_id (random_id createObjectURL : nat → string) (n : nat)
    (imageFiles : list File.t) (f : FileData.t) :
  f ∈ fileData random_id createObjectURL n imageFiles →
  ∃ j, FileData.id f = random_id j.
Proof.
  revert n. induction imageFiles as [|file rest IH]; intros n; simpl.
  - by intros ?%elem_of_nil.
  - intros [-> | Hin]%elem_of_cons; [by exists n | by eapply IH].
Qed.

Lemma foldr_removeFile (ids : list string) (st : State) :
  foldr removeFile st ids
  = setFiles (filter (λ f, FileData.id f ∉ ids) (files st)) st.
Proof.
  induction ids as [|x ids IH]; cbn [foldr].
  - rewrite (proj2 (filter_id_iff _ (files st))); [by rewrite setFiles_files|].
    apply Forall_forall. intros f _. apply not_elem_of_nil.
  - rewrite IH. unfold removeFile. cbn [files setFiles].
    rewrite setFiles_setFiles. f_equal.
    rewrite list_filter_filter. apply list_filter_iff.
    intros f. rewrite not_elem_of_cons. tauto.
Qed.

(** X4. Selecting files and then removing the entries that the selection
    added, by their ids, gives back the state from before the selection,
    provided that no earlier entry carries one of the new ids (the ids are
    drawn at random, not checked against the working set). *)
Theorem select_then_remove (random_id createObjectURL : nat → string)
    (selected : list File.t) (st : State) :
  (∀ f n, f ∈ files st → FileData.id f ≠ random_id n) →
  let st' := handleFileSelect random_id createObjectURL (Some selected) st in
  let added := drop (length (files st)) (files st') in
  foldr removeFile st' (FileData.id <$> added) = st.
Proof.
  intros Hfresh. cbv zeta. rewrite foldr_removeFile.
  unfold handleFileSelect. cbn [files setFiles].
  rewrite setFiles_setFiles, drop_app_length.
  set (added := fileData random_id createObjectURL 0 _).
  rewrite filter_app.
  assert (Hold : filter (λ f, FileData.id f ∉ FileData.id <$> added) (files st)
                 = files st).
  { apply filter_id_iff, Forall_forall. intros f Hf Hin.
    apply list_elem_of_fmap in Hin as (g & Hid & Hg).
    apply fileData_id in Hg as (j & Hj).
    apply (Hfresh f j Hf). congruence. }
  assert (Hnew : filter (λ f, FileData.id f ∉ FileData.id <$> added) added = []).
  { apply filter_none. intros f Hf Hnot. apply Hnot.
    by apply list_elem_of_fmap_2. }
  by rewrite Hold, Hnew, app_nil_r, setFiles_files.
Qed.

(** X5. Selecting files in two steps adds the same files, in the same
    order, as selecting them all at once: nothing is merged, so a file
    selected twice is listed twice.  A selection without an accepted
    image, and the selection [null], leave the state as it is. *)
Theorem handleFileSelect_composes
    (ids1 urls1 ids2 urls2 ids urls : nat → string)
    (a b : list File.t) (st : State) :
  FileData.file <$>
    files (handleFileSelect ids2 urls2 (Some b)
             (handleFileSelect ids1 urls1 (Some a) st))
  = FileData.file <$> files (handleFileSelect ids urls (Some (a ++ b)) st) ∧
  length (files (handleFileSelect ids urls (Some a) st))
  = (length (files st) + length (filter (λ f, is_image f = true) a))%nat ∧
  ((∀ f, f ∈ a → is_image f = false) →
   handleFileSelect ids urls (Some a) st = st) ∧
  handleFileSelect ids urls None st = st.
Proof.
  unfold handleFileSelect. cbn [files setFiles]. split; [|split; [|split]].
  - rewrite !fmap_app, !fileData_file, filter_app. by rewrite app_assoc.
  - rewrite length_app. f_equal.
    rewrite <- (length_fmap FileData.file), fileData_file. reflexivity.
  - intros Hnone.
    assert (Hf : filter (λ f, is_image f = true) a = []).
    { apply filter_none. intros f Hf. rewrite (Hnone f Hf). discriminate. }
    rewrite Hf. simpl. rewrite app_nil_r. apply setFiles_files.
  - reflexivity.
Qed.

End SelectionAlgebra.

Lemma select_then_remove_witness :
  foldr removeFile
    (handleFileSelect (λ _, "new") (λ _, "blob:2") (Some [picture; photo])
       (with_files [entry "a" photo]))
    ["new"; "new"]
  = with_files [entry "a" photo].
Proof.
  apply (select_then_remove (λ _, "new") (λ _, "blob:2") [picture; photo]
           (with_files [entry "a" photo])).
  intros f n Hf. apply list_elem_of_singleton in Hf. subst f. discriminate.
Defined.

(** ** Outcomes of a batch *)

Section Outcomes.

Variable codec : File.t → Number.number → Behaviour.

Local Arguments resolved_results : simpl never.
Local Arguments ratio : simpl never.
Local Arguments percent : simpl never.
Local Arguments Number.of_Z : simpl never.

Lemma convertToWebP_well_formed (file : File.t) (q : Z)
    (r : ConversionResult.t) :
  convertToWebP codec file q = Resolved r →
  ConversionResult.original r = file ∧ well_formed r.
Proof.
  unfold convertToWebP, well_formed.
  destruct (codec file _); try discriminate. intros [= <-]. by repeat split.
Qed.

(** The loop touches neither the working set nor the quality; it ends
    suspended with the flag and the statistics it started from, or
    completed with the flag cleared and the statistics written. *)
Lemma loop_frame (rest : list FileData.t) (t : Task) (st : State) :
  match loop codec rest t st with
  | Returned _ => False
  | Completed st' =>
      files st' = files st ∧ quality st' = quality st ∧
      converting st' = false ∧ stats st' ≠ None
  | Hung st' =>
      files st' = files st ∧ quality st' = quality st ∧
      converting st' = converting st ∧ stats st' = stats st
  end.
Proof.
  revert t st. induction rest as [|fd rest IH]; intros t st; simpl.
  - by repeat split.
  - destruct (convertToWebP codec (FileData.file fd) (t_quality t))
      as [result| |].
    + specialize (IH (fst (on_resolved t result st))
                     (snd (on_resolved t result st))).
      simpl in IH. exact IH.
    + apply IH.
    + by repeat split.
Qed.

(** A call of [convertAllFiles] keeps the working set and the quality. *)
Lemma convertAllFiles_outcomes_frame (st : State) :
  files (state_of (convertAllFiles codec st)) = files st ∧
  quality (state_of (convertAllFiles codec st)) = quality st.
Proof.
  unfold convertAllFiles, begin.
  destruct (files st) as [|fd rest] eqn:Hfiles; [done|]. cbn [t_files].
  pose proof (loop_frame (fd :: rest)
                {| t_files := fd :: rest; t_quality := quality st; t_i := 0;
                   t_results := []; t_totalOriginalSize := 0;
                   t_totalConvertedSize := 0 |}
                (setConvertedFiles []
                   (setProgress (Number.of_Z 0) (setConverting true st))))
    as H.
  destruct (loop codec (fd :: rest) _ _) as [st'|st'|st']; [done| |];
    cbn [state_of files quality setConvertedFiles setProgress setConverting]
      in *;
    destruct H as (Hf & Hq & _); split; congruence.
Qed.

(** X6. The three ways a call of [convertAllFiles] ends.  On an empty
    working set it returns at once and changes nothing.  Otherwise it
    runs to its end, with [converting] cleared and statistics written, or
    it stays suspended with [converting] set and the statistics of before.
    In no case does it change the working set or the quality. *)
Theorem convertAllFiles_outcomes (st : State) :
  files (state_of (convertAllFiles codec st)) = files st ∧
  quality (state_of (convertAllFiles codec st)) = quality st ∧
  match convertAllFiles codec st with
  | Returned st' => files st = [] ∧ st' = st
  | Completed st' =>
      files st ≠ [] ∧ converting st' = false ∧ stats st' ≠ None
  | Hung st' =>
      files st ≠ [] ∧ converting st' = true ∧ stats st' = stats st
  end.
Proof.
  unfold convertAllFiles, begin.
  destruct (files st) as [|fd rest] eqn:Hfiles;
    [cbn [state_of]; by rewrite Hfiles|].
  cbn [t_files].
  pose proof (loop_frame (fd :: rest)
                {| t_files := fd :: rest; t_quality := quality st; t_i := 0;
                   t_results := []; t_totalOriginalSize := 0;
                   t_totalConvertedSize := 0 |}
                (setConvertedFiles []
                   (setProgress (Number.of_Z 0) (setConverting true st))))
    as H.
  destruct (loop codec (fd :: rest) _ _) as [st'|st'|st']; [done| |];
    cbn [state_of files quality converting stats setConvertedFiles
         setProgress setConverting] in *;
    destruct H as (Hf & Hq & Hc & Hs); repeat split; try done; congruence.
Qed.

(** The collection after the loop is the one from before, followed by
    the results of a first part of the remaining files. *)
Lemma loop_prefix (rest : list FileData.t) (t : Task) (st : State) :
  ∃ n, convertedFiles (state_of (loop codec rest t st))
       = convertedFiles st
         ++ resolved_results codec (t_quality t) (take n rest).
Proof.
  revert t st. induction rest as [|fd rest IH]; intros t st; simpl.
  - exists 0%nat. unfold resolved_results. simpl. by rewrite app_nil_r.
  - destruct (convertToWebP codec (FileData.file fd) (t_quality t))
      as [result| |] eqn:Hfd.
    + destruct (IH (fst (on_resolved t result st))
                   (snd (on_resolved t result st))) as [n Hn].
      exists (S n). simpl in *. rewrite Hn, <- app_assoc.
      by rewrite resolved_results_cons, Hfd.
    + destruct (IH (on_rejected t) st) as [n Hn].
      exists (S n). simpl in *. rewrite Hn.
      by rewrite resolved_results_cons, Hfd.
    + exists 0%nat. unfold resolved_results. simpl. by rewrite app_nil_r.
Qed.

Lemma resolved_results_sublist (q : Z) (l : list FileData.t) :
  (ConversionResult.original <$> resolved_results codec q l)
    `sublist_of` (FileData.file <$> l) ∧
  Forall well_formed (resolved_results codec q l).
Proof.
  induction l as [|fd l [IH1 IH2]].
  - unfold resolved_results. simpl. split; [done | constructor].
  - rewrite resolved_results_cons.
    destruct (convertToWebP codec (FileData.file fd) q) as [r| |] eqn:Hfd.
    + apply convertToWebP_well_formed in Hfd as [Ho Hw].
      rewrite !fmap_cons, Ho. split; [by apply sublist_skip | by constructor].
    + rewrite fmap_cons. split; [by apply sublist_cons | done].
    + rewrite fmap_cons. split; [by apply sublist_cons | done].
Qed.

(** X7. After a call of [convertAllFiles] on a non-empty working set,
    completed or suspended, the collection follows the working set: the
    originals of its results are files of the working set, in the order
    of the working set and at most one result per entry, and every result
    is built from its original (its sizes are those of the two files, the
    converted file is of type [image/webp] and carries the original's name
    with the extension replaced, and the ratio is the one of its sizes). *)
Theorem results_follow_working_set (st : State) :
  files st ≠ [] →
  let st' := state_of (convertAllFiles codec st) in
  (ConversionResult.original <$> convertedFiles st')
    `sublist_of` (FileData.file <$> files st) ∧
  (length (convertedFiles st') ≤ length (files st))%nat ∧
  Forall well_formed (convertedFiles st').
Proof.
  intros Hne. cbv zeta. unfold convertAllFiles, begin.
  destruct (files st) as [|fd rest] eqn:Hfiles; [done|].
  cbn [t_files].
  destruct (loop_prefix (fd :: rest)
              {| t_files := fd :: rest; t_quality := quality st; t_i := 0;
                 t_results := []; t_totalOriginalSize := 0;
                 t_totalConvertedSize := 0 |}
              (setConvertedFiles []
                 (setProgress (Number.of_Z 0) (setConverting true st))))
    as [n Hn].
  rewrite Hn. cbn [convertedFiles setConvertedFiles t_quality app].
  destruct (resolved_results_sublist (quality st) (take n (fd :: rest)))
    as [Hsub Hwf].
  assert (Hall : (ConversionResult.original
                    <$> resolved_results codec (quality st)
                          (take n (fd :: rest)))
                 `sublist_of` (FileData.file <$> fd :: rest)).
  { etrans; [exact Hsub|]. apply fmap_sublist, sublist_take. }
  split; [exact Hall|]. split; [|exact Hwf].
  apply sublist_length in Hall. by rewrite !length_fmap in Hall.
Qed.

End Outcomes.

Lemma results_follow_working_set_witness :
  (ConversionResult.original
     <$> convertedFiles (state_of (convertAllFiles codec_partial broken_batch)))
    `sublist_of` (FileData.file <$> files broken_batch) ∧
  (length (convertedFiles (state_of (convertAllFiles codec_partial broken_batch)))
   ≤ length (files broken_batch))%nat ∧
  Forall well_formed
    (convertedFiles (state_of (convertAllFiles codec_partial broken_batch))).
Proof.
  apply (results_follow_working_set codec_partial broken_batch). discriminate.
Defined.

(** ** The page over time *)

Section PageInvariants.

Variable codec : File.t → Number.number → Behaviour.

Local Arguments ratio : simpl never.
Local Arguments percent : simpl never.
Local Arguments Number.of_Z : simpl never.

Lemma fileData_accepted (random_id createObjectURL : nat → string) (n : nat)
    (imageFiles : list File.t) :
  Forall (λ f, is_image f = true) imageFiles →
  Forall accepted (fileData random_id createObjectURL n imageFiles).
Proof.
  intros H. revert n. induction H as [|f l Hf _ IH]; intros n; simpl;
    constructor; [by split | apply IH].
Qed.

Lemma resume_files (t t' : Task) (st st' : State) :
  resume codec t st = Some (t', st') →
  t_files t' = t_files t ∧ t_quality t' = t_quality t ∧
  files st' = files st.
Proof.
  unfold resume. destruct (t_files t !! t_i t) as [fd|]; [|discriminate].
  destruct (convertToWebP codec (FileData.file fd) (t_quality t));
    [| |discriminate]; intros [= <- <-]; by repeat split.
Qed.

Lemma accepted_handle (w : World) (e : Event) :
  Forall accepted (files (ui w)) ∧
  Forall (λ t, Forall accepted (t_files t)) (tasks w) →
  Forall accepted (files (ui (handle codec w e))) ∧
  Forall (λ t, Forall accepted (t_files t)) (tasks (handle codec w e)).
Proof.
  intros [Hf Ht]. destruct w as [st ts]. cbn [ui tasks] in *.
  destruct e; cbn [handle ui tasks].
  - split; [|exact Ht]. destruct selectedFiles as [selected|]; [|exact Hf].
    unfold handleFileSelect. cbn [files setFiles].
    apply Forall_app. split; [exact Hf|].
    apply fileData_accepted, Forall_forall.
    by intros f [? _]%list_elem_of_filter.
  - split; [|exact Ht]. unfold removeFile. cbn [files setFiles].
    apply Forall_forall. intros f [_ Hin]%list_elem_of_filter.
    by eapply Forall_forall in Hf.
  - by split.
  - unfold click, call, begin. cbn [ui tasks].
    destruct (converting st); [by split|].
    destruct (files st) as [|fd rest] eqn:Hfiles; cbn [ui tasks].
    { rewrite Hfiles. by split. }
    cbn [files setConvertedFiles setProgress setConverting].
    rewrite Hfiles. split; [exact Hf|].
    apply Forall_app. split; [exact Ht|].
    constructor; [exact Hf | constructor].
  - unfold settle. cbn [ui tasks].
    destruct (ts !! n) as [t|] eqn:Hn; [|by split].
    destruct (resume codec t st) as [[t' st']|] eqn:Hres; [|by split].
    apply resume_files in Hres as (Hft & _ & Hfs).
    assert (Hacc : Forall accepted (t_files t')).
    { rewrite Hft. by eapply (Forall_lookup_1 _ _ _ _ Ht Hn). }
    destruct (t_i t' <? length (t_files t'))%nat; cbn [ui tasks].
    + rewrite Hfs. split; [exact Hf|]. by apply Forall_insert.
    + unfold finish. cbn [files setConverting setStats]. rewrite Hfs.
      split; [exact Hf|]. by apply Forall_delete.
Qed.

(** X8. On every page the events can lead to, the working set and the
    files of a batch in flight are entries as [handleFileSelect] builds
    them: images that passed its filter (a type that begins with [image/],
    a name that does not end with [.webp]), each with the size of its
    file.  No other file reaches [convertToWebP]. *)
Theorem working_set_holds_accepted_images (w : World) :
  reachable codec w →
  Forall accepted (files (ui w)) ∧
  Forall (λ t, Forall accepted (t_files t)) (tasks w).
Proof.
  induction 1 as [|w e _ IH]; [by split | by apply accepted_handle].
Qed.

Lemma idle_handle (w : World) (e : Event) :
  consistent codec w →
  (tasks w = [] →
   match stats (ui w) with
   | None => convertedFiles (ui w) = []
   | Some s => stats_of (convertedFiles (ui w)) s
   end) →
  tasks (handle codec w e) = [] →
  match stats (ui (handle codec w e)) with
  | None => convertedFiles (ui (handle codec w e)) = []
  | Some s => stats_of (convertedFiles (ui (handle codec w e))) s
  end.
Proof.
  intros Hw Hidle. destruct w as [st ts]. unfold consistent in Hw.
  cbn [ui tasks] in *. destruct e; cbn [handle ui tasks].
  - destruct selectedFiles; exact Hidle.
  - exact Hidle.
  - exact Hidle.
  - unfold click, call, begin. cbn [ui tasks].
    destruct (converting st); [exact Hidle|].
    destruct (files st) as [|fd rest]; [exact Hidle|].
    cbn [tasks]. intros H. apply app_nil in H as [_ H]. discriminate.
  - unfold settle. cbn [ui tasks].
    destruct ts as [|t [|]]; [by destruct n | | done].
    destruct n as [|n]; [|done]. cbn [lookup list_lookup].
    destruct Hw as (_ & _ & Hcf & Ho & Hs & _).
    unfold resume.
    destruct (t_files t !! t_i t) as [fd|]; [|done].
    destruct (convertToWebP codec (FileData.file fd) (t_quality t))
      as [result| |]; [| |done].
    + cbn [on_resolved t_i t_files].
      destruct (S (t_i t) <? length (t_files t))%nat; cbn [ui tasks]; [done|].
      intros _. unfold finish, stats_of.
      cbn [stats convertedFiles setConverting setStats setConvertedFiles
           setProgress Stats.totalOriginalSize Stats.totalConvertedSize
           Stats.totalSavings Stats.compressionRatio
           t_totalOriginalSize t_totalConvertedSize].
      rewrite !total_app, Hcf, Ho, Hs. by repeat split.
    + cbn [on_rejected t_i t_files].
      destruct (S (t_i t) <? length (t_files t))%nat; cbn [ui tasks]; [done|].
      intros _. unfold finish, stats_of, on_rejected. simpl.
      rewrite Hcf, Ho, Hs. by repeat split.
Qed.

(** Whenever no batch is running, the statistics, if any are shown, are
    those of the results shown, on the integer totals of the model. *)
Lemma idle_statistics_invariant (w : World) :
  reachable codec w → ¬ running w →
  match stats (ui w) with
  | None => convertedFiles (ui w) = []
  | Some s => stats_of (convertedFiles (ui w)) s
  end.
Proof.
  intros Hw Hidle.
  assert (Hno : tasks w = []).
  { unfold running in Hidle. destruct (tasks w); [done|].
    exfalso. by apply Hidle. }
  clear Hidle. revert Hno.
  induction Hw as [|w e Hw IH]; [by intros _|].
  apply idle_handle; [by apply reachable_consistent | exact IH].
Qed.

(** X10. While a batch is running, what the user does (selecting or
    removing files, moving the quality slider, clicking the convert
    button) changes neither the files and the quality the batch works on
    nor its place in them, and leaves the results, the progress and the
    statistics shown as they are. *)
Theorem user_events_leave_running_batch (w : World) (t : Task) (e : Event) :
  reachable codec w → tasks w = [t] → user_event e →
  tasks (handle codec w e) = [t] ∧
  converting (ui (handle codec w e)) = true ∧
  convertedFiles (ui (handle codec w e)) = convertedFiles (ui w) ∧
  progress (ui (handle codec w e)) = progress (ui w) ∧
  stats (ui (handle codec w e)) = stats (ui w).
Proof.
  intros Hw%reachable_consistent Ht He. destruct w as [st ts].
  unfold consistent in Hw. cbn [ui tasks] in *. subst ts.
  destruct Hw as (Hc & _). destruct e; cbn [handle ui tasks]; [| | | |done].
  - by destruct selectedFiles.
  - done.
  - done.
  - unfold click. cbn [ui]. by rewrite Hc.
Qed.

Lemma stuck_handle (w : World) (t : Task) (fd : FileData.t) (e : Event) :
  tasks w = [t] → converting (ui w) = true →
  t_files t !! t_i t = Some fd →
  convertToWebP codec (FileData.file fd) (t_quality t) = Pending →
  tasks (handle codec w e) = [t] ∧
  converting (ui (handle codec w e)) = true ∧
  convertedFiles (ui (handle codec w e)) = convertedFiles (ui w) ∧
  progress (ui (handle codec w e)) = progress (ui w) ∧
  stats (ui (handle codec w e)) = stats (ui w).
Proof.
  intros Ht Hc Hfd Hpending. destruct w as [st ts]. cbn [ui tasks] in *.
  subst ts. destruct e; cbn [handle ui tasks].
  - by destruct selectedFiles.
  - done.
  - done.
  - unfold click. cbn [ui]. by rewrite Hc.
  - unfold settle, resume. cbn [ui tasks].
    destruct n as [|n]; [|done]. cbn [lookup list_lookup].
    by rewrite Hfd, Hpending.
Qed.

(** X11. A batch that has come to a file whose promise never settles (an
    image that cannot be decoded, an encoder without output) blocks the
    page for good: whatever events follow, that same call stays in
    flight, [converting] stays set, so that the convert button stays
    disabled, and the results, the progress and the statistics shown no
    longer change. *)
Theorem pending_file_blocks_page (w : World) (t : Task) (fd : FileData.t)
    (events : list Event) :
  reachable codec w → tasks w = [t] →
  t_files t !! t_i t = Some fd →
  convertToWebP codec (FileData.file fd) (t_quality t) = Pending →
  tasks (run codec w events) = [t] ∧
  converting (ui (run codec w events)) = true ∧
  convertedFiles (ui (run codec w events)) = convertedFiles (ui w) ∧
  progress (ui (run codec w events)) = progress (ui w) ∧
  stats (ui (run codec w events)) = stats (ui w).
Proof.
  intros Hw%reachable_consistent Ht Hfd Hpending.
  assert (Hc : converting (ui w) = true).
  { unfold consistent in Hw. rewrite Ht in Hw. by destruct Hw. }
  clear Hw. revert w Ht Hc.
  induction events as [|e events IH]; intros w Ht Hc; [done|].
  unfold run in *. cbn [foldl].
  destruct (stuck_handle w t fd e Ht Hc Hfd Hpending)
    as (Ht' & Hc' & Hcf & Hp & Hs).
  destruct (IH _ Ht' Hc') as (? & ? & ? & ? & ?).
  repeat split; congruence.
Qed.

End PageInvariants.

Lemma working_set_holds_accepted_images_witness :
  Forall accepted (files (ui busy_page)) ∧
  Forall (λ t, Forall accepted (t_files t)) (tasks busy_page).
Proof.
  apply (working_set_holds_accepted_images codec_400 busy_page).
  apply reachable_handle, reachable_handle, reachable_start.
Defined.

Lemma user_events_leave_running_batch_witness :
  tasks (handle codec_400 busy_page (Remove "id")) = tasks busy_page ∧
  converting (ui (handle codec_400 busy_page (Remove "id"))) = true ∧
  files (ui (handle codec_400 busy_page (Remove "id"))) = [].
Proof.
  assert (Hreach : reachable codec_400 busy_page)
    by apply reachable_handle, reachable_handle, reachable_start.
  pose proof (λ t Ht, user_events_leave_running_batch codec_400 busy_page t
                        (Remove "id") Hreach Ht I) as H.
  destruct (H _ eq_refl) as (Ht & Hc & _).
  split; [exact Ht|]. split; [exact Hc | reflexivity].
Defined.

Lemma pending_file_blocks_page_witness :
  tasks (run codec_partial blocked_page
           [Settle 0; Click; Remove "id"; Quality 80; Settle 0; Click])
  = tasks blocked_page ∧
  converting (ui (run codec_partial blocked_page
                    [Settle 0; Click; Remove "id"; Quality 80; Settle 0; Click]))
  = true.
Proof.
  assert (Hreach : reachable codec_partial blocked_page)
    by apply reachable_handle, reachable_handle, reachable_start.
  pose proof (λ t fd Ht Hfd Hp,
                pending_file_blocks_page codec_partial blocked_page t fd
                  [Settle 0; Click; Remove "id"; Quality 80; Settle 0; Click]
                  Hreach Ht Hfd Hp) as H.
  destruct (H _ _ eq_refl eq_refl eq_refl) as (Ht & Hc & _).
  split; [exact Ht | exact Hc].
Defined.

(** ** Downloads *)

Section Downloads.

Variable mint : nat → string.

Lemma enqueue_last (timer : Timer.t) (queue : list Timer.t) :
  Forall (λ u, Timer.delay u ≤ Timer.delay timer) queue →
  enqueue timer queue = queue ++ [timer].
Proof.
  induction 1 as [|u queue Hu _ IH]; [reflexivity|]. simpl.
  destruct (Z.leb_spec (Timer.delay u) (Timer.delay timer)); [|lia].
  by rewrite IH.
Qed.

Lemma queue_of_snoc (timers : list Timer.t) (timer : Timer.t) :
  queue_of (timers ++ [timer]) = enqueue timer (queue_of timers).
Proof. unfold queue_of. by rewrite foldl_app. Qed.

(** Timers that are set with delays that grow with the index fire in the
    order in which they were set. *)
Lemma queue_of_imap {A} (callback : A → Dom.t → Dom.t) (l : list A) :
  queue_of (imap (λ index x, {| Timer.delay := Z.of_nat index * 100;
                                Timer.callback := callback x |}) l)
  = imap (λ index x, {| Timer.delay := Z.of_nat index * 100;
                        Timer.callback := callback x |}) l.
Proof.
  induction l as [|x l IH] using rev_ind; [reflexivity|].
  rewrite imap_app. cbn [imap]. rewrite queue_of_snoc, IH.
  apply enqueue_last, Forall_forall. intros u Hu.
  apply list_elem_of_lookup in Hu as [i Hi].
  rewrite list_lookup_imap in Hi.
  destruct (l !! i) as [y|] eqn:Hy; [|discriminate].
  apply lookup_lt_Some in Hy. injection Hi as <-. simpl. lia.
Qed.

Lemma downloadAllFiles_imap (st : State) :
  downloadAllFiles mint st
  = imap (λ index result, {| Timer.delay := Z.of_nat index * 100;
                             Timer.callback := download_one mint result |})
         (convertedFiles st).
Proof. unfold downloadAllFiles. by destruct (convertedFiles st). Qed.

Lemma fire_imap {A} (delay : nat → Z) (callback : A → Dom.t → Dom.t)
    (l : list A) (dom : Dom.t) :
  fire (imap (λ index x, {| Timer.delay := delay index;
                            Timer.callback := callback x |}) l) dom
  = foldl (λ dom x, callback x dom) dom l.
Proof.
  revert delay dom. induction l as [|x l IH]; intros delay dom; [reflexivity|].
  rewrite imap_cons. unfold fire in *. cbn [foldl Timer.callback].
  apply (IH (delay ∘ S)).
Qed.

Lemma download_one_calls (result : ConversionResult.t) (dom : Dom.t) :
  download_one mint result dom
  = {| Dom.minted := S (Dom.minted dom);
       Dom.calls :=
         Dom.calls dom ++ download_calls "" (mint (Dom.minted dom)) result |}.
Proof. reflexivity. Qed.

Lemma foldl_download_one (l : list ConversionResult.t) (dom : Dom.t) :
  foldl (λ dom result, download_one mint result dom) dom l
  = {| Dom.minted := Dom.minted dom + length l;
       Dom.calls :=
         Dom.calls dom ++
         mjoin (imap (λ i result,
                        download_calls "" (mint (Dom.minted dom + i)) result) l) |}.
Proof.
  revert dom. induction l as [|r l IH]; intros dom.
  - simpl. rewrite Nat.add_0_r, app_nil_r. by destruct dom.
  - cbn [foldl]. rewrite IH, download_one_calls. cbn [Dom.minted Dom.calls].
    rewrite imap_cons. cbn [mjoin list_join length].
    rewrite Nat.add_0_r, <- app_assoc. f_equal; [lia|]. do 3 f_equal.
    apply imap_ext. intros i x _. simpl. do 2 f_equal. lia.
Qed.

(** What the browser is asked to do once every timer has fired. *)
Lemma downloads_log (st : State) (dom : Dom.t) :
  Dom.calls (fire (queue_of (downloadAllFiles mint st)) dom)
  = Dom.calls dom ++
    mjoin (imap (λ i result,
                   download_calls "" (mint (Dom.minted dom + i)) result)
                (convertedFiles st)).
Proof.
  rewrite downloadAllFiles_imap, queue_of_imap, (fire_imap (λ i, Z.of_nat i * 100)).
  by rewrite foldl_download_one.
Qed.

Lemma clicked_app (a b : list Dom.Call) :
  clicked (a ++ b) = clicked a ++ clicked b.
Proof. unfold clicked. apply omap_app. Qed.

Lemma clicked_blocks (display : string) (url : nat → string)
    (l : list ConversionResult.t) :
  clicked (mjoin (imap (λ i result, download_calls display (url i) result) l))
  = imap (λ i result,
            {| Dom.href := url i;
               Dom.download := File.name (ConversionResult.converted result);
               Dom.display := display |}) l.
Proof.
  revert url. induction l as [|r l IH]; intros url; [reflexivity|].
  rewrite !imap_cons. cbn [mjoin list_join]. rewrite clicked_app.
  change (clicked (download_calls display (url 0%nat) r))
    with [{| Dom.href := url 0%nat;
             Dom.download := File.name (ConversionResult.converted r);
             Dom.display := display |}].
  cbn [app]. f_equal. exact (IH (λ i, url (S i))).
Qed.

(** X12. [downloadAllFiles] sets one timer per result, 100 ms apart, and
    the timers fire in the order of the collection.  When they have all
    fired, the browser has been handed, for each result in turn, a URL
    created for its converted file, an anchor with that URL and the name
    of the converted file, appended to the body, clicked, removed again,
    and the URL revoked: the anchors clicked are those of the results, in
    order, one each. *)
Theorem downloadAllFiles_downloads (st : State) (dom : Dom.t) :
  let dom' := fire (queue_of (downloadAllFiles mint st)) dom in
  queue_of (downloadAllFiles mint st) = downloadAllFiles mint st ∧
  Timer.delay <$> downloadAllFiles mint st
    = (λ i, Z.of_nat i * 100) <$> seq 0 (length (convertedFiles st)) ∧
  Dom.calls dom'
    = Dom.calls dom ++
      mjoin (imap (λ i result,
                     download_calls "" (mint (Dom.minted dom + i)) result)
                  (convertedFiles st)) ∧
  clicked (Dom.calls dom')
    = clicked (Dom.calls dom) ++
      imap (λ i result,
              {| Dom.href := mint (Dom.minted dom + i);
                 Dom.download := File.name (ConversionResult.converted result);
                 Dom.display := "" |})
           (convertedFiles st).
Proof.
  cbv zeta. split; [|split; [|split]].
  - rewrite downloadAllFiles_imap. apply queue_of_imap.
  - rewrite downloadAllFiles_imap.
    apply list_eq. intros i.
    rewrite !list_lookup_fmap, list_lookup_imap.
    destruct (convertedFiles st !! i) as [r|] eqn:Hi.
    + apply lookup_lt_Some in Hi as Hlt.
      by rewrite (lookup_seq_lt _ _ _ Hlt).
    + apply lookup_ge_None in Hi. by rewrite lookup_seq_ge.
  - apply downloads_log.
  - by rewrite downloads_log, clicked_app, clicked_blocks.
Qed.

Lemma live_urls_app (a : list Dom.Call) (display url : string)
    (result : ConversionResult.t) :
  live_urls a = [] → live_urls (a ++ download_calls display url result) = [].
Proof.
  unfold live_urls. rewrite foldl_app. intros ->. simpl.
  rewrite filter_cons_False by (intros H; by apply H). reflexivity.
Qed.

Lemma attached_app (a : list Dom.Call) (display url : string)
    (result : ConversionResult.t) :
  attached a = [] → attached (a ++ download_calls display url result) = [].
Proof.
  unfold attached. rewrite foldl_app. intros ->. simpl.
  rewrite filter_cons_False by (intros H; by apply H). reflexivity.
Qed.

Lemma blocks_clean (display : string) (url : nat → string)
    (l : list ConversionResult.t) :
  live_urls (mjoin (imap (λ i result, download_calls display (url i) result) l))
  = [] ∧
  attached (mjoin (imap (λ i result, download_calls display (url i) result) l))
  = [].
Proof.
  induction l as [|r l [IH1 IH2]] using rev_ind; [by split|].
  rewrite imap_app, join_app. cbn [imap mjoin list_join].
  rewrite app_nil_r. split; [by apply live_urls_app | by apply attached_app].
Qed.

(** X13. The downloads leave nothing behind: when every timer of a call
    of [downloadAllFiles] has fired, every object URL it created has been
    revoked and every anchor it appended to the body has been removed. *)
Theorem downloadAllFiles_cleans_up (st : State) :
  let dom' := fire (queue_of (downloadAllFiles mint st)) Dom.start in
  live_urls (Dom.calls dom') = [] ∧
  attached (Dom.calls dom') = [] ∧
  length (clicked (Dom.calls dom')) = length (convertedFiles st).
Proof.
  cbv zeta. rewrite downloads_log. cbn [Dom.calls Dom.start app Dom.minted].
  destruct (blocks_clean "" (λ i, mint (0 + i)) (convertedFiles st)) as [Hl Ha].
  split; [exact Hl|]. split; [exact Ha|].
  by rewrite clicked_blocks, length_imap.
Qed.

End Downloads.

Lemma downloadAllFiles_downloads_witness :
  clicked (Dom.calls
             (fire (queue_of
                      (downloadAllFiles (λ n, "blob:" +:+ Number.digits (Z.of_nat n))
                         (state_of (convertAllFiles codec_two_fifths three_images))))
                   Dom.start))
  = [{| Dom.href := "blob:0"; Dom.download := "a.webp"; Dom.display := "" |};
     {| Dom.href := "blob:1"; Dom.download := "b.webp"; Dom.display := "" |};
     {| Dom.href := "blob:2"; Dom.download := "c.webp"; Dom.display := "" |}].
Proof.
  pose proof (downloadAllFiles_downloads
                (λ n, "blob:" +:+ Number.digits (Z.of_nat n))
                (state_of (convertAllFiles codec_two_fifths three_images))
                Dom.start) as (_ & _ & _ & H).
  exact H.
Defined.

Section DownloadsAfterBatch.

Variable codec : File.t → Number.number → Behaviour.
Variable mint : nat → string.

Local Arguments resolved_results : simpl never.

(** X14. The downloads offered after a batch, completed or suspended:
    one per result of the collection, in order, each under the name of
    its original with the extension replaced by [.webp] (and under the
    original's own name when that has no extension); never more than
    there were files in the working set that the batch was started on. *)
Theorem downloads_named_after_originals (st : State) :
  files st ≠ [] →
  let st' := state_of (convertAllFiles codec st) in
  let dom' := fire (queue_of (downloadAllFiles mint st')) Dom.start in
  Dom.download <$> clicked (Dom.calls dom')
  = (λ r, Str.replace_ext (File.name (ConversionResult.original r)) ".webp")
    <$> convertedFiles st' ∧
  (length (clicked (Dom.calls dom')) ≤ length (files st))%nat.
Proof.
  intros Hne. cbv zeta. rewrite downloads_log.
  cbn [Dom.calls Dom.start app]. rewrite clicked_blocks, length_imap.
  unfold convertAllFiles, begin.
  destruct (files st) as [|fd rest] eqn:Hfiles; [done|]. cbn [t_files].
  destruct (loop_prefix codec (fd :: rest)
              {| t_files := fd :: rest; t_quality := quality st; t_i := 0;
                 t_results := []; t_totalOriginalSize := 0;
                 t_totalConvertedSize := 0 |}
              (setConvertedFiles []
                 (setProgress (Number.of_Z 0) (setConverting true st))))
    as [n Hn].
  rewrite Hn. cbn [convertedFiles setConvertedFiles t_quality app].
  destruct (resolved_results_sublist codec (quality st) (take n (fd :: rest)))
    as [Hsub Hwf].
  split.
  - apply list_eq. intros i.
    rewrite !list_lookup_fmap, list_lookup_imap.
    destruct (resolved_results codec (quality st) (take n (fd :: rest)) !! i)
      as [r|] eqn:Hi; [|reflexivity].
    cbn [fmap option_fmap option_map Dom.download]. f_equal.
    eapply Forall_lookup_1 in Hwf; [|exact Hi].
    by destruct Hwf as (_ & _ & _ & Hname & _).
  - apply sublist_length in Hsub. rewrite !length_fmap in Hsub.
    etrans; [exact Hsub|]. rewrite length_take. cbn [length]. lia.
Qed.

End DownloadsAfterBatch.

Lemma downloads_named_after_originals_witness :
  Dom.download
    <$> clicked (Dom.calls
                   (fire (queue_of
                            (downloadAllFiles (λ _, "blob:x")
                               (state_of (convertAllFiles codec_partial
                                            broken_batch))))
                         Dom.start))
  = ["a.webp"].
Proof.
  destruct (downloads_named_after_originals codec_partial (λ _, "blob:x")
              broken_batch) as [H _]; [discriminate|].
  exact H.
Defined.

(** ** The compression ratio *)

Section Ratio.

Import Round.

Local Arguments Number.of_Z : simpl never.

Lemma binary_round_aux_opp (m e : Z) (l : location) :
  binary_round_aux Number.prec Number.emax true m e l
  = SFopp (binary_round_aux Number.prec Number.emax false m e l).
Proof.
  unfold binary_round_aux.
  destruct (shr_fexp Number.prec Number.emax m e l) as [mrs e'].
  destruct (shr_fexp Number.prec Number.emax _ e' loc_Exact) as [mrs' e''].
  destruct (shr_m mrs'); [reflexivity| |reflexivity].
  by destruct (e'' <=? _).
Qed.

Lemma binary_round_opp (p : positive) (e : Z) :
  binary_round Number.prec Number.emax true p e
  = SFopp (binary_round Number.prec Number.emax false p e).
Proof.
  unfold binary_round. destruct (shl_align _ _ _). apply binary_round_aux_opp.
Qed.

Lemma of_Z_opp (v : Z) : 0 < v → Number.of_Z (- v) = SFopp (Number.of_Z v).
Proof.
  intros Hv. destruct v as [|p|p]; [lia| |lia].
  unfold Number.of_Z, binary_normalize. simpl Z.opp. apply binary_round_opp.
Qed.

(** An integer below 2^53 that is given with trailing zero bits is
    rounded to the number of the integer. *)
Lemma binary_round_canonical (p : positive) (e v : Z) :
  0 < v < 2 ^ 53 → -52 ≤ e ≤ 0 → Z.pos p = v * 2 ^ (- e) →
  binary_round Number.prec Number.emax false p e = Number.of_Z v.
Proof.
  intros Hv He Hp.
  destruct (of_Z_canonical v Hv) as (m & -> & Hm & Hlm).
  assert (Hlv : 0 ≤ Z.log2 v < 53).
  { split; [apply Z.log2_nonneg | apply Z.log2_lt_pow2; lia]. }
  assert (Hlp : Z.log2 (Z.pos p) = - e + Z.log2 v).
  { rewrite Hp. apply Z.log2_mul_pow2; lia. }
  unfold binary_round, shl_align. rewrite digits2_log2, Hlp.
  rewrite fexp_normal by lia.
  destruct (- e + Z.log2 v + 1 + e - 53 - e) as [|k|k] eqn:Hk.
  - assert (p = m).
    { apply Pos2Z.inj. rewrite Hp, Hm. f_equal. f_equal. lia. }
    subst p. replace (Z.log2 v - 52) with e by lia.
    apply binary_round_aux_exact; [rewrite digits2_log2|]; lia.
  - rewrite binary_round_aux_rounded by lia.
    assert (Hpm : Z.pos p = Z.pos m * 2 ^ Z.pos k).
    { rewrite Hp, Hm, <- Z.mul_assoc, <- Z.pow_add_r by lia.
      f_equal. f_equal. lia. }
    assert (Hpk : 0 < 2 ^ Z.pos k) by (apply Z.pow_pos_nonneg; lia).
    pose proof (log2_52 _ Hlm) as Bm.
    assert (Hr : rounded (key (Z.pos p) loc_Exact) e
                 = (Z.pos m, Z.log2 v - 52)).
    { unfold rounded. rewrite key_div4, Hlp.
      replace (- e + Z.log2 v - 52) with (Z.pos k) by lia.
      unfold key. cbn [code]. rewrite Z.add_0_r, <- kdiv_one.
      rewrite kdiv_shift, Z2Nat.id, Z.mul_1_l by lia.
      assert (Hkd : kdiv (Z.pos p) (2 ^ Z.pos k) = 4 * Z.pos m).
      { unfold kdiv. rewrite Hpm, Z.div_mul, Z.mod_mul by lia. simpl. lia. }
      rewrite Hkd.
      assert (Hrne : rne (4 * Z.pos m) = Z.pos m).
      { unfold rne. rewrite (Z.mul_comm 4), Z.div_mul, Z.mod_mul by lia.
        reflexivity. }
      rewrite Hrne.
      destruct (Z.eqb_spec (Z.pos m) (2 ^ 53)) as [|_]; [lia|].
      f_equal. lia. }
    rewrite Hr. reflexivity.
  - replace (- e + Z.log2 v + 1 + e - 53) with (Z.log2 v - 52) by lia.
    assert (Pos.iter xO p k = m).
    { apply Pos2Z.inj. rewrite iter_xO, Hp, Hm, <- Z.mul_assoc.
      rewrite <- Z.pow_add_r by lia. f_equal. f_equal. lia. }
    subst m. apply binary_round_aux_exact; [rewrite digits2_log2|]; lia.
Qed.

Lemma shl_align_fst (m : positive) (e e' : Z) :
  e' ≤ e → Z.pos (fst (shl_align m e e')) = Z.pos m * 2 ^ (e - e').
Proof.
  intros He. unfold shl_align. destruct (e' - e) as [|k|k] eqn:Hk; [|lia|].
  - replace (e - e') with 0 by lia. simpl. lia.
  - cbn [fst]. rewrite iter_xO. f_equal. f_equal. lia.
Qed.

(** The difference of two sizes below 2^53 is computed exactly. *)
Lemma sub_of_Z (o c : Z) :
  0 ≤ o < 2 ^ 53 → 0 ≤ c < 2 ^ 53 →
  Number.sub (Number.of_Z o) (Number.of_Z c) = Number.of_Z (o - c).
Proof.
  intros Ho Hc.
  destruct (Z.eq_dec c 0) as [-> | Hc0].
  { rewrite Z.sub_0_r. change (Number.of_Z 0) with (S754_zero false).
    unfold Number.sub, SFsub. by destruct (Number.of_Z o) as [[]| | |]. }
  destruct (Z.eq_dec o 0) as [-> | Ho0].
  { rewrite Z.sub_0_l, of_Z_opp by lia.
    destruct (of_Z_canonical c) as (m & -> & _); [lia|]. reflexivity. }
  destruct (of_Z_canonical o) as (mo & Eo & Hmo & Hlmo); [lia|].
  destruct (of_Z_canonical c) as (mc & Ec & Hmc & Hlmc); [lia|].
  assert (Hlo : 0 ≤ Z.log2 o < 53).
  { split; [apply Z.log2_nonneg | apply Z.log2_lt_pow2; lia]. }
  assert (Hlc : 0 ≤ Z.log2 c < 53).
  { split; [apply Z.log2_nonneg | apply Z.log2_lt_pow2; lia]. }
  rewrite Eo, Ec. unfold Number.sub, SFsub. cbv zeta.
  set (ez := Z.min (Z.log2 o - 52) (Z.log2 c - 52)).
  assert (Hez : -52 ≤ ez ≤ 0 ∧ ez ≤ Z.log2 o - 52 ∧ ez ≤ Z.log2 c - 52)
    by (subst ez; lia).
  rewrite !shl_align_fst by lia. cbn [cond_Zopp].
  assert (Hso : Z.pos mo * 2 ^ (Z.log2 o - 52 - ez) = o * 2 ^ (- ez)).
  { rewrite Hmo, <- Z.mul_assoc, <- Z.pow_add_r by lia. f_equal. f_equal. lia. }
  assert (Hsc : Z.pos mc * 2 ^ (Z.log2 c - 52 - ez) = c * 2 ^ (- ez)).
  { rewrite Hmc, <- Z.mul_assoc, <- Z.pow_add_r by lia. f_equal. f_equal. lia. }
  rewrite Hso, Hsc, <- Z.mul_sub_distr_r.
  assert (Hpw : 0 < 2 ^ (- ez)) by (apply Z.pow_pos_nonneg; lia).
  destruct (Z.lt_total o c) as [Hlt | [Heq | Hgt]].
  - destruct ((o - c) * 2 ^ (- ez)) as [|p|p] eqn:Hd; [nia|nia|].
    unfold binary_normalize. rewrite binary_round_opp.
    rewrite (binary_round_canonical p ez (c - o)) by (lia || nia).
    rewrite <- of_Z_opp by lia. f_equal. lia.
  - subst c. rewrite Z.sub_diag. reflexivity.
  - destruct ((o - c) * 2 ^ (- ez)) as [|p|p] eqn:Hd; [nia| |nia].
    unfold binary_normalize. apply binary_round_canonical; lia.
Qed.

(** [(a / n) * 100] for [0 < a <= n]: a number of at most 100. *)
Lemma percent_shape (a n : Z) :
  0 < a → a ≤ n → n < 2 ^ 53 →
  ∃ P, percent a n = finite P ∧ Z.log2 (fst P) = 52 ∧
       lexle P (7036874417766400, -46).
Proof.
  intros Ha Han Hn. destruct (Z.eq_dec a n) as [-> | Hne].
  - exists (7036874417766400, -46). unfold percent.
    rewrite percent_full by lia.
    split; [reflexivity|]. split; [reflexivity|]. right. by split.
  - unfold percent.
    destruct (div_of_Z_below_1 a n Ha ltac:(lia) Hn) as (A & -> & Hl & HE & Hle).
    rewrite times_100 by done.
    pose proof (times_100_mono A (2 ^ 53 - 1, -53) Hl eq_refl Hle) as Hm.
    assert (HK : 52 ≤ Z.log2 (4 * (fst A * 7036874417766400) / 4)).
    { apply log2_52 in Hl.
      replace (4 * (fst A * 7036874417766400) / 4)
        with (fst A * 7036874417766400)
        by (Z.to_euclidean_division_equations; lia).
      apply Z.log2_le_pow2; lia. }
    destruct (rounded_shape _ (snd A - 46) HK) as [Hs _].
    eexists. split; [reflexivity|]. split; [exact Hs|].
    eapply lexle_trans; [exact Hm|]. vm_compute.
    right. split; [reflexivity | discriminate].
Qed.

(** The tenths that [toFixed(1)] shows for a number of at most 100. *)
Lemma toFixed_1_shape (P : Z * Z) :
  Z.log2 (fst P) = 52 → lexle P (7036874417766400, -46) →
  ∃ t, 0 ≤ t ≤ 1000 ∧ Number.toFixed 1 (finite P) = Number.fixed 1 t.
Proof.
  destruct P as [M E]. cbn [fst snd]. intros HM%log2_52 Hle.
  unfold lexle in Hle. cbn [fst snd] in Hle.
  assert (HE : E < 0) by lia.
  set (d := 2 ^ (- E)).
  assert (Hd : 2 ^ 46 ≤ d).
  { subst d. apply Z.pow_le_mono_r; lia. }
  assert (HMd : M ≤ 100 * d).
  { destruct Hle as [Hlt | [-> Hm]].
    - assert (2 ^ 47 ≤ d) by (subst d; apply Z.pow_le_mono_r; lia). lia.
    - subst d. simpl in *. lia. }
  unfold finite, Number.toFixed, Number.frac. cbn [fst snd].
  destruct (Z.leb_spec 0 E) as [|_]; [lia|].
  rewrite Z2Pos.id by lia. fold d.
  destruct (Z.leb_spec (10 ^ 21 * d) M) as [Hbig|_]; [lia|].
  exists ((2 * M * 10 ^ Z.of_nat 1 + d) / (2 * d)).
  split; [|reflexivity].
  change (10 ^ Z.of_nat 1) with 10. split.
  - apply Z.div_pos; lia.
  - assert ((2 * M * 10 + d) / (2 * d) < 1001); [|lia].
    apply Z.div_lt_upper_bound; lia.
Qed.

(** X15. The compression ratio of a conversion that did not make the
    file larger (a converted size of at most the original size, which is
    not 0; sizes below 2^53) reads as a number from [0.0] to [100.0]
    with one decimal: the digits of a whole part of at most 100, a point,
    and one digit, which is 0 when the whole part is 100. *)
Theorem ratio_of_shrunk_file (original converted : Z) :
  0 < original < 2 ^ 53 → 0 ≤ converted ≤ original →
  ∃ whole tenth, 0 ≤ whole ≤ 100 ∧ 0 ≤ tenth ≤ 9 ∧
    (whole = 100 → tenth = 0) ∧
    ratio original converted
    = Number.digits whole +:+ "." +:+ Number.digits tenth.
Proof.
  intros Ho Hc.
  assert (Hfixed : ∃ t, 0 ≤ t ≤ 1000 ∧
                        ratio original converted = Number.fixed 1 t).
  { unfold ratio. rewrite sub_of_Z by lia.
    destruct (Z.eq_dec converted original) as [-> | Hne].
    - rewrite Z.sub_diag. exists 0. split; [lia|].
      destruct (of_Z_finite original Ho) as (m & e & ->). reflexivity.
    - destruct (percent_shape (original - converted) original)
        as (P & HP & Hl & Hle); [lia..|].
      unfold percent in HP. rewrite HP. by apply toFixed_1_shape. }
  destruct Hfixed as (t & Ht & ->).
  assert (Hall :
    forallb (λ t, String.eqb (Number.fixed 1 t)
                    (Number.digits (t / 10) +:+ "." +:+ Number.digits (t mod 10)))
      (seqZ 0 1001) = true) by (vm_compute; reflexivity).
  rewrite forallb_forall in Hall.
  specialize (Hall t ltac:(apply list_elem_of_In, elem_of_seqZ; lia)).
  apply String.eqb_eq in Hall.
  exists (t / 10), (t mod 10). rewrite Hall.
  repeat split; Z.to_euclidean_division_equations; lia.
Qed.

Lemma div_opp (m1 m2 : positive) (e1 e2 : Z) :
  Number.div (S754_finite true m1 e1) (S754_finite false m2 e2)
  = SFopp (Number.div (S754_finite false m1 e1) (S754_finite false m2 e2)).
Proof.
  unfold Number.div, SFdiv.
  destruct (SFdiv_core_binary _ _ _ _ _ _) as [[mz ez] lz].
  apply binary_round_aux_opp.
Qed.

Lemma mul_opp (m1 m2 : positive) (e1 e2 : Z) :
  Number.mul (S754_finite true m1 e1) (S754_finite false m2 e2)
  = SFopp (Number.mul (S754_finite false m1 e1) (S754_finite false m2 e2)).
Proof. unfold Number.mul, SFmul. apply binary_round_aux_opp. Qed.

Lemma toFixed_opp (fd : nat) (m : positive) (e : Z) :
  Number.toFixed fd (SFopp (S754_finite false m e))
  = "-" +:+ Number.toFixed fd (S754_finite false m e).
Proof.
  unfold Number.toFixed, Number.frac. cbn [SFopp negb].
  by destruct (0 <=? e).
Qed.

(** X16. The compression ratio of a conversion that made the file
    larger (sizes below 2^53, the original not empty) is negative: it
    reads as a minus sign followed by the growth in percent of the
    original size, [(converted - original) / original * 100], with one
    decimal. *)
Theorem ratio_of_grown_file (original converted : Z) :
  0 < original → original < converted → converted < 2 ^ 53 →
  ratio original converted
  = "-" +:+ Number.toFixed 1 (percent (converted - original) original).
Proof.
  intros Ho Hoc Hc. unfold ratio, percent. rewrite sub_of_Z by lia.
  replace (original - converted) with (- (converted - original)) by lia.
  rewrite of_Z_opp by lia.
  destruct (of_Z_canonical (converted - original)) as (md & Ed & _); [lia|].
  destruct (div_of_Z_mono (converted - original) (converted - original) original)
    as (A & _ & HA & _ & _ & HlA & _ & HEA & _); [lia..|].
  destruct (of_Z_canonical original) as (mo & Eo & _); [lia|].
  rewrite Ed, Eo in *. cbn [SFopp negb]. rewrite div_opp, HA.
  pose proof (times_100 A HlA HEA) as Hmul.
  change (Number.of_Z 100) with (S754_finite false 7036874417766400 (-46)) in *.
  destruct A as [M E]. unfold finite in Hmul |- *. cbn [fst snd SFopp negb] in *.
  rewrite mul_opp, Hmul. apply toFixed_opp.
Qed.

End Ratio.

Lemma ratio_of_shrunk_file_witness :
  ∃ whole tenth, 0 ≤ whole ≤ 100 ∧ 0 ≤ tenth ≤ 9 ∧
    (whole = 100 → tenth = 0) ∧
    ratio 1750000 700000
    = Number.digits whole +:+ "." +:+ Number.digits tenth.
Proof. apply (ratio_of_shrunk_file 1750000 700000); lia. Defined.

Lemma ratio_of_grown_file_witness :
  ratio 1000 1004 = "-" +:+ Number.toFixed 1 (percent 4 1000).
Proof. apply (ratio_of_grown_file 1000 1004); lia. Defined.

(** ** The progress shown *)

Section ProgressShown.

Variable codec : File.t → Number.number → Behaviour.

Import Round.

Local Arguments Number.of_Z : simpl never.
Local Arguments percent : simpl never.
Local Arguments ratio : simpl never.

(** [Math.round] of a number of at most 100. *)
Lemma Math_round_shape (P : Z * Z) :
  Z.log2 (fst P) = 52 → lexle P (7036874417766400, -46) →
  ∃ p, 0 ≤ p ≤ 100 ∧ Math_round (finite P) = Number.of_Z p.
Proof.
  destruct P as [M E]. cbn [fst snd]. intros HM%log2_52 Hle.
  unfold lexle in Hle. cbn [fst snd] in Hle.
  assert (HE : E < 0) by lia.
  set (d := 2 ^ (- E)).
  assert (Hd : 2 ^ 46 ≤ d).
  { subst d. apply Z.pow_le_mono_r; lia. }
  assert (HMd : M ≤ 100 * d).
  { destruct Hle as [Hlt | [-> Hm]].
    - assert (2 ^ 47 ≤ d) by (subst d; apply Z.pow_le_mono_r; lia). lia.
    - subst d. simpl in *. lia. }
  unfold finite, Math_round, Number.frac. cbn [fst snd].
  destruct (Z.leb_spec 0 E) as [|_]; [lia|].
  rewrite Z2Pos.id by lia. fold d. rewrite andb_false_r.
  exists ((2 * M + d) / (2 * d)). split; [|reflexivity]. split.
  - apply Z.div_pos; lia.
  - assert ((2 * M + d) / (2 * d) < 101); [|lia].
    apply Z.div_lt_upper_bound; lia.
Qed.

(** X17. While a batch runs (over fewer than 2^32 files), the progress
    label [Math.round(progress)] shows a whole number from 0 to 100,
    written with its decimal digits. *)
Theorem progress_label_in_range (w : World) (t : Task) :
  reachable codec w → tasks w = [t] →
  Z.of_nat (length (t_files t)) < 2 ^ 32 →
  ∃ p, 0 ≤ p ≤ 100 ∧
    Math_round (progress (ui w)) = Number.of_Z p ∧
    Number.toString (Math_round (progress (ui w))) = Number.digits p.
Proof.
  intros Hw%reachable_consistent Ht Hlen.
  assert (Hp : ∃ p, 0 ≤ p ≤ 100 ∧ Math_round (progress (ui w)) = Number.of_Z p).
  { unfold consistent in Hw. rewrite Ht in Hw.
    destruct Hw as (_ & Hi & _ & _ & _ & _ & [-> | (j & Hj & ->)]).
    - exists 0. split; [lia | reflexivity].
    - destruct (percent_shape j (Z.of_nat (length (t_files t))))
        as (P & -> & Hl & Hle); [lia..|].
      by apply Math_round_shape. }
  destruct Hp as (p & Hp & Heq). exists p. split; [exact Hp|].
  split; [exact Heq|]. rewrite Heq.
  assert (Hall :
    forallb (λ p, String.eqb (Number.toString (Number.of_Z p)) (Number.digits p))
      (seqZ 0 101) = true) by (vm_compute; reflexivity).
  rewrite forallb_forall in Hall.
  specialize (Hall p ltac:(apply list_elem_of_In, elem_of_seqZ; lia)).
  by apply String.eqb_eq in Hall.
Qed.

(** X18. When the conversion of the last file of a batch (of fewer than
    2^32 files) is rejected, the batch ends, with [converting] cleared and
    statistics written, but the progress stays where the last success
    left it, strictly below 100: [setProgress] is called on the success
    path only. *)
Theorem rejected_last_file_ends_below_100 (w : World) (t : Task)
    (fd : FileData.t) :
  reachable codec w → tasks w = [t] →
  Z.of_nat (length (t_files t)) < 2 ^ 32 →
  S (t_i t) = length (t_files t) →
  t_files t !! t_i t = Some fd →
  convertToWebP codec (FileData.file fd) (t_quality t) = Rejected →
  let w' := handle codec w (Settle 0) in
  tasks w' = [] ∧ converting (ui w') = false ∧ stats (ui w') ≠ None ∧
  progress (ui w') = progress (ui w) ∧
  Number.ltb (progress (ui w')) (Number.of_Z 100) = true.
Proof.
  intros Hw%reachable_consistent Ht Hlen Hlast Hfd Hconv. cbv zeta.
  unfold consistent in Hw. rewrite Ht in Hw.
  destruct Hw as (_ & Hi & _ & _ & _ & _ & Hp).
  destruct w as [st ts]. cbn [ui tasks] in *. subst ts.
  unfold handle, settle, resume. cbn [ui tasks lookup list_lookup].
  rewrite Hfd, Hconv. cbn [on_rejected t_i t_files].
  rewrite Hlast, Nat.ltb_irrefl. cbn [ui tasks].
  unfold finish. cbn [progress converting stats setConverting setStats delete
                      list_delete].
  repeat split; [done|].
  destruct Hp as [-> | (j & Hj & ->)]; [reflexivity|].
  apply percent_below_100; lia.
Qed.

End ProgressShown.

Lemma progress_label_in_range_witness :
  ∃ p, 0 ≤ p ≤ 100 ∧
    Math_round (progress (ui busy_page)) = Number.of_Z p ∧
    Number.toString (Math_round (progress (ui busy_page))) = Number.digits p.
Proof.
  assert (Hreach : reachable codec_400 busy_page)
    by apply reachable_handle, reachable_handle, reachable_start.
  assert (Hlen : Z.of_nat 1 < 2 ^ 32) by (simpl; lia).
  exact (progress_label_in_range codec_400 busy_page _ Hreach eq_refl Hlen).
Defined.

Lemma rejected_last_file_ends_below_100_witness :
  tasks (handle codec_partial locked_page (Settle 0)) = [] ∧
  converting (ui (handle codec_partial locked_page (Settle 0))) = false ∧
  Number.ltb (progress (ui (handle codec_partial locked_page (Settle 0))))
             (Number.of_Z 100) = true.
Proof.
  assert (Hreach : reachable codec_partial locked_page)
    by apply reachable_handle, reachable_handle, reachable_start.
  assert (Hlen : Z.of_nat 1 < 2 ^ 32) by (simpl; lia).
  pose proof (λ t fd Ht Hl Hlast Hfd Hc,
                rejected_last_file_ends_below_100 codec_partial locked_page t fd
                  Hreach Ht Hl Hlast Hfd Hc) as H.
  destruct (H _ _ eq_refl Hlen eq_refl eq_refl eq_refl) as (Ht & Hc & _ & _ & Hp).
  split; [exact Ht|]. split; [exact Hc | exact Hp].
Defined.

(** ** Downloads, one after the other *)

Section OneByOne.

Variable mint : nat → string.

Lemma part000_download_one_calls (result : ConversionResult.t) (dom : Dom.t) :
  Part000.download_one mint result dom
  = {| Dom.minted := S (Dom.minted dom);
       Dom.calls :=
         Dom.calls dom ++ download_calls "none" (mint (Dom.minted dom)) result |}.
Proof. reflexivity. Qed.

Lemma part000_loop (l : list ConversionResult.t) (dom : Dom.t) (waited : Z) :
  Part000.loop mint l dom waited
  = ({| Dom.minted := Dom.minted dom + length l;
        Dom.calls :=
          Dom.calls dom ++
          mjoin (imap (λ i result,
                         download_calls "none" (mint (Dom.minted dom + i))
                           result) l) |},
     waited + 500 * Z.of_nat (length l - 1)).
Proof.
  revert dom waited. induction l as [|r l IH]; intros dom waited.
  - simpl. rewrite Nat.add_0_r, app_nil_r, Z.add_0_r. by destruct dom.
  - cbn [Part000.loop]. rewrite IH, part000_download_one_calls.
    cbn [Dom.minted Dom.calls]. rewrite imap_cons. cbn [mjoin list_join length].
    rewrite Nat.add_0_r, <- app_assoc. f_equal.
    + f_equal; [lia|]. do 3 f_equal.
      apply imap_ext. intros i x _. simpl. do 2 f_equal. lia.
    + destruct l; simpl length; lia.
Qed.

Lemma part000_downloadAllFiles (st : State) (dom : Dom.t) :
  Part000.downloadAllFiles mint st dom
  = ({| Dom.minted := Dom.minted dom + length (convertedFiles st);
        Dom.calls :=
          Dom.calls dom ++
          mjoin (imap (λ i result,
                         download_calls "none" (mint (Dom.minted dom + i))
                           result) (convertedFiles st)) |},
     500 * Z.of_nat (length (convertedFiles st) - 1)).
Proof.
  unfold Part000.downloadAllFiles.
  destruct (convertedFiles st) as [|r l] eqn:Hcf.
  - simpl. rewrite Nat.add_0_r, app_nil_r. by destruct dom.
  - by rewrite part000_loop.
Qed.

Lemma anchors_href (display : string) (url : nat → string)
    (l : list ConversionResult.t) :
  Dom.href <$> imap (λ i result,
                       {| Dom.href := url i;
                          Dom.download :=
                            File.name (ConversionResult.converted result);
                          Dom.display := display |}) l
  = imap (λ i _, url i) l.
Proof.
  apply list_eq. intros i. rewrite list_lookup_fmap, !list_lookup_imap.
  by destruct (l !! i).
Qed.

Lemma anchors_download (display : string) (url : nat → string)
    (l : list ConversionResult.t) :
  Dom.download <$> imap (λ i result,
                           {| Dom.href := url i;
                              Dom.download :=
                                File.name (ConversionResult.converted result);
                              Dom.display := display |}) l
  = (λ result, File.name (ConversionResult.converted result)) <$> l.
Proof.
  apply list_eq. intros i. rewrite !list_lookup_fmap, list_lookup_imap.
  by destruct (l !! i).
Qed.

(** X19. The version of [downloadAllFiles] in [src/unnamed/part_000],
    which downloads the files one after the other, asks the browser for
    the same downloads as the version with timers: the same URLs and the
    same file names, in the same order.  Its anchors are hidden
    ([display] is [none]); it waits 500 ms between two downloads, that is
    [500 * (n - 1)] ms for [n] results; and it too leaves no object URL
    alive and no anchor in the body. *)
Theorem downloads_one_by_one (st : State) :
  let timers := fire (queue_of (downloadAllFiles mint st)) Dom.start in
  let one_by_one := Part000.downloadAllFiles mint st Dom.start in
  Dom.href <$> clicked (Dom.calls (fst one_by_one))
    = Dom.href <$> clicked (Dom.calls timers) ∧
  Dom.download <$> clicked (Dom.calls (fst one_by_one))
    = Dom.download <$> clicked (Dom.calls timers) ∧
  Dom.download <$> clicked (Dom.calls (fst one_by_one))
    = (λ result, File.name (ConversionResult.converted result))
      <$> convertedFiles st ∧
  Forall (λ a, Dom.display a = "none") (clicked (Dom.calls (fst one_by_one))) ∧
  live_urls (Dom.calls (fst one_by_one)) = [] ∧
  attached (Dom.calls (fst one_by_one)) = [] ∧
  snd one_by_one = 500 * Z.of_nat (length (convertedFiles st) - 1).
Proof.
  cbv zeta. rewrite part000_downloadAllFiles, downloads_log.
  cbn [fst snd Dom.calls Dom.minted Dom.start app].
  rewrite !clicked_blocks, !anchors_href, !anchors_download.
  destruct (blocks_clean "none" (λ i, mint (0 + i)) (convertedFiles st))
    as [Hl Ha].
  repeat split; try done.
  apply Forall_forall. intros a Ha'.
  apply list_elem_of_lookup in Ha' as [i Hi].
  rewrite list_lookup_imap in Hi.
  destruct (convertedFiles st !! i); [|discriminate]. by injection Hi as <-.
Qed.

End OneByOne.

(** ** The quality *)

Section Quality.

Variable codec : File.t → Number.number → Behaviour.

Lemma resume_quality (t t' : Task) (st st' : State) :
  resume codec t st = Some (t', st') →
  t_quality t' = t_quality t ∧ quality st' = quality st.
Proof.
  unfold resume. destruct (t_files t !! t_i t) as [fd|]; [|discriminate].
  destruct (convertToWebP codec (FileData.file fd) (t_quality t));
    [| |discriminate]; intros [= <- <-]; by split.
Qed.

Lemma quality_handle (w : World) (e : Event) :
  slider_event e →
  1 ≤ quality (ui w) ≤ 100 ∧
  Forall (λ t, 1 ≤ t_quality t ≤ 100) (tasks w) →
  1 ≤ quality (ui (handle codec w e)) ≤ 100 ∧
  Forall (λ t, 1 ≤ t_quality t ≤ 100) (tasks (handle codec w e)).
Proof.
  intros He [Hq Ht]. destruct w as [st ts]. cbn [ui tasks] in *.
  destruct e; cbn [handle ui tasks].
  - split; [|exact Ht]. by destruct selectedFiles.
  - by split.
  - by split.
  - unfold click, call, begin. cbn [ui tasks].
    destruct (converting st); [by split|].
    destruct (files st) as [|fd rest]; cbn [ui tasks]; [by split|].
    split; [exact Hq|]. apply Forall_app. split; [exact Ht|].
    constructor; [exact Hq | constructor].
  - unfold settle. cbn [ui tasks].
    destruct (ts !! n) as [t|] eqn:Hn; [|by split].
    destruct (resume codec t st) as [[t' st']|] eqn:Hres; [|by split].
    apply resume_quality in Hres as (Hqt & Hqs).
    assert (Hin : 1 ≤ t_quality t' ≤ 100).
    { rewrite Hqt. by eapply (Forall_lookup_1 _ _ _ _ Ht Hn). }
    destruct (t_i t' <? length (t_files t'))%nat; cbn [ui tasks].
    + rewrite Hqs. split; [exact Hq|]. by apply Forall_insert.
    + unfold finish. cbn [quality setConverting setStats]. rewrite Hqs.
      split; [exact Hq|]. by apply Forall_delete.
Qed.

(** X20. As long as the quality comes from the slider (1 to 100, 95 to
    begin with), the quality of the page and of every batch in flight is
    an integer from 1 to 100, and [convertToWebP] hands the encoder
    [quality / 100], a fraction above 0 and of at most 1. *)
Theorem encoder_quality_in_range (events : list Event) :
  Forall slider_event events →
  let w := run codec start events in
  1 ≤ quality (ui w) ≤ 100 ∧ encoder_quality (quality (ui w)) ∧
  Forall (λ t, 1 ≤ t_quality t ≤ 100 ∧ encoder_quality (t_quality t))
         (tasks w).
Proof.
  intros Hev. cbv zeta.
  assert (Hinv : 1 ≤ quality (ui (run codec start events)) ≤ 100 ∧
                 Forall (λ t, 1 ≤ t_quality t ≤ 100)
                        (tasks (run codec start events))).
  { unfold run.
    assert (Hstart : 1 ≤ quality (ui start) ≤ 100 ∧
                     Forall (λ t, 1 ≤ t_quality t ≤ 100) (tasks start))
      by (split; [simpl; lia | constructor]).
    revert Hstart. generalize start.
    induction Hev as [|e events He _ IH]; intros w Hw; [exact Hw|].
    cbn [foldl]. apply IH. by apply quality_handle. }
  assert (Hall : forallb (λ q,
                   Number.ltb (Number.of_Z 0)
                     (Number.div (Number.of_Z q) (Number.of_Z 100))
                   && Number.leb (Number.div (Number.of_Z q) (Number.of_Z 100))
                                 (Number.of_Z 1))
                 (seqZ 1 100) = true) by (vm_compute; reflexivity).
  rewrite forallb_forall in Hall.
  assert (Henc : ∀ q, 1 ≤ q ≤ 100 → encoder_quality q).
  { intros q Hq.
    specialize (Hall q ltac:(apply list_elem_of_In, elem_of_seqZ; lia)).
    apply andb_true_iff in Hall. exact Hall. }
  destruct Hinv as [Hq Ht]. split; [exact Hq|]. split; [by apply Henc|].
  eapply Forall_impl; [exact Ht|]. intros t Hqt. split; [exact Hqt | by apply Henc].
Qed.

End Quality.

Lemma encoder_quality_in_range_witness :
  1 ≤ quality (ui (run codec_400 start
                     [Quality 80;
                      Select (λ _, "id") (λ _, "blob:1") (Some [picture]);
                      Click; Quality 75])) ≤ 100 ∧
  Forall (λ t, 1 ≤ t_quality t ≤ 100 ∧ encoder_quality (t_quality t))
         (tasks (run codec_400 start
                   [Quality 80;
                    Select (λ _, "id") (λ _, "blob:1") (Some [picture]);
                    Click; Quality 75])).
Proof.
  destruct (encoder_quality_in_range codec_400
              [Quality 80;
               Select (λ _, "id") (λ _, "blob:1") (Some [picture]);
               Click; Quality 75]) as (Hq & _ & Ht).
  - repeat constructor; simpl; lia.
  - split; [exact Hq | exact Ht].
Defined.

(** ** Converted files as input *)

Section ConvertedAsInput.

Variable codec : File.t → Number.number → Behaviour.

Local Arguments ratio : simpl never.

(** X21. The converted file of an accepted image is itself accepted by
    [handleFileSelect] exactly when the name of the original carries no
    extension: with an extension the output is named [....webp] and is
    filtered out, so that offering it changes nothing; without one the
    output keeps the name, is of type [image/webp], and passes the
    filter. *)
Theorem converted_file_as_input (file : File.t) (quality : Z)
    (result : ConversionResult.t) :
  convertToWebP codec file quality = Resolved result →
  is_image file = true →
  (is_image (ConversionResult.converted result) = true ↔
   ∀ base ext, ¬ has_extension (File.name file) base ext) ∧
  ((∃ base ext, has_extension (File.name file) base ext) →
   ∀ random_id createObjectURL st,
     handleFileSelect random_id createObjectURL
       (Some [ConversionResult.converted result]) st = st).
Proof.
  unfold convertToWebP. destruct (codec _ _); try discriminate.
  intros [= <-] Hfile. cbn [ConversionResult.converted].
  assert (Hext : ∀ base ext, has_extension (File.name file) base ext →
            is_image {| File.name := Str.replace_ext (File.name file) ".webp";
                        File.type := "image/webp"; File.size := size |}
            = false).
  { intros base ext H. unfold is_image. cbn [File.name File.type].
    rewrite (replace_ext_extension _ base ext) by done.
    apply andb_false_iff. right. apply negb_false_iff, endsWith_iff.
    exists (Str.toLowerCase base). by rewrite toLowerCase_app. }
  split; [split|].
  - intros Hacc base ext H. rewrite (Hext base ext H) in Hacc. discriminate.
  - intros Hno. unfold is_image in *. cbn [File.name File.type].
    rewrite replace_ext_plain by done.
    apply andb_true_iff in Hfile as [_ Hname]. by rewrite Hname.
  - intros (base & ext & H) random_id createObjectURL st.
    unfold handleFileSelect.
    rewrite filter_cons_False by (rewrite (Hext base ext H); discriminate).
    rewrite filter_nil. simpl. rewrite app_nil_r. by destruct st.
Qed.

End ConvertedAsInput.

Lemma converted_file_as_input_witness :
  is_image {| File.name := "holiday.2024.webp"; File.type := "image/webp";
              File.size := 400 |} = true ↔
  ∀ base ext, ¬ has_extension "holiday.2024.JPG" base ext.
Proof.
  apply (converted_file_as_input codec_400 picture 80 _ eq_refl eq_refl).
Defined.

(** ** Converting again *)

Section Again.

Variable codec : File.t → Number.number → Behaviour.

(** X22. Converting again after a completed batch, with the working set
    and the quality left as they are, ends in exactly the state the first
    batch ended in: the same results, progress and statistics. *)
Theorem convertAllFiles_again (st st' : State) :
  convertAllFiles codec st = Completed st' →
  convertAllFiles codec st' = Completed st'.
Proof.
  intros Hrun.
  pose proof (convertAllFiles_outcomes_frame codec st) as [Hf Hq].
  rewrite Hrun in Hf, Hq. cbn [state_of] in Hf, Hq.
  pose proof (convertAllFiles_agree codec st st' (eq_sym Hf) (eq_sym Hq)) as H.
  rewrite Hrun in H. unfold same_outcome in H.
  destruct (convertAllFiles codec st'); try done. by subst.
Qed.

End Again.

Lemma convertAllFiles_again_witness :
  convertAllFiles codec_two_fifths
    (state_of (convertAllFiles codec_two_fifths three_images))
  = convertAllFiles codec_two_fifths three_images.
Proof.
  exact (convertAllFiles_again codec_two_fifths three_images _ eq_refl).
Defined.

(** ** A batch comes to its end *)

Section Completion.

Variable codec : File.t → Number.number → Behaviour.

Lemma loop_no_pending (rest : list FileData.t) (t : Task) (st : State) :
  (∀ fd, fd ∈ rest →
         convertToWebP codec (FileData.file fd) (t_quality t) ≠ Pending) →
  ∃ st', loop codec rest t st = Completed st'.
Proof.
  revert t st. induction rest as [|fd rest IH]; intros t st Hall.
  - by eexists.
  - assert (Hfd := Hall fd (list_elem_of_here _ _)).
    assert (Hrest : ∀ fd', fd' ∈ rest →
              convertToWebP codec (FileData.file fd') (t_quality t) ≠ Pending)
      by (intros fd' Hin; apply Hall; by apply list_elem_of_further).
    cbn [loop].
    destruct (convertToWebP codec (FileData.file fd) (t_quality t))
      as [result| |]; [| |done].
    + apply (IH (fst (on_resolved t result st))
                (snd (on_resolved t result st))). exact Hrest.
    + apply IH. exact Hrest.
Qed.

(** X23. A batch in which the conversion of every file settles, resolved
    or rejected, comes to its end: on an idle page with a working set of
    [n] files, the click on the convert button followed by [n]
    settlements leaves no call in flight, with [converting] cleared, in
    the state in which the call of [convertAllFiles] completes. *)
Theorem batch_completes_when_all_settle (st : State) :
  converting st = false → files st ≠ [] →
  (∀ fd, fd ∈ files st →
         convertToWebP codec (FileData.file fd) (quality st) ≠ Pending) →
  ∃ st', convertAllFiles codec st = Completed st' ∧
    settles codec (length (files st))
      (handle codec {| ui := st; tasks := [] |} Click)
    = {| ui := st'; tasks := [] |} ∧
    converting st' = false.
Proof.
  intros Hidle Hne Hall.
  pose proof (click_runs_convertAllFiles codec st Hidle) as Hclick.
  assert (Hdone : ∃ st', convertAllFiles codec st = Completed st').
  { unfold convertAllFiles, begin.
    destruct (files st) as [|fd rest] eqn:Hfiles; [done|].
    apply loop_no_pending. exact Hall. }
  destruct Hdone as [st' Hrun]. exists st'. rewrite Hrun in Hclick.
  split; [exact Hrun|]. split; [exact Hclick|].
  unfold convertAllFiles, begin in Hrun.
  destruct (files st) as [|fd rest]; [done|].
  pose proof (loop_frame codec (fd :: rest)
                {| t_files := fd :: rest; t_quality := quality st; t_i := 0;
                   t_results := []; t_totalOriginalSize := 0;
                   t_totalConvertedSize := 0 |}
                (setConvertedFiles []
                   (setProgress (Number.of_Z 0) (setConverting true st))))
    as Hframe.
  cbn [t_files] in Hrun. rewrite Hrun in Hframe. by destruct Hframe as (_ & _ & ? & _).
Qed.

End Completion.

Lemma batch_completes_when_all_settle_witness :
  ∃ st', convertAllFiles codec_two_fifths three_images = Completed st' ∧
    settles codec_two_fifths 3
      (handle codec_two_fifths {| ui := three_images; tasks := [] |} Click)
    = {| ui := st'; tasks := [] |} ∧
    converting st' = false.
Proof.
  apply (batch_completes_when_all_settle codec_two_fifths three_images).
  - reflexivity.
  - discriminate.
  - intros fd Hfd. unfold convertToWebP, codec_two_fifths. discriminate.
Defined.

(** ** The statistics in binary64 *)

Section Statistics.

Import Round.

Variable codec : File.t → Number.number → Behaviour.

Local Arguments Number.of_Z : simpl never.
Local Arguments ratio : simpl never.
Local Arguments percent : simpl never.
Local Arguments resolved_results : simpl never.

(** The sum of two byte counts is computed exactly as long as it stays
    below 2^53. *)
Lemma add_of_Z (a b : Z) :
  0 ≤ a → 0 ≤ b → a + b < 2 ^ 53 →
  Number.add (Number.of_Z a) (Number.of_Z b) = Number.of_Z (a + b).
Proof.
  intros Ha Hb Hab.
  destruct (Z.eq_dec a 0) as [-> | Ha0].
  { rewrite Z.add_0_l. destruct (Z.eq_dec b 0) as [-> | Hb0]; [reflexivity|].
    destruct (of_Z_canonical b) as (m & -> & _); [lia|]. reflexivity. }
  destruct (Z.eq_dec b 0) as [-> | Hb0].
  { rewrite Z.add_0_r.
    destruct (of_Z_canonical a) as (m & -> & _); [lia|]. reflexivity. }
  destruct (of_Z_canonical a) as (ma & Ea & Hma & Hlma); [lia|].
  destruct (of_Z_canonical b) as (mb & Eb & Hmb & Hlmb); [lia|].
  assert (Hla : 0 ≤ Z.log2 a < 53).
  { split; [apply Z.log2_nonneg | apply Z.log2_lt_pow2; lia]. }
  assert (Hlb : 0 ≤ Z.log2 b < 53).
  { split; [apply Z.log2_nonneg | apply Z.log2_lt_pow2; lia]. }
  rewrite Ea, Eb. unfold Number.add, SFadd. cbv zeta.
  set (ez := Z.min (Z.log2 a - 52) (Z.log2 b - 52)).
  assert (Hez : -52 ≤ ez ≤ 0 ∧ ez ≤ Z.log2 a - 52 ∧ ez ≤ Z.log2 b - 52)
    by (subst ez; lia).
  rewrite !shl_align_fst by lia. cbn [cond_Zopp].
  assert (Hsa : Z.pos ma * 2 ^ (Z.log2 a - 52 - ez) = a * 2 ^ (- ez)).
  { rewrite Hma, <- Z.mul_assoc, <- Z.pow_add_r by lia. f_equal. f_equal. lia. }
  assert (Hsb : Z.pos mb * 2 ^ (Z.log2 b - 52 - ez) = b * 2 ^ (- ez)).
  { rewrite Hmb, <- Z.mul_assoc, <- Z.pow_add_r by lia. f_equal. f_equal. lia. }
  rewrite Hsa, Hsb, <- Z.mul_add_distr_r.
  assert (Hpw : 0 < 2 ^ (- ez)) by (apply Z.pow_pos_nonneg; lia).
  destruct ((a + b) * 2 ^ (- ez)) as [|p|p] eqn:Hd; [nia| |nia].
  unfold binary_normalize. apply binary_round_canonical; lia.
Qed.

Lemma total_nonneg (size : ConversionResult.t → Z)
    (l : list ConversionResult.t) :
  Forall (λ r, 0 ≤ size r) l → 0 ≤ total size l.
Proof. induction 1; simpl; lia. Qed.

(** The totals that the loop accumulates in binary64 are the integer
    sums, as long as these stay below 2^53. *)
Lemma accumulate_exact (size : ConversionResult.t → Z)
    (l : list ConversionResult.t) :
  Forall (λ r, 0 ≤ size r) l → total size l < 2 ^ 53 →
  accumulate size l = Number.of_Z (total size l).
Proof.
  unfold accumulate. intros Hpos Hlt.
  assert (Hgen : ∀ z, 0 ≤ z → z + total size l < 2 ^ 53 →
            foldl (λ acc r, Number.add acc (Number.of_Z (size r)))
                  (Number.of_Z z) l
            = Number.of_Z (z + total size l)).
  { clear Hlt. induction Hpos as [|r l Hr Hl IH]; intros z Hz Hb.
    - simpl. by rewrite Z.add_0_r.
    - pose proof (total_nonneg size l Hl) as Ht. simpl in Hb |- *.
      rewrite add_of_Z by lia. rewrite IH by lia. f_equal. lia. }
  rewrite (Hgen 0) by lia. by rewrite Z.add_0_l.
Qed.

(** Rounding to nearest moves a quotient by at most half a unit. *)
Lemma rne_kdiv_error (N D : Z) :
  0 < D → 0 ≤ N → Z.abs (2 * rne (kdiv N D) * D - 2 * N) ≤ D.
Proof.
  intros HD HN. unfold rne, kdiv.
  pose proof (Z.div_mod N D ltac:(lia)) as Hdm.
  pose proof (Z.mod_pos_bound N D HD) as Hr.
  set (q := N / D) in *. set (r := N mod D) in *.
  assert (Hq : ∀ c, 0 ≤ c < 4 → (4 * q + c) / 4 = q ∧ (4 * q + c) mod 4 = c)
    by (intros c Hc; Z.to_euclidean_division_equations; lia).
  destruct (Z.eqb_spec r 0) as [Hr0 | Hr0].
  - destruct (Hq 0 ltac:(lia)) as [-> ->]. simpl. lia.
  - destruct (Z.compare_spec (2 * r) D) as [Heq | Hlt | Hgt].
    + destruct (Hq 2 ltac:(lia)) as [-> ->]. simpl.
      destruct (Z.even q); lia.
    + destruct (Hq 1 ltac:(lia)) as [-> ->]. simpl. lia.
    + destruct (Hq 3 ltac:(lia)) as [-> ->]. simpl. lia.
Qed.

(** The number that rounding gives to the quotient [N / D] at exponent
    [e]: a mantissa [M] of 53 bits at an exponent [e + j], with
    [M * 2^j] within half a unit of the last place of the quotient. *)
Lemma rounded_error (N D e : Z) :
  0 < D → 0 ≤ N → 52 ≤ Z.log2 (kdiv N D / 4) →
  ∃ j, 0 ≤ j ≤ Z.log2 (kdiv N D / 4) - 51 ∧
       snd (rounded (kdiv N D) e) = e + j ∧
       2 ^ 52 ≤ fst (rounded (kdiv N D) e) < 2 ^ 53 ∧
       Z.abs (2 * fst (rounded (kdiv N D) e) * 2 ^ j * D - 2 * N) ≤ D * 2 ^ j.
Proof.
  intros HD HN Hlog.
  pose proof (rounded_mantissa (kdiv N D) Hlog) as HM. cbv zeta in HM.
  unfold rounded.
  set (sc := Z.log2 (kdiv N D / 4) - 52) in *.
  assert (Hsc : 0 ≤ sc) by lia.
  assert (Hp : 0 < 2 ^ sc) by (apply Z.pow_pos_nonneg; lia).
  rewrite kdiv_shift, Z2Nat.id in * by lia.
  pose proof (rne_kdiv_error N (D * 2 ^ sc) ltac:(nia) HN) as Herr.
  set (M0 := rne (kdiv N (D * 2 ^ sc))) in *.
  destruct (Z.eqb_spec M0 (2 ^ 53)) as [Heq | Hne]; cbn [fst snd].
  - exists (sc + 1). split; [lia|]. split; [lia|]. split; [lia|].
    rewrite Z.pow_add_r by lia. change (2 ^ 1) with 2.
    rewrite Heq in Herr.
    replace (2 * 2 ^ 52 * (2 ^ sc * 2) * D) with (2 * 2 ^ 53 * (D * 2 ^ sc))
      by (change (2 ^ 53) with (2 * 2 ^ 52); ring).
    nia.
  - exists sc. split; [lia|]. split; [lia|]. split; [lia|].
    replace (2 * M0 * 2 ^ sc * D) with (2 * M0 * (D * 2 ^ sc)) by ring.
    exact Herr.
Qed.

Lemma scaled_bound (A T B : Z) :
  0 ≤ A → Z.abs T ≤ B → - (A * B) ≤ A * T ≤ A * B.
Proof. intros HA HT. apply Z.abs_le in HT. nia. Qed.

(** The three roundings of [(a / o * 100).toFixed(1)], on integers.  The
    quotient is rounded to [M1] (at the scale [s1]), the product with
    100 (the mantissa [7036874417766400] at the exponent [-46]) to [M2]
    (at the scale [s2]), and the tenths to [t]; [pa] and [pn] are the
    powers of 2 that bring [a] and [o] to 53 bits, and [h / d] is the
    power of 2 of the product.  Each rounding is off by at most half a
    unit; together they leave [t] within half a tenth, and a relative
    2^-51, of [1000 * a / o]. *)
Lemma tenths_error (o a M1 M2 t pn pa s1 s2 d h : Z) :
  0 < o → 0 < a → 0 < pn → 0 < pa → 0 < s1 → 0 < s2 → 0 < d → 0 < h →
  2 ^ 52 ≤ M1 → 2 ^ 52 ≤ M2 →
  s1 * s2 * d * pn = pa * 2 ^ 99 * h →
  Z.abs (2 * M1 * s1 * (o * pn) - 2 * (a * pa * 2 ^ 53)) ≤ o * pn * s1 →
  Z.abs (2 * M2 * s2 * 1 - 2 * (M1 * 7036874417766400)) ≤ 1 * s2 →
  Z.abs (2 * d * t - 20 * (M2 * h)) ≤ d →
  2 ^ 52 * Z.abs (t * o - 1000 * a) ≤ 2 ^ 51 * o + 2000 * a.
Proof.
  intros Ho Ha Hpn Hpa Hs1 Hs2 Hd Hh HM1 HM2 Hstar H3 H2 H1.
  assert (HP : 0 < s1 * pn) by (apply Z.mul_pos_pos; lia).
  assert (Hoh : 0 < o * h) by (apply Z.mul_pos_pos; lia).
  assert (Hosh : 0 < o * s2 * h).
  { replace (o * s2 * h) with (o * h * s2) by ring. apply Z.mul_pos_pos; lia. }
  assert (HQ : 0 < s1 * s2 * d * pn) by (repeat apply Z.mul_pos_pos; lia).
  assert (Hsa : a * (pa * 2 ^ 99 * h) = a * (s1 * s2 * d * pn))
    by (by rewrite Hstar).
  (* the quotient, times 100 *)
  assert (HA : 2 * (o * M1 * 7036874417766400 * h)
               ≤ 2 * (100 * a * s2 * d) + 7036874417766400 * o * h).
  { apply (Z.mul_le_mono_pos_l _ _ (s1 * pn) HP).
    pose proof (scaled_bound (7036874417766400 * h) _ _ ltac:(clear - Hh; lia) H3)
      as B.
    clear - B Hsa. lia. }
  assert (HB : 2 ^ 52 * (7036874417766400 * o * h)
               ≤ o * M1 * 7036874417766400 * h).
  { pose proof (Z.mul_le_mono_nonneg_l _ _ (7036874417766400 * (o * h))
                  ltac:(clear - Hoh; lia) HM1) as B.
    clear - B. lia. }
  (* the product *)
  assert (HC : 2 * (o * M2 * s2 * h)
               ≤ 2 * (o * M1 * 7036874417766400 * h) + o * s2 * h).
  { pose proof (scaled_bound (o * h) _ _ ltac:(clear - Hoh; lia) H2) as B.
    clear - B. lia. }
  assert (HD : 2 ^ 52 * (o * s2 * h) ≤ o * M2 * s2 * h).
  { pose proof (Z.mul_le_mono_nonneg_l _ _ (o * s2 * h)
                  ltac:(clear - Hosh; lia) HM2) as B.
    clear - B. lia. }
  (* half a unit of either rounding, against the value *)
  assert (HE : 2 ^ 52 * (o * s2 * h + 7036874417766400 * o * h)
               ≤ 4 * (100 * a * s2 * d))
    by (clear - HA HB HC HD Hoh Hosh; lia).
  pose proof (Z.mul_le_mono_nonneg_l _ _ (10 * (s1 * pn))
                ltac:(clear - HP; lia) HE) as HE'.
  pose proof (scaled_bound (o * s1 * s2 * pn) _ _
                ltac:(clear - Ho Hs1 Hs2 Hpn; nia) H1) as B1.
  pose proof (scaled_bound (10 * (o * s1 * pn * h)) _ _
                ltac:(clear - Ho Hs1 Hpn Hh; nia) H2) as B2.
  pose proof (scaled_bound (10 * (7036874417766400 * h)) _ _
                ltac:(clear - Hh; lia) H3) as B3.
  apply (Z.mul_le_mono_pos_l _ _ (2 * (s1 * s2 * d * pn))); [clear - HQ; lia|].
  clear - Hsa HE' B1 B2 B3.
  destruct (Z.abs_spec (t * o - 1000 * a)) as [[_ ->] | [_ ->]]; lia.
Qed.

(** [((a / n) * 100).toFixed(1)] for two positive integers below 2^53:
    the tenths nearest to [1000 * a / n], up to the roundings. *)
Lemma percent_tenths (a n : Z) :
  0 < a < 2 ^ 53 → 0 < n < 2 ^ 53 →
  ∃ t, 0 ≤ t ∧ Number.toFixed 1 (percent a n) = Number.fixed 1 t ∧
       2 ^ 52 * Z.abs (t * n - 1000 * a) ≤ 2 ^ 51 * n + 2000 * a.
Proof.
  intros Ha Hn. unfold percent.
  destruct (div_of_Z a n Ha Hn) as (ma & mn & Hma & Hla & Hmn & Hln & ->).
  pose proof (log2_quotient_key _ _ Hla Hln) as HK1.
  assert (Hlog : 0 ≤ Z.log2 a < 53 ∧ 0 ≤ Z.log2 n < 53).
  { repeat split; try apply Z.log2_nonneg; apply Z.log2_lt_pow2; lia. }
  set (e1 := Z.log2 a - Z.log2 n - 53).
  destruct (rounded_error (Z.pos ma * 2 ^ 53) (Z.pos mn) e1)
    as (j1 & Hj1 & HE1 & HM1 & Herr1); [lia..|].
  destruct (rounded (kdiv (Z.pos ma * 2 ^ 53) (Z.pos mn)) e1) as [M1 E1].
  cbn [fst snd] in *.
  rewrite times_100; cbn [fst snd]; [|apply Z.log2_unique; lia|lia].
  rewrite <- kdiv_one.
  assert (HK2 : 52 ≤ Z.log2 (kdiv (M1 * 7036874417766400) 1 / 4) ≤ 105).
  { rewrite kdiv_one, Z.mul_comm, Z.div_mul by lia.
    split; [apply Z.log2_le_pow2; lia|].
    assert (Z.log2 (M1 * 7036874417766400) < 106)
      by (apply Z.log2_lt_pow2; lia).
    lia. }
  destruct (rounded_error (M1 * 7036874417766400) 1 (E1 - 46))
    as (j2 & Hj2 & HE2 & HM2 & Herr2); [lia..|].
  destruct (rounded (kdiv (M1 * 7036874417766400) 1) (E1 - 46)) as [M2 E2].
  cbn [fst snd] in *.
  rewrite Hma, Hmn in Herr1.
  set (pa := 2 ^ (52 - Z.log2 a)) in *. set (pn := 2 ^ (52 - Z.log2 n)) in *.
  assert (Hpa : 0 < pa) by (apply Z.pow_pos_nonneg; lia).
  assert (Hpn : 0 < pn) by (apply Z.pow_pos_nonneg; lia).
  assert (Hs1 : 0 < 2 ^ j1) by (apply Z.pow_pos_nonneg; lia).
  assert (Hs2 : 0 < 2 ^ j2) by (apply Z.pow_pos_nonneg; lia).
  unfold finite, Number.toFixed, Number.frac. cbn [fst snd].
  rewrite Z2Pos.id by lia. change (10 ^ Z.of_nat 1) with 10.
  destruct (Z.leb_spec 0 E2) as [HE | HE].
  - assert (Hh : 0 < 2 ^ E2) by (apply Z.pow_pos_nonneg; lia).
    assert (Hh' : 2 ^ E2 ≤ 2 ^ 9) by (apply Z.pow_le_mono_r; lia).
    destruct (Z.leb_spec (10 ^ 21 * 1) (M2 * 2 ^ E2)) as [Hbig|_]; [nia|].
    eexists. split; [|split; [reflexivity|]].
    + apply Z.div_pos; nia.
    + apply (tenths_error n a M1 M2 _ pn pa (2 ^ j1) (2 ^ j2) 1 (2 ^ E2));
        try lia.
      * subst pa pn. rewrite Z.mul_1_r, <- !Z.pow_add_r by lia. f_equal. lia.
      * set (q := (2 * (M2 * 2 ^ E2) * 10 + 1) / (2 * 1)).
        assert (2 * q ≤ 2 * (M2 * 2 ^ E2) * 10 + 1 < 2 * q + 2)
          by (subst q; Z.to_euclidean_division_equations; lia).
        lia.
  - set (d := 2 ^ (- E2)).
    assert (Hd : 0 < d) by (apply Z.pow_pos_nonneg; lia).
    destruct (Z.leb_spec (10 ^ 21 * d) M2) as [Hbig|_]; [nia|].
    eexists. split; [|split; [reflexivity|]].
    + apply Z.div_pos; nia.
    + apply (tenths_error n a M1 M2 _ pn pa (2 ^ j1) (2 ^ j2) d 1);
        try lia.
      * subst pa pn d. rewrite Z.mul_1_r, <- !Z.pow_add_r by lia. f_equal. lia.
      * set (q := (2 * M2 * 10 + d) / (2 * d)).
        assert (2 * d * q ≤ 2 * M2 * 10 + d < 2 * d * q + 2 * d).
        { subst q. pose proof (Z.div_mod (2 * M2 * 10 + d) (2 * d) ltac:(lia)).
          pose proof (Z.mod_pos_bound (2 * M2 * 10 + d) (2 * d) ltac:(lia)).
          lia. }
        lia.
Qed.

(** The ratio of two byte counts below 2^53, the first not 0, shows the
    share of the first that the second saves. *)
Lemma ratio_shows_percent (o c : Z) :
  0 < o < 2 ^ 53 → 0 ≤ c < 2 ^ 53 → shows_percent (ratio o c) (o - c) o.
Proof.
  intros Ho Hc. unfold shows_percent.
  destruct (Z.lt_total o c) as [Hlt | [Heq | Hgt]].
  - destruct (percent_tenths (c - o) o) as (t & Ht & Hfix & Herr); [lia..|].
    exists t. split; [exact Ht|].
    destruct (Z.ltb_spec (o - c) 0) as [_|]; [|lia].
    replace (Z.abs (o - c)) with (c - o) by lia. split; [|exact Herr].
    rewrite <- Hfix. unfold ratio, percent. rewrite sub_of_Z by lia.
    replace (o - c) with (- (c - o)) by lia. rewrite of_Z_opp by lia.
    destruct (of_Z_canonical (c - o)) as (md & Ed & _); [lia|].
    destruct (div_of_Z_mono (c - o) (c - o) o)
      as (A & _ & HA & _ & _ & HlA & _ & HEA & _); [lia..|].
    destruct (of_Z_canonical o) as (mo & Eo & _); [lia|].
    rewrite Ed, Eo in *. cbn [SFopp negb]. rewrite div_opp, HA.
    pose proof (times_100 A HlA HEA) as Hmul.
    change (Number.of_Z 100) with (S754_finite false 7036874417766400 (-46)) in *.
    destruct A as [M E]. unfold finite in Hmul |- *. cbn [fst snd SFopp negb] in *.
    rewrite mul_opp, Hmul. apply toFixed_opp.
  - subst c. exists 0. rewrite Z.sub_diag. split; [lia|]. split; [|lia].
    unfold ratio. rewrite sub_of_Z, Z.sub_diag by lia.
    destruct (of_Z_finite o Ho) as (m & e & ->). reflexivity.
  - destruct (percent_tenths (o - c) o) as (t & Ht & Hfix & Herr); [lia..|].
    exists t. split; [exact Ht|].
    destruct (Z.ltb_spec (o - c) 0) as [|_]; [lia|].
    replace (Z.abs (o - c)) with (o - c) by lia. split; [|exact Herr].
    rewrite <- Hfix. unfold ratio, percent. by rewrite sub_of_Z by lia.
Qed.

(** The ratio on an original size of 0: the quotient by 0 is formatted as
    it is. *)
Lemma ratio_of_nothing (c : Z) :
  0 ≤ c < 2 ^ 53 → ratio 0 c = if c =? 0 then "NaN" else "-Infinity".
Proof.
  intros Hc. destruct (Z.eqb_spec c 0) as [-> | Hne]; [reflexivity|].
  unfold ratio. rewrite sub_of_Z, Z.sub_0_l, of_Z_opp by lia.
  destruct (of_Z_canonical c) as (m & -> & _); [lia|]. reflexivity.
Qed.

Lemma NaN_has_no_point (x y : string) : "NaN" ≠ x +:+ String "." y.
Proof.
  destruct x as [|c1 [|c2 [|c3 [|c4 x]]]]; simpl; intros H;
    try discriminate; injection H; intros; discriminate.
Qed.

Lemma fixed_1_point (t : Z) : ∃ x y, Number.fixed 1 t = x +:+ String "." y.
Proof. unfold Number.fixed. eexists _, _. reflexivity. Qed.

Lemma exact_sizes_nonneg (l : list ConversionResult.t) :
  exact_sizes l →
  0 ≤ total ConversionResult.originalSize l < 2 ^ 53 ∧
  0 ≤ total ConversionResult.convertedSize l < 2 ^ 53 ∧
  accumulate ConversionResult.originalSize l
  = Number.of_Z (total ConversionResult.originalSize l) ∧
  accumulate ConversionResult.convertedSize l
  = Number.of_Z (total ConversionResult.convertedSize l).
Proof.
  intros (Hnn & HO & HC).
  assert (HfO : Forall (λ r, 0 ≤ ConversionResult.originalSize r) l)
    by (eapply Forall_impl; [exact Hnn | by intros r [? ?]]).
  assert (HfC : Forall (λ r, 0 ≤ ConversionResult.convertedSize r) l)
    by (eapply Forall_impl; [exact Hnn | by intros r [? ?]]).
  pose proof (total_nonneg _ _ HfO). pose proof (total_nonneg _ _ HfC).
  repeat split; try lia; by apply accumulate_exact.
Qed.

(** C4, as the code has it. When a batch completes and the sizes of its
    results are byte counts whose sums stay below 2^53, the collection
    holds the results of the files that were converted successfully, and
    the statistics count every file of the working set as attempted; the
    totals are the sums of the original and of the converted sizes over
    those results, which is also what the loop accumulates in binary64;
    the savings are their difference, exactly, also in binary64.  When
    the total original size is not 0, the compression ratio shows
    [savings / original * 100] with one decimal: the tenths written with
    a point before the last digit, after a minus sign when the savings
    are negative, within half a tenth (and a relative 2^-51 for the
    binary64 operations) of the percentage.  When the total original
    size is 0 (no conversion succeeded, or only empty files did), the
    ratio is the text [NaN], or [-Infinity] if the converted total is
    not 0. *)
Theorem completed_batch_stats (st st' : State) :
  convertAllFiles codec st = Completed st' →
  exact_sizes (convertedFiles st') →
  convertedFiles st' = resolved_results codec (quality st) (files st) ∧
  ∃ s, stats st' = Some s ∧
    Stats.totalFiles s = length (files st) ∧
    Stats.totalOriginalSize s
    = total ConversionResult.originalSize (convertedFiles st') ∧
    accumulate ConversionResult.originalSize (convertedFiles st')
    = Number.of_Z (Stats.totalOriginalSize s) ∧
    Stats.totalConvertedSize s
    = total ConversionResult.convertedSize (convertedFiles st') ∧
    accumulate ConversionResult.convertedSize (convertedFiles st')
    = Number.of_Z (Stats.totalConvertedSize s) ∧
    Stats.totalSavings s
    = Stats.totalOriginalSize s - Stats.totalConvertedSize s ∧
    Number.sub (Number.of_Z (Stats.totalOriginalSize s))
               (Number.of_Z (Stats.totalConvertedSize s))
    = Number.of_Z (Stats.totalSavings s) ∧
    (0 < Stats.totalOriginalSize s →
     shows_percent (Stats.compressionRatio s) (Stats.totalSavings s)
                   (Stats.totalOriginalSize s)) ∧
    (Stats.totalOriginalSize s = 0 →
     Stats.compressionRatio s
     = if Stats.totalConvertedSize s =? 0 then "NaN" else "-Infinity").
Proof.
  intros H Hex. apply convertAllFiles_completed in H. cbv zeta in H.
  destruct H as [Hcf Hs]. rewrite Hcf in Hex |- *.
  set (rs := resolved_results codec (quality st) (files st)) in *.
  destruct (exact_sizes_nonneg rs Hex) as (HO & HC & HaO & HaC).
  split; [reflexivity|]. eexists. split; [exact Hs|].
  cbn [Stats.totalFiles Stats.totalOriginalSize Stats.totalConvertedSize
       Stats.totalSavings Stats.compressionRatio].
  split; [reflexivity|]. split; [reflexivity|].
  split; [exact HaO|]. split; [reflexivity|].
  split; [exact HaC|]. split; [reflexivity|].
  split; [apply sub_of_Z; lia|]. split.
  - intros Hpos. apply ratio_shows_percent; lia.
  - intros ->. apply ratio_of_nothing. lia.
Qed.

(** X9. Whenever no batch is running and the sizes of the results shown
    are byte counts whose sums stay below 2^53, the statistics, if any
    are shown, are those of the results shown: the totals are the sums
    of the sizes over the collection, which is also what the loop
    accumulated in binary64, the savings their difference, also as
    binary64 computes it, and the ratio the one of the totals; and
    without statistics the collection is empty. *)
Theorem idle_statistics_match_results (w : World) :
  reachable codec w → ¬ running w → exact_sizes (convertedFiles (ui w)) →
  match stats (ui w) with
  | None => convertedFiles (ui w) = []
  | Some s =>
      stats_of (convertedFiles (ui w)) s ∧
      accumulate ConversionResult.originalSize (convertedFiles (ui w))
      = Number.of_Z (Stats.totalOriginalSize s) ∧
      accumulate ConversionResult.convertedSize (convertedFiles (ui w))
      = Number.of_Z (Stats.totalConvertedSize s) ∧
      Number.sub (Number.of_Z (Stats.totalOriginalSize s))
                 (Number.of_Z (Stats.totalConvertedSize s))
      = Number.of_Z (Stats.totalSavings s)
  end.
Proof.
  intros Hw Hidle Hex.
  pose proof (idle_statistics_invariant codec w Hw Hidle) as H.
  destruct (stats (ui w)) as [s|]; [|exact H].
  split; [exact H|]. destruct H as (Ho & Hc & Hd & _).
  destruct (exact_sizes_nonneg _ Hex) as (HO & HC & HaO & HaC).
  rewrite Hd, Ho, Hc.
  split; [exact HaO|]. split; [exact HaC|]. apply sub_of_Z; lia.
Qed.

End Statistics.

(** The scenario of three images of 1,000,000, 500,000 and 250,000 bytes
    that convert to 400,000, 200,000 and 100,000 bytes. *)
Lemma completed_batch_stats_witness :
  exact_sizes
    (convertedFiles (state_of (convertAllFiles codec_two_fifths three_images))) ∧
  ∃ s, stats (state_of (convertAllFiles codec_two_fifths three_images)) = Some s ∧
    Stats.totalFiles s = 3%nat ∧
    Stats.totalOriginalSize s = 1750000 ∧
    Stats.totalConvertedSize s = 700000 ∧
    Stats.totalSavings s = 1050000 ∧
    Stats.compressionRatio s = "60.0" ∧
    shows_percent "60.0" 1050000 1750000.
Proof.
  assert (Hex : exact_sizes
            (convertedFiles
               (state_of (convertAllFiles codec_two_fifths three_images)))).
  { split; [|by split]. simpl.
    repeat (apply Forall_cons_2; [split; vm_compute; discriminate|]).
    apply Forall_nil_2. }
  split; [exact Hex|].
  destruct (completed_batch_stats codec_two_fifths three_images _ eq_refl Hex)
    as (_ & s & Hs & Hn & Ho & _ & Hc & _ & Hd & _ & Hr & _).
  exists s. split; [exact Hs|]. injection Hs as <-.
  split; [exact Hn|]. split; [exact Ho|]. split; [exact Hc|].
  split; [exact Hd|]. split; [reflexivity|]. apply Hr. reflexivity.
Defined.

(** C4 as stated fails: a batch of two files whose conversions are both
    rejected completes, counts its two files, and has the compression
    ratio [NaN], which is no number with one decimal, with or without a
    sign. *)
Lemma all_rejected_ratio_is_no_percentage :
  ∃ st' s,
    convertAllFiles codec_partial locked_pair = Completed st' ∧
    stats st' = Some s ∧
    Stats.totalFiles s = 2%nat ∧
    Stats.compressionRatio s = "NaN" ∧
    ∀ sign t, Stats.compressionRatio s ≠ sign +:+ Number.fixed 1 t.
Proof.
  eexists _, _. split; [reflexivity|]. split; [reflexivity|].
  split; [reflexivity|]. split; [reflexivity|].
  intros sign t. destruct (fixed_1_point t) as (x & y & ->).
  change (Stats.compressionRatio _) with "NaN".
  rewrite <- append_assoc. apply NaN_has_no_point.
Qed.

(** The page on which one file was converted to 400 bytes. *)
Lemma idle_statistics_match_results_witness :
  exact_sizes (convertedFiles (ui finished_page)) ∧
  ∃ s, stats (ui finished_page) = Some s ∧
    stats_of (convertedFiles (ui finished_page)) s ∧
    accumulate ConversionResult.originalSize (convertedFiles (ui finished_page))
    = Number.of_Z 1000 ∧
    accumulate ConversionResult.convertedSize (convertedFiles (ui finished_page))
    = Number.of_Z 400 ∧
    Number.sub (Number.of_Z 1000) (Number.of_Z 400) = Number.of_Z 600.
Proof.
  assert (Hex : exact_sizes (convertedFiles (ui finished_page))).
  { split; [|by split]. simpl.
    repeat (apply Forall_cons_2; [split; vm_compute; discriminate|]).
    apply Forall_nil_2. }
  split; [exact Hex|].
  pose proof (idle_statistics_match_results codec_400 finished_page) as H.
  eexists. split; [reflexivity|].
  apply H; [|by intros Hrun; apply Hrun|exact Hex].
  apply reachable_handle, reachable_handle, reachable_handle, reachable_start.
Defined.
